(** * confeitaria: the dual-backend storage layer

    A shallow embedding of the persistence code of the order-entry page
    ([Home]) and of the delivery dashboard ([DeliveriesDashboard]): the
    IndexedDB helpers, the localStorage fallback, the [storage] adapter that
    chooses between them, the start-up migration, and the cross-tab
    notification sent after a write.

    JavaScript effects are made explicit: every function of the source that
    touches the browser is a computation over a [World] (localStorage, the
    [cakeDB] database, the messages posted on the [cake_sync] channel, the
    React state of the two pages) that either completes normally or throws.
    An [await] is the bind of that monad; a rejected promise is a throw.

    Around the storage layer the file also embeds its callers and the pure
    helpers of the two pages: the dashboard's handlers and channel listener
    ([Deliveries], [Listeners]), the button handlers of the order-entry page
    ([HomePage]), the telephone mask [formatPhone], and the dashboard's
    calendar ([Calendar]: [ymd], month navigation, the month grid). *)

From Stdlib Require Import ZArith DecimalString.
From stdpp Require Import base strings list gmap fin_maps.

Open Scope string_scope.
Open Scope list_scope.

(** ** Record kinds *)

(** JS numbers are payload to the storage layer: they are stored and read
    back, never computed on.  The constants of the source are integers; the
    only test the handlers make on a number is a price's sign. *)
Definition number := Z.

Record Flavor := mkFlavor {
  Flavor_name : string;
  Flavor_pricePerKg : number;
}.

Record Client := mkClient {
  Client_id : string;
  Client_name : string;
  Client_phone : string;
}.

Inductive OrderStatus := pending | confirmed | delivered | canceled.
Inductive OrderType := ready | custom.

(** [?:] fields are options: [None] is [undefined]. *)
Record Order := mkOrder {
  Order_id : string;
  Order_type : OrderType;
  Order_sizeKg : number;
  Order_flavorName : string;
  Order_doughColor : string;
  Order_price : number;
  Order_clientId : option string;
  Order_clientName : option string;
  Order_clientPhone : option string;
  Order_deliveryDate : option string;
  Order_status : OrderStatus;
  Order_createdAt : string;
  Order_notes : option string;
  Order_decorated : option bool;
  Order_decoratedSurcharge : option number;
}.

Inductive StoreName := flavors | clients | orders.

Definition StoreMap (K : StoreName) : Type :=
  match K with
  | flavors => Flavor
  | clients => Client
  | orders => Order
  end.

#[global] Instance StoreName_eq_dec : EqDecision StoreName.
Proof. solve_decision. Defined.

Definition DECORATED_SURCHARGE : number := 60%Z.

Definition defaultFlavors : list Flavor :=
  [ mkFlavor "Chocolate" 50%Z; mkFlavor "Baunilha" 45%Z;
    mkFlavor "Morango" 55%Z; mkFlavor "Limão" 40%Z ].

(** ** The browser *)

(** What the module-level feature tests see, and how the ambient objects
    behave when used. *)
Inductive ChannelSupport :=
| NoBroadcastChannel      (* 'BroadcastChannel' in window is false *)
| ChannelWorks
| ConstructorThrows       (* new BroadcastChannel(..) throws *)
| PostMessageThrows       (* bc.postMessage(..) throws *)
| CloseThrows.            (* bc.close() throws, after the message went out *)

Record Env := mkEnv {
  isBrowser : bool;              (* typeof window !== 'undefined' *)
  indexedDBDefined : bool;       (* typeof window.indexedDB !== 'undefined' *)
  idbOpenFails : bool;           (* indexedDB.open fires onerror *)
  channel : ChannelSupport;
  confirmAnswer : bool;          (* what the user answers to confirm(..) *)
}.

Definition hasIndexedDB (env : Env) : bool :=
  isBrowser env && indexedDBDefined env.

(** The text under a localStorage key, classified by what [JSON.parse] makes
    of it.  [JSON.parse] and [JSON.stringify] are the platform's; the
    repository only relies on: the empty string is falsy, some texts make
    [JSON.parse] throw, some parse to a value that is not an array, and the
    text written by [JSON.stringify(items)] parses back to [items].  The
    items of an array are taken at the record type the code casts them to
    ([parsed as StoreMap[K][]]).  [textOf] below gives the class of a raw
    string. *)
Inductive StoredText (A : Type) : Type :=
| EmptyText
| Unparsable
| NonArrayJson
| ArrayJson (items : list A).
Arguments EmptyText {A}.
Arguments Unparsable {A}.
Arguments NonArrayJson {A}.
Arguments ArrayJson {A} items.

Inductive Parsed (A : Type) : Type :=
| NotAnArray
| AnArray (items : list A).
Arguments NotAnArray {A}.
Arguments AnArray {A} items.

(** One serialized collection per record kind, under the keys of [lsKeys]. *)
Record LocalStorage := mkLocalStorage {
  cakeFlavors : option (StoredText Flavor);
  cakeClients : option (StoredText Client);
  cakeOrders : option (StoredText Order);
}.

Definition lsKeys (store : StoreName) : string :=
  match store with
  | flavors => "cakeFlavors"
  | clients => "cakeClients"
  | orders => "cakeOrders"
  end.

Definition getItem (ls : LocalStorage) (store : StoreName)
  : option (StoredText (StoreMap store)) :=
  match store with
  | flavors => cakeFlavors ls
  | clients => cakeClients ls
  | orders => cakeOrders ls
  end.

Definition writeItem (store : StoreName)
  : option (StoredText (StoreMap store)) → LocalStorage → LocalStorage :=
  match store with
  | flavors => λ v ls, mkLocalStorage v (cakeClients ls) (cakeOrders ls)
  | clients => λ v ls, mkLocalStorage (cakeFlavors ls) v (cakeOrders ls)
  | orders => λ v ls, mkLocalStorage (cakeFlavors ls) (cakeClients ls) v
  end.

Definition setItem (store : StoreName) (text : StoredText (StoreMap store))
  : LocalStorage → LocalStorage := writeItem store (Some text).

Definition removeItem (store : StoreName) : LocalStorage → LocalStorage :=
  writeItem store None.

(** The [cakeDB] database after [onupgradeneeded]: three object stores, each
    keyed by its [keyPath]. *)
Record Database := mkDatabase {
  os_flavors : gmap string Flavor;
  os_clients : gmap string Client;
  os_orders : gmap string Order;
}.

Definition objectStore (store : StoreName) (db : Database)
  : gmap string (StoreMap store) :=
  match store with
  | flavors => os_flavors db
  | clients => os_clients db
  | orders => os_orders db
  end.

Definition setObjectStore (store : StoreName)
  : gmap string (StoreMap store) → Database → Database :=
  match store with
  | flavors => λ m db, mkDatabase m (os_clients db) (os_orders db)
  | clients => λ m db, mkDatabase (os_flavors db) m (os_orders db)
  | orders => λ m db, mkDatabase (os_flavors db) (os_clients db) m
  end.

(** createObjectStore('flavors', { keyPath: 'name' }), and 'id' for the
    other two. *)
Definition keyPath (store : StoreName) : StoreMap store → string :=
  match store with
  | flavors => Flavor_name
  | clients => Client_id
  | orders => Order_id
  end.

(** [{ type: 'orders_changed', id }] on the [cake_sync] channel. *)
Record Message := mkMessage {
  msg_type : string;
  msg_id : string;
}.

(** What other contexts and the disk can observe, in the order it happened. *)
Inductive Event :=
| TxComplete (store : StoreName)       (* a readwrite transaction committed *)
| SetItem (key : string)
| RemoveItem (key : string)
| Posted (m : Message).

Inductive Toast :=
| success (text : string)
| error (text : string).

(** React state of the order-entry page that the storage code writes. *)
Record HomeView := mkHomeView {
  home_flavors : list Flavor;
  home_clients : list Client;
  home_message : option Toast;
  home_initializing : bool;
  home_saving : bool;
}.

(** React state of the delivery dashboard. *)
Record DashboardView := mkDashboardView {
  dash_orders : list Order;
  dash_loading : bool;
  dash_saving : bool;
  dash_message : option Toast;
}.

Record World := mkWorld {
  localStorage : LocalStorage;
  cakeDB : Database;
  trace : list Event;
  home : HomeView;
  dashboard : DashboardView;
}.

Definition withLocalStorage (f : LocalStorage → LocalStorage) (w : World) : World :=
  mkWorld (f (localStorage w)) (cakeDB w) (trace w) (home w) (dashboard w).
Definition withCakeDB (f : Database → Database) (w : World) : World :=
  mkWorld (localStorage w) (f (cakeDB w)) (trace w) (home w) (dashboard w).
Definition emit (e : Event) (w : World) : World :=
  mkWorld (localStorage w) (cakeDB w) (trace w ++ [e]) (home w) (dashboard w).
Definition withHome (f : HomeView → HomeView) (w : World) : World :=
  mkWorld (localStorage w) (cakeDB w) (trace w) (f (home w)) (dashboard w).
Definition withDashboard (f : DashboardView → DashboardView) (w : World) : World :=
  mkWorld (localStorage w) (cakeDB w) (trace w) (home w) (f (dashboard w)).

(** ** Computations *)

Inductive Error :=
| IndexedDBUnsupported     (* new Error('IndexedDB não suportado ...') *)
| OpenFailed               (* request.error of indexedDB.open *)
| SyntaxError              (* JSON.parse *)
| ChannelError.            (* anything a BroadcastChannel call throws *)

Inductive Completion (A : Type) : Type :=
| Normal (a : A)
| Throw (e : Error).
Arguments Normal {A} a.
Arguments Throw {A} e.

Definition JS (A : Type) : Type := World → Completion A * World.

Definition ret {A} (a : A) : JS A := λ w, (Normal a, w).
Definition throw {A} (e : Error) : JS A := λ w, (Throw e, w).
Definition bind {A B} (m : JS A) (k : A → JS B) : JS B :=
  λ w, match m w with
       | (Normal a, w') => k a w'
       | (Throw e, w') => (Throw e, w')
       end.

#[global] Instance JS_ret : MRet JS := @ret.
#[global] Instance JS_bind : MBind JS := λ A B k m, bind m k.

(** try { body } catch { handler } *)
Definition tryCatch {A} (body : JS A) (handler : Error → JS A) : JS A :=
  λ w, match body w with
       | (Normal a, w') => (Normal a, w')
       | (Throw e, w') => handler e w'
       end.

(** try { body } finally { fin } *)
Definition tryFinally {A} (body : JS A) (fin : JS unit) : JS A :=
  λ w, match body w with
       | (r, w') =>
           match fin w' with
           | (Normal _, w'') => (r, w'')
           | (Throw e, w'') => (Throw e, w'')
           end
       end.

Definition get : JS World := λ w, (Normal w, w).
Definition modify (f : World → World) : JS unit := λ w, (Normal tt, f w).
Definition lift {A} (c : Completion A) : JS A := λ w, (c, w).
Definition when (b : bool) (m : JS unit) : JS unit := if b then m else ret tt.

Definition result {A} (m : JS A) (w : World) : Completion A := (m w).1.
Definition after {A} (m : JS A) (w : World) : World := (m w).2.

(** ** Platform calls *)

Definition falsy {A} (raw : StoredText A) : bool :=
  match raw with EmptyText => true | _ => false end.

Definition JSON_parse {A} (raw : StoredText A) : Completion (Parsed A) :=
  match raw with
  | EmptyText | Unparsable => Throw SyntaxError
  | NonArrayJson => Normal NotAnArray
  | ArrayJson items => Normal (AnArray items)
  end.

Definition JSON_stringify {A} (items : list A) : StoredText A := ArrayJson items.

(** The class of a raw string, for any function [parse] standing for the
    platform's [JSON.parse] on it. *)
Definition textOf {A} (parse : string → Completion (Parsed A)) (raw : string)
  : StoredText A :=
  if bool_decide (raw = "") then EmptyText
  else match parse raw with
       | Throw _ => Unparsable
       | Normal NotAnArray => NonArrayJson
       | Normal (AnArray items) => ArrayJson items
       end.

(** The world in which the key of [store] holds the raw string [raw], or is
    absent. *)
Definition holding (store : StoreName)
    (parse : string → Completion (Parsed (StoreMap store))) (raw : option string)
    (w : World) : World :=
  withLocalStorage (writeItem store (textOf parse <$> raw)) w.

Definition localStorage_getItem (store : StoreName)
  : JS (option (StoredText (StoreMap store))) :=
  w ← get; ret (getItem (localStorage w) store).

Definition localStorage_setItem (store : StoreName)
    (text : StoredText (StoreMap store)) : JS unit :=
  modify (λ w, emit (SetItem (lsKeys store)) (withLocalStorage (setItem store text) w)).

Definition localStorage_removeItem (store : StoreName) : JS unit :=
  modify (λ w, emit (RemoveItem (lsKeys store)) (withLocalStorage (removeItem store) w)).

(** Array.prototype.findIndex; [None] is -1. *)
Fixpoint findIndex {A} (p : A → bool) (l : list A) : option nat :=
  match l with
  | [] => None
  | x :: l' => if p x then Some 0 else S <$> findIndex p l'
  end.

(** [x || undefined] on a string: the empty string is falsy. *)
Definition orUndefined (s : string) : option string :=
  if bool_decide (s = "") then None else Some s.

(** BroadcastChannel, as [channel env] says it behaves. *)
Definition hasBroadcastChannel (env : Env) : bool :=
  match channel env with NoBroadcastChannel => false | _ => true end.

Definition new_BroadcastChannel (env : Env) : JS unit :=
  match channel env with ConstructorThrows => throw ChannelError | _ => ret tt end.

Definition bc_postMessage (env : Env) (m : Message) : JS unit :=
  match channel env with
  | PostMessageThrows => throw ChannelError
  | _ => modify (emit (Posted m))
  end.

Definition bc_close (env : Env) : JS unit :=
  match channel env with CloseThrows => throw ChannelError | _ => ret tt end.

(** One readwrite transaction on an object store running [f], then
    [tx.oncomplete]. *)
Definition transaction (storeName : StoreName)
    (f : gmap string (StoreMap storeName) → gmap string (StoreMap storeName))
  : JS unit :=
  modify (λ w, emit (TxComplete storeName)
    (withCakeDB (λ db, setObjectStore storeName (f (objectStore storeName db)) db) w)).

(** IDBObjectStore.put on a store with a key path: insert or overwrite. *)
Definition store_put (storeName : StoreName) (value : StoreMap storeName)
    (m : gmap string (StoreMap storeName)) : gmap string (StoreMap storeName) :=
  <[keyPath storeName value := value]> m.

(** IDBObjectStore.getAll. *)
Definition store_getAll (storeName : StoreName) (db : Database)
  : list (StoreMap storeName) :=
  (map_to_list (objectStore storeName db)).*2.

(** ** The order-entry page: IndexedDB helper, fallback and [storage] *)

Module Home.
Section WithEnv.
Variable env : Env.

(** The open request is made once and its promise kept in [dbPromise];
    whether it succeeds is fixed by the environment. *)
Definition getDB : JS unit :=
  if negb (hasIndexedDB env) then throw IndexedDBUnsupported
  else if idbOpenFails env then throw OpenFailed
  else ret tt.

Definition idbGetAll (storeName : StoreName) : JS (list (StoreMap storeName)) :=
  _ ← getDB;
  w ← get;
  ret (store_getAll storeName (cakeDB w)).

Definition idbPut (storeName : StoreName) (value : StoreMap storeName) : JS unit :=
  _ ← getDB;
  transaction storeName (store_put storeName value).

Definition idbBulkPut (storeName : StoreName) (values : list (StoreMap storeName))
  : JS unit :=
  _ ← getDB;
  transaction storeName (λ m, foldl (λ m v, store_put storeName v m) m values).

Definition idbDelete (storeName : StoreName) (key : string) : JS unit :=
  _ ← getDB;
  transaction storeName (delete key).

Definition getKeyValue (store : StoreName) : StoreMap store → string :=
  match store with
  | flavors => Flavor_name
  | clients => Client_id
  | orders => Order_id
  end.

Definition readFromLocalStorage (store : StoreName) : JS (list (StoreMap store)) :=
  if negb (isBrowser env) then ret []
  else
    raw ← localStorage_getItem store;
    match raw with
    | None => ret []
    | Some raw =>
        if falsy raw then ret []
        else
          tryCatch
            (parsed ← lift (JSON_parse raw);
             match parsed with
             | AnArray items => ret items
             | NotAnArray => ret []
             end)
            (λ _, ret [])
    end.

Definition storage_getAll (store : StoreName) : JS (list (StoreMap store)) :=
  if hasIndexedDB env then idbGetAll store
  else readFromLocalStorage store.

Definition storage_bulkPut (store : StoreName) (values : list (StoreMap store))
  : JS unit :=
  if hasIndexedDB env then idbBulkPut store values
  else if negb (isBrowser env) then ret tt
  else localStorage_setItem store (JSON_stringify values).

Definition storage_put (store : StoreName) (value : StoreMap store) : JS unit :=
  if hasIndexedDB env then idbPut store value
  else if negb (isBrowser env) then ret tt
  else
    current ← readFromLocalStorage store;
    let idx :=
      findIndex (λ x, bool_decide (getKeyValue store x = getKeyValue store value))
        current in
    let current :=
      match idx with
      | Some idx => <[idx := value]> current
      | None => current ++ [value]
      end in
    localStorage_setItem store (JSON_stringify current).

Definition storage_delete (store : StoreName) (key : string) : JS unit :=
  if hasIndexedDB env then idbDelete store key
  else if negb (isBrowser env) then ret tt
  else
    current ← readFromLocalStorage store;
    let next := filter (λ x, getKeyValue store x ≠ key) current in
    localStorage_setItem store (JSON_stringify next).

(** *** React setters used by the storage code *)

Definition setFlavors (f : list Flavor → list Flavor) : JS unit :=
  modify (withHome (λ h, mkHomeView (f (home_flavors h)) (home_clients h)
    (home_message h) (home_initializing h) (home_saving h))).
Definition setClients (f : list Client → list Client) : JS unit :=
  modify (withHome (λ h, mkHomeView (home_flavors h) (f (home_clients h))
    (home_message h) (home_initializing h) (home_saving h))).
Definition setMessage (m : option Toast) : JS unit :=
  modify (withHome (λ h, mkHomeView (home_flavors h) (home_clients h)
    m (home_initializing h) (home_saving h))).
Definition setInitializing (b : bool) : JS unit :=
  modify (withHome (λ h, mkHomeView (home_flavors h) (home_clients h)
    (home_message h) b (home_saving h))).
Definition setSaving (b : bool) : JS unit :=
  modify (withHome (λ h, mkHomeView (home_flavors h) (home_clients h)
    (home_message h) (home_initializing h) b)).

(** *** Start-up: load, migrate from localStorage, seed *)

(** [ignore] is the flag the effect's cleanup sets on unmount.  Inside each
    inner [try] the calls that can throw come before the assignment to
    [storedFlavors] (or [storedClients]), so the [catch] leaves the variable
    as it was. *)
Definition init (ignore : bool) : JS unit :=
  tryFinally
    (tryCatch
       (storedFlavors ← storage_getAll flavors;
        storedFlavors ←
          (if hasIndexedDB env && (length storedFlavors =? 0)%nat then
             localRaw ← localStorage_getItem flavors;
             match localRaw with
             | None => ret storedFlavors
             | Some raw =>
                 if falsy raw then ret storedFlavors
                 else
                   tryCatch
                     (parsed ← lift (JSON_parse raw);
                      storedFlavors' ←
                        match parsed with
                        | AnArray items =>
                            if (0 <? length items)%nat then
                              _ ← storage_bulkPut flavors items; ret items
                            else ret storedFlavors
                        | NotAnArray => ret storedFlavors
                        end;
                      _ ← localStorage_removeItem flavors;
                      ret storedFlavors')
                     (λ _, ret storedFlavors)
             end
           else ret storedFlavors);
        storedFlavors ←
          (if (length storedFlavors =? 0)%nat then
             _ ← storage_bulkPut flavors defaultFlavors; ret defaultFlavors
           else ret storedFlavors);
        _ ← when (negb ignore) (setFlavors (λ _, storedFlavors));
        storedClients ← storage_getAll clients;
        storedClients ←
          (if hasIndexedDB env && (length storedClients =? 0)%nat then
             localRaw ← localStorage_getItem clients;
             match localRaw with
             | None => ret storedClients
             | Some raw =>
                 if falsy raw then ret storedClients
                 else
                   tryCatch
                     (parsed ← lift (JSON_parse raw);
                      storedClients' ←
                        match parsed with
                        | AnArray items =>
                            if (0 <? length items)%nat then
                              _ ← storage_bulkPut clients items; ret items
                            else ret storedClients
                        | NotAnArray => ret storedClients
                        end;
                      _ ← localStorage_removeItem clients;
                      ret storedClients')
                     (λ _, ret storedClients)
             end
           else ret storedClients);
        when (negb ignore) (setClients (λ _, storedClients)))
       (λ _, when (negb ignore)
               (setMessage (Some (error "Falha ao carregar dados locais.")))))
    (when (negb ignore) (setInitializing false)).

(** *** Saving an order *)

(** The form state [saveOrder] reads, and the two values it takes from the
    clock and the random generator: the fresh [id] and [createdAt]. *)
Record OrderForm := mkOrderForm {
  orderType : OrderType;
  kg : number;
  flavor : string;
  doughColor : string;
  price : number;
  selectedClientId : string;
  clientName : string;
  clientPhone : string;
  deliveryDate : string;
  notes : string;
  decorated : bool;
}.

(** String.prototype.trim is the platform's. *)
Variable trim : string → string.

Definition buildOrder (form : OrderForm) (id createdAt : string) : Order :=
  {| Order_id := id;
     Order_type := orderType form;
     Order_sizeKg := kg form;
     Order_flavorName := flavor form;
     Order_doughColor := doughColor form;
     Order_price := price form;
     Order_clientId := orUndefined (selectedClientId form);
     Order_clientName := orUndefined (clientName form);
     Order_clientPhone := orUndefined (clientPhone form);
     Order_deliveryDate :=
       match orderType form with custom => Some (deliveryDate form) | ready => None end;
     Order_status := pending;
     Order_createdAt := createdAt;
     Order_notes := orUndefined (trim (notes form));
     Order_decorated := if decorated form then Some true else None;
     Order_decoratedSurcharge :=
       if decorated form then Some DECORATED_SURCHARGE else None |}.

Definition saveOrder (form : OrderForm) (id createdAt : string) : JS Order :=
  let order := buildOrder form id createdAt in
  _ ← storage_put orders order;
  _ ← tryCatch
        (if isBrowser env && hasBroadcastChannel env then
           _ ← new_BroadcastChannel env;
           _ ← bc_postMessage env (mkMessage "orders_changed" (Order_id order));
           bc_close env
         else ret tt)
        (λ _, ret tt);
  ret order.

Definition handleRemoveClient (clientId : string) : JS unit :=
  tryFinally
    (tryCatch
       (_ ← setSaving true;
        _ ← storage_delete clients clientId;
        setClients (filter (λ c, Client_id c ≠ clientId)))
       (λ _, setMessage (Some (error "Não foi possível remover o cliente."))))
    (setSaving false).

End WithEnv.
End Home.

(** ** The delivery dashboard *)

Module Deliveries.

(** The kinds of the database, before this page's own [StoreName] hides
    them. *)
Definition Kind : Type := StoreName.
Definition ordersKind : Kind := orders.

(** type StoreName = 'orders'; type StoreMap = { orders: Order }.  The page
    declares [Order] without the note and decoration fields; the records are
    the ones the order-entry page stores. *)
Inductive StoreName := orders.
Definition StoreMap (K : StoreName) : Type := Order.

Definition lsKeys (store : StoreName) : string :=
  match store with orders => "cakeOrders" end.

Definition withStatus (o : Order) (status : OrderStatus) : Order :=
  mkOrder (Order_id o) (Order_type o) (Order_sizeKg o) (Order_flavorName o)
    (Order_doughColor o) (Order_price o) (Order_clientId o) (Order_clientName o)
    (Order_clientPhone o) (Order_deliveryDate o) status (Order_createdAt o)
    (Order_notes o) (Order_decorated o) (Order_decoratedSurcharge o).

Definition withDeliveryDate (o : Order) (d : option string) : Order :=
  mkOrder (Order_id o) (Order_type o) (Order_sizeKg o) (Order_flavorName o)
    (Order_doughColor o) (Order_price o) (Order_clientId o) (Order_clientName o)
    (Order_clientPhone o) d (Order_status o) (Order_createdAt o)
    (Order_notes o) (Order_decorated o) (Order_decoratedSurcharge o).

Section WithEnv.
Variable env : Env.

Definition getDB : JS unit :=
  if negb (hasIndexedDB env) then throw IndexedDBUnsupported
  else if idbOpenFails env then throw OpenFailed
  else ret tt.

Definition idbGetAll (storeName : StoreName) : JS (list (StoreMap storeName)) :=
  _ ← getDB;
  w ← get;
  ret (store_getAll ordersKind (cakeDB w)).

Definition idbPut (storeName : StoreName) (value : StoreMap storeName) : JS unit :=
  _ ← getDB;
  transaction ordersKind (store_put ordersKind value).

Definition idbDelete (storeName : StoreName) (key : string) : JS unit :=
  _ ← getDB;
  transaction ordersKind (delete key).

Definition readFromLocalStorage (store : StoreName) : JS (list (StoreMap store)) :=
  if negb (isBrowser env) then ret []
  else
    raw ← localStorage_getItem ordersKind;
    match raw with
    | None => ret []
    | Some raw =>
        if falsy raw then ret []
        else
          tryCatch
            (parsed ← lift (JSON_parse raw);
             match parsed with
             | AnArray items => ret items
             | NotAnArray => ret []
             end)
            (λ _, ret [])
    end.

Definition storageGetAll (store : StoreName) : JS (list (StoreMap store)) :=
  if hasIndexedDB env then idbGetAll store
  else readFromLocalStorage store.

Definition storagePut (store : StoreName) (value : StoreMap store) : JS unit :=
  if hasIndexedDB env then idbPut store value
  else if negb (isBrowser env) then ret tt
  else
    current ← readFromLocalStorage store;
    let current :=
      match findIndex (λ x, bool_decide (Order_id x = Order_id value)) current with
      | Some idx => <[idx := (value : Order)]> current
      | None => current ++ [(value : Order)]
      end in
    _ ← localStorage_setItem ordersKind (JSON_stringify current);
    tryCatch
      (if hasBroadcastChannel env then
         _ ← new_BroadcastChannel env;
         _ ← bc_postMessage env (mkMessage "orders_changed" (Order_id value));
         bc_close env
       else ret tt)
      (λ _, ret tt).

Definition storageDelete (store : StoreName) (key : string) : JS unit :=
  if hasIndexedDB env then idbDelete store key
  else if negb (isBrowser env) then ret tt
  else
    current ← readFromLocalStorage store;
    let next := filter (λ x, Order_id x ≠ key) current in
    _ ← localStorage_setItem ordersKind (JSON_stringify next);
    tryCatch
      (if hasBroadcastChannel env then
         _ ← new_BroadcastChannel env;
         _ ← bc_postMessage env (mkMessage "orders_changed" key);
         bc_close env
       else ret tt)
      (λ _, ret tt).

Definition setOrders (f : list Order → list Order) : JS unit :=
  modify (withDashboard (λ d, mkDashboardView (f (dash_orders d)) (dash_loading d)
    (dash_saving d) (dash_message d))).
Definition setLoading (b : bool) : JS unit :=
  modify (withDashboard (λ d, mkDashboardView (dash_orders d) b
    (dash_saving d) (dash_message d))).
Definition setSaving (b : bool) : JS unit :=
  modify (withDashboard (λ d, mkDashboardView (dash_orders d) (dash_loading d)
    b (dash_message d))).
Definition setMessage (m : option Toast) : JS unit :=
  modify (withDashboard (λ d, mkDashboardView (dash_orders d) (dash_loading d)
    (dash_saving d) m)).

Definition load (ignore : bool) : JS unit :=
  _ ← setLoading true;
  tryFinally
    (tryCatch
       (all ← storageGetAll orders;
        when (negb ignore) (setOrders (λ _, all)))
       (λ _, when (negb ignore)
               (setMessage (Some (error "Falha ao carregar pedidos.")))))
    (when (negb ignore) (setLoading false)).

Definition updateStatus (id : string) (status : OrderStatus) : JS unit :=
  tryFinally
    (tryCatch
       (_ ← setSaving true;
        w ← get;
        match List.find (λ x, bool_decide (Order_id x = id)) (dash_orders (dashboard w)) with
        | None => ret tt
        | Some o =>
            let updated := withStatus o status in
            _ ← storagePut orders updated;
            _ ← setOrders (map (λ x, if bool_decide (Order_id x = id) then updated else x));
            setMessage (Some (success "Status atualizado."))
        end)
       (λ _, setMessage (Some (error "Falha ao atualizar status."))))
    (setSaving false).

Definition updateDate (id : string) (newDate : string) : JS unit :=
  tryFinally
    (tryCatch
       (_ ← setSaving true;
        w ← get;
        match List.find (λ x, bool_decide (Order_id x = id)) (dash_orders (dashboard w)) with
        | None => ret tt
        | Some o =>
            let updated := withDeliveryDate o (orUndefined newDate) in
            _ ← storagePut orders updated;
            _ ← setOrders (map (λ x, if bool_decide (Order_id x = id) then updated else x));
            setMessage (Some (success "Data atualizada."))
        end)
       (λ _, setMessage (Some (error "Falha ao atualizar data."))))
    (setSaving false).

Definition removeOrder (id : string) : JS unit :=
  if negb (confirmAnswer env) then ret tt
  else
    tryFinally
      (tryCatch
         (_ ← setSaving true;
          _ ← idbDelete orders id;
          _ ← setOrders (filter (λ x, Order_id x ≠ id));
          setMessage (Some (success "Pedido removido.")))
         (λ _, setMessage (Some (error "Falha ao remover."))))
      (setSaving false).

End WithEnv.
End Deliveries.

(** * Properties *)

(** ** Reading the definitions *)

Ltac js_unfold :=
  unfold mbind, mret, JS_bind, JS_ret, bind, ret, throw, get, modify, lift,
    when, tryCatch, tryFinally, result, after in *.

(** The collection a localStorage cell stands for. *)
Definition stored (store : StoreName) (ls : LocalStorage) : list (StoreMap store) :=
  match getItem ls store with
  | Some (ArrayJson items) => items
  | _ => []
  end.

(** The array [storage.put] writes back on the fallback:
    [if (idx >= 0) current[idx] = value; else current.push(value)]. *)
Definition upsert (store : StoreName) (value : StoreMap store)
    (current : list (StoreMap store)) : list (StoreMap store) :=
  match findIndex (λ x, bool_decide (Home.getKeyValue store x = Home.getKeyValue store value))
                  current with
  | Some idx => <[idx := value]> current
  | None => current ++ [value]
  end.

(** The block [init] runs for flavors and again for clients, guarded by
    [hasIndexedDB && stored.length === 0]: copy the localStorage collection
    of [store] into IndexedDB and remove it.  The result is the new value of
    the local variable [stored]. *)
Definition migrate (env : Env) (store : StoreName) (stored : list (StoreMap store))
  : JS (list (StoreMap store)) :=
  if hasIndexedDB env && (length stored =? 0)%nat then
    localRaw ← localStorage_getItem store;
    match localRaw with
    | None => ret stored
    | Some raw =>
        if falsy raw then ret stored
        else
          tryCatch
            (parsed ← lift (JSON_parse raw);
             stored' ← match parsed with
                       | AnArray items =>
                           if (0 <? length items)%nat then
                             _ ← Home.storage_bulkPut env store items; ret items
                           else ret stored
                       | NotAnArray => ret stored
                       end;
             _ ← localStorage_removeItem store;
             ret stored')
            (λ _, ret stored)
    end
  else ret stored.

(** How many records of a collection carry the key [k]. *)
Definition keyCount (store : StoreName) (k : string) (l : list (StoreMap store)) : nat :=
  length (filter (λ x, Home.getKeyValue store x = k) l).


(** The engine's invariant on a store with a key path: a record sits under
    the key its key path extracts. *)
Definition wfDatabase (db : Database) : Prop :=
  ∀ store i (x : StoreMap store),
    objectStore store db !! i = Some x → keyPath store x = i.

(** What a step on one kind leaves alone: everything of the other kinds, and
    the two pages. *)
Definition framed (store : StoreName) (w w' : World) : Prop :=
  (∀ store', store' ≠ store →
     objectStore store' (cakeDB w') = objectStore store' (cakeDB w)
     ∧ getItem (localStorage w') store' = getItem (localStorage w) store')
  ∧ home w' = home w ∧ dashboard w' = dashboard w.

(** Sample environments and worlds for the examples. *)
Definition flatEnv : Env := mkEnv true false false ChannelWorks true.
Definition idbEnv : Env := mkEnv true true false ChannelWorks true.

Definition freshHome : HomeView := mkHomeView [] [] None true false.
Definition freshDashboard : DashboardView := mkDashboardView [] true false None.
Definition emptyWorld : World :=
  mkWorld (mkLocalStorage None None None) (mkDatabase ∅ ∅ ∅) []
    freshHome freshDashboard.

(** Whether a message handed to the channel reaches it: the constructor and
    postMessage must not throw. *)
Definition channelDelivers (c : ChannelSupport) : bool :=
  match c with
  | ChannelWorks | CloseThrows => true
  | NoBroadcastChannel | ConstructorThrows | PostMessageThrows => false
  end.

(** A world whose fallback holds [seed] as its flavors and nothing else. *)
Definition seededWorld (seed : list Flavor) : World :=
  withLocalStorage (setItem flavors (JSON_stringify seed)) emptyWorld.

(** A world on the fallback with one customer and one order of hers. *)
Definition shopWorld : World :=
  mkWorld
    (mkLocalStorage None (Some (JSON_stringify [mkClient "c1" "Maria" "11999990000"]))
       (Some (JSON_stringify
          [mkOrder "o1" custom 2%Z "Chocolate" "Branco" 100%Z (Some "c1") (Some "Maria")
             (Some "11999990000") (Some "2025-01-31") pending "2025-01-01T10:00:00.000Z"
             None None None])))
    (mkDatabase ∅ ∅ ∅) [] freshHome freshDashboard.

Definition chocolate50 : Flavor := mkFlavor "Chocolate" 50%Z.
Definition chocolate99 : Flavor := mkFlavor "chocolate" 99%Z.
Definition maria : Client := mkClient "c1" "Maria" "11999990000".
Definition mariasCake : Order :=
  mkOrder "o1" custom 2%Z "Chocolate" "Branco" 100%Z (Some "c1") (Some "Maria")
    (Some "11999990000") (Some "2025-01-31") pending "2025-01-01T10:00:00.000Z"
    None None None.

(** ** Vocabulary for the further properties *)

(** A write a page can ask of [storage] on one kind. *)
Inductive StorageOp (store : StoreName) : Type :=
| OpPut (value : StoreMap store)
| OpDelete (key : string).
Arguments OpPut {store} value.
Arguments OpDelete {store} key.

Definition runOp (env : Env) (store : StoreName) (op : StorageOp store) : JS unit :=
  match op with
  | OpPut value => Home.storage_put env store value
  | OpDelete key => Home.storage_delete env store key
  end.

(** The operations one after the other, each awaited. *)
Fixpoint runOps (env : Env) (store : StoreName) (ops : list (StorageOp store))
  : JS unit :=
  match ops with
  | [] => ret tt
  | op :: rest => _ ← runOp env store op; runOps env store rest
  end.

(** A fallback collection and an object store hold the same records: the
    collection has one record per key, and the object store maps each key to
    the record of the collection that carries it. *)
Definition corresponds (store : StoreName) (l : list (StoreMap store))
    (m : gmap string (StoreMap store)) : Prop :=
  NoDup (Home.getKeyValue store <$> l)
  ∧ ∀ k v, m !! k = Some v ↔ v ∈ l ∧ Home.getKeyValue store v = k.

(** The messages of a trace. *)
Definition posted (t : list Event) : list Message :=
  omap (λ e, match e with Posted m => Some m | _ => None end) t.

Definition sampleOps : list (StorageOp flavors) :=
  [ @OpPut flavors (mkFlavor "Chocolate" 50%Z); @OpPut flavors (mkFlavor "chocolate" 99%Z);
    @OpDelete flavors "Chocolate"; @OpPut flavors (mkFlavor "Chocolate" 50%Z) ].

(** A filled order form, for the examples. *)
Definition sampleForm : Home.OrderForm :=
  Home.mkOrderForm custom 2%Z "Chocolate" "Branco" 100%Z "c1" "Maria" "11999990000"
    "2025-01-31" "" false.

(** A computation that leaves an observation of the world as it was. *)
Definition preserves {A B} (obs : World → B) (m : JS A) : Prop :=
  ∀ w, obs (after m w) = obs w.

(** What [init]'s migration block leaves under the key of a kind whose stored
    collection it did not copy: a text that parsed is removed, anything else
    stays. *)
Definition afterCleanup {A} (cell : option (StoredText A)) : option (StoredText A) :=
  match cell with
  | Some NonArrayJson | Some (ArrayJson _) => None
  | Some EmptyText | Some Unparsable | None => cell
  end.

(** The dashboard's list mirrors the stored orders: on IndexedDB the list and
    the object store hold the same records; on the fallback the list is the
    stored collection, one order per id. *)
Definition inSync (env : Env) (w : World) : Prop :=
  if hasIndexedDB env then
    corresponds orders (dash_orders (dashboard w)) (objectStore orders (cakeDB w))
  else
    NoDup (Order_id <$> dash_orders (dashboard w))
    ∧ dash_orders (dashboard w) = stored orders (localStorage w).

(** A world whose dashboard lists the one stored order of [shopWorld]. *)
Definition dashboardWorld : World :=
  withDashboard (λ d, mkDashboardView (stored orders (localStorage shopWorld))
                        (dash_loading d) (dash_saving d) (dash_message d)) shopWorld.

(** The shape [updateStatus] and [updateDate] share: look the order up in the
    list of the page, store the changed copy, replace it in the list. *)
Definition updateWith (env : Env) (change : Order → Order) (done failed : string)
    (id : string) : JS unit :=
  tryFinally
    (tryCatch
       (_ ← Deliveries.setSaving true;
        w ← get;
        match List.find (λ x, bool_decide (Order_id x = id)) (dash_orders (dashboard w)) with
        | None => ret tt
        | Some o =>
            let updated := change o in
            _ ← Deliveries.storagePut env Deliveries.orders updated;
            _ ← Deliveries.setOrders
                  (map (λ x, if bool_decide (Order_id x = id) then updated else x));
            Deliveries.setMessage (Some (success done))
        end)
       (λ _, Deliveries.setMessage (Some (error failed))))
    (Deliveries.setSaving false).

(** ** The dashboard's channel listener *)

(** The listener the dashboard's effect installs on the [cake_sync] channel
    next to its first [load].  [ignore] is the effect's flag, raised by its
    cleanup. *)
Module Listeners.
Section WithEnv.
Variable env : Env.
Variable ignore : bool.

Definition onmessage (ev : Message) : JS unit :=
  if bool_decide (msg_type ev = "orders_changed") then Deliveries.load env ignore
  else ret tt.

End WithEnv.
End Listeners.

(** What a run added to the trace. *)
Definition news (w w' : World) : list Event := drop (length (trace w)) (trace w').

(** ** Visual helpers of the order-entry page *)

(** A JS string is the sequence of its code units.  The helpers below only
    test for and produce ASCII characters; every other unit is dropped by
    [formatPhone], whatever its encoding. *)

(** [\D] matches anything but the ten ASCII digits. *)
Definition isDigit (c : Ascii.ascii) : bool :=
  (48 <=? Ascii.nat_of_ascii c)%nat && (Ascii.nat_of_ascii c <=? 57)%nat.

(** [input.replace(/\D/g, '')] *)
Fixpoint replace_nonDigits (input : string) : string :=
  match input with
  | EmptyString => EmptyString
  | String c rest =>
      if isDigit c then String c (replace_nonDigits rest) else replace_nonDigits rest
  end.

(** [s.slice(start, end)] and [s.slice(start)] for indices that are not
    negative. *)
Definition slice (start : nat) (end_ : option nat) (s : string) : string :=
  match end_ with
  | Some e => String.substring start (e - start) s
  | None => String.substring start (String.length s - start) s
  end.

Definition formatPhone (input : string) : string :=
  let d := slice 0 (Some 11%nat) (replace_nonDigits input) in
  if (String.length d <=? 2)%nat then d
  else if (String.length d <=? 6)%nat then
    "(" +:+ slice 0 (Some 2%nat) d +:+ ") " +:+ slice 2 None d
  else if (String.length d <=? 10)%nat then
    "(" +:+ slice 0 (Some 2%nat) d +:+ ") " +:+ slice 2 (Some 6%nat) d
      +:+ "-" +:+ slice 6 None d
  else
    "(" +:+ slice 0 (Some 2%nat) d +:+ ") " +:+ slice 2 (Some 7%nat) d
      +:+ "-" +:+ slice 7 None d.

(** ** The dashboard's calendar *)

(** The month grid of the delivery dashboard.  Years, months and days are
    integers; the page only adds and subtracts one and compares them. *)
Module Calendar.

(** [String(n)] for an integer (of magnitude below 10^21): its decimal
    digits, with a minus sign when negative. *)
Definition String_ (n : Z) : string := NilZero.string_of_int (Z.to_int n).

(** [s.padStart(targetLength, padString)]: the pad string repeated and cut
    to fill. *)
Fixpoint repeat_ (s : string) (count : nat) : string :=
  match count with
  | O => EmptyString
  | S count => s +:+ repeat_ s count
  end.

Definition padStart (targetLength : nat) (padString : string) (s : string) : string :=
  let fill := (targetLength - String.length s)%nat in
  String.substring 0 fill (repeat_ padString fill) +:+ s.

(** The local-time fields of a [Date] that the page reads. *)
Record Date := mkDate {
  getFullYear : Z;
  getMonth : Z;          (* 0-11 *)
  getDate : Z;           (* 1-31 *)
}.

Definition ymd (d : Date) : string :=
  let mm := padStart 2 "0" (String_ (getMonth d + 1)) in
  let dd := padStart 2 "0" (String_ (getDate d)) in
  String_ (getFullYear d) +:+ "-" +:+ mm +:+ "-" +:+ dd.

(** The page's [year] and [month] (0-11) state. *)
Record MonthView := mkMonthView {
  year : Z;
  month : Z;
}.

Definition setYear (f : Z → Z) (v : MonthView) : MonthView :=
  mkMonthView (f (year v)) (month v).
Definition setMonth (f : Z → Z) (v : MonthView) : MonthView :=
  mkMonthView (year v) (f (month v)).

Definition prevMonth (v : MonthView) : MonthView :=
  if (month v =? 0)%Z then setMonth (λ _, 11%Z) (setYear (λ y, (y - 1)%Z) v)
  else setMonth (λ m, (m - 1)%Z) v.

Definition nextMonth (v : MonthView) : MonthView :=
  if (month v =? 11)%Z then setMonth (λ _, 0%Z) (setYear (λ y, (y + 1)%Z) v)
  else setMonth (λ m, (m + 1)%Z) v.

(** One cell of the 6x7 grid. *)
Record Cell := mkCell {
  key : string;
  dayNumber : option Z;
  dateStr : option string;
  inMonth : bool;
}.

Definition totalCells : Z := 42.

Section WithDate.
(** [new Date(year, month, day)] is the platform's. *)
Variable new_Date : Z → Z → Z → Date.

(** [leading] is the weekday of the month's first day (0 = Sunday) and
    [daysInMonth] the month's length, both read off [Date] by the page. *)
Definition cells (year month leading daysInMonth : Z) : list Cell :=
  (λ i,
     let dayNum := (i - leading + 1)%Z in
     let inMonth := (1 <=? dayNum)%Z && (dayNum <=? daysInMonth)%Z in
     let date := if inMonth then Some (new_Date year month dayNum) else None in
     {| key := String_ year +:+ "-" +:+ String_ month +:+ "-" +:+ String_ i;
        dayNumber := if inMonth then Some dayNum else None;
        dateStr := ymd <$> date;
        inMonth := inMonth |}) <$> seqZ 0 totalCells.

End WithDate.
End Calendar.

(** The months counted from year 0. *)
Definition monthIndex (v : Calendar.MonthView) : Z :=
  (12 * Calendar.year v + Calendar.month v)%Z.

(** A string of ASCII digits only. *)
Fixpoint allDigits (s : string) : Prop :=
  match s with
  | EmptyString => True
  | String c rest => isDigit c = true ∧ allDigits rest
  end.

(** Reading a decimal numeral back; 0 when it is none. *)
Definition readDecimal (s : string) : Z :=
  match NilZero.int_of_string s with
  | Some d => Z.of_int d
  | None => 0%Z
  end.

(** A date of a four-digit year as [Date] reports it. *)
Definition civil (d : Calendar.Date) : Prop :=
  (1000 ≤ Calendar.getFullYear d ≤ 9999)%Z
  ∧ (0 ≤ Calendar.getMonth d ≤ 11)%Z
  ∧ (1 ≤ Calendar.getDate d ≤ 31)%Z.

(** ** The handlers of the order-entry page *)

(** The handlers behind the page's buttons call [storage] and then update
    the lists on screen and the form.  The form is React state the storage
    code never reads, so it sits beside the [World] in a [Page]; a handler
    is a computation over the page. *)
Module HomePage.

Record FormView := mkFormView {
  orderType : OrderType;
  flavor : string;
  doughColor : string;
  decorated : bool;
  notes : string;
  selectedClientId : string;
  clientName : string;
  clientPhone : string;
  deliveryDate : string;
  newFlavorName : string;
  newFlavorPrice : string;
  showNote : bool;
  currentOrderId : option string;
}.

Record Page := mkPage {
  world : World;
  form : FormView;
}.

Definition Handler (A : Type) : Type := Page → Completion A * Page.

Definition retP {A} (a : A) : Handler A := λ p, (Normal a, p).
Definition bindP {A B} (m : Handler A) (k : A → Handler B) : Handler B :=
  λ p, match m p with
       | (Normal a, p') => k a p'
       | (Throw e, p') => (Throw e, p')
       end.

#[global] Instance Handler_bind : MBind Handler := λ A B k m, bindP m k.

(** try { body } catch { handler } *)
Definition tryCatchP {A} (body : Handler A) (handler : Error → Handler A) : Handler A :=
  λ p, match body p with
       | (Normal a, p') => (Normal a, p')
       | (Throw e, p') => handler e p'
       end.

(** try { body } finally { fin } *)
Definition tryFinallyP {A} (body : Handler A) (fin : Handler unit) : Handler A :=
  λ p, match body p with
       | (r, p') =>
           match fin p' with
           | (Normal _, p'') => (r, p'')
           | (Throw e, p'') => (Throw e, p'')
           end
       end.

(** A computation of the storage layer, run on the page's world. *)
Definition run {A} (m : JS A) : Handler A :=
  λ p, match m (world p) with (r, w) => (r, mkPage w (form p)) end.

Definition getForm : Handler FormView := λ p, (Normal (form p), p).
Definition modifyForm (f : FormView → FormView) : Handler unit :=
  λ p, (Normal tt, mkPage (world p) (f (form p))).

Definition setFlavor (v : string) : Handler unit :=
  modifyForm (λ f, mkFormView (orderType f) v (doughColor f) (decorated f) (notes f)
    (selectedClientId f) (clientName f) (clientPhone f) (deliveryDate f)
    (newFlavorName f) (newFlavorPrice f) (showNote f) (currentOrderId f)).
Definition setSelectedClientId (v : string) : Handler unit :=
  modifyForm (λ f, mkFormView (orderType f) (flavor f) (doughColor f) (decorated f) (notes f)
    v (clientName f) (clientPhone f) (deliveryDate f)
    (newFlavorName f) (newFlavorPrice f) (showNote f) (currentOrderId f)).
Definition setNewFlavorName (v : string) : Handler unit :=
  modifyForm (λ f, mkFormView (orderType f) (flavor f) (doughColor f) (decorated f) (notes f)
    (selectedClientId f) (clientName f) (clientPhone f) (deliveryDate f)
    v (newFlavorPrice f) (showNote f) (currentOrderId f)).
Definition setNewFlavorPrice (v : string) : Handler unit :=
  modifyForm (λ f, mkFormView (orderType f) (flavor f) (doughColor f) (decorated f) (notes f)
    (selectedClientId f) (clientName f) (clientPhone f) (deliveryDate f)
    (newFlavorName f) v (showNote f) (currentOrderId f)).
Definition setShowNote (v : bool) : Handler unit :=
  modifyForm (λ f, mkFormView (orderType f) (flavor f) (doughColor f) (decorated f) (notes f)
    (selectedClientId f) (clientName f) (clientPhone f) (deliveryDate f)
    (newFlavorName f) (newFlavorPrice f) v (currentOrderId f)).
Definition setCurrentOrderId (v : option string) : Handler unit :=
  modifyForm (λ f, mkFormView (orderType f) (flavor f) (doughColor f) (decorated f) (notes f)
    (selectedClientId f) (clientName f) (clientPhone f) (deliveryDate f)
    (newFlavorName f) (newFlavorPrice f) (showNote f) v).

Section WithEnv.
Variable env : Env.

(** String.prototype.trim and toLowerCase are the platform's. *)
Variable trim : string → string.
Variable toLowerCase : string → string.

(** [toNumber] parses what was typed with the platform's [Number]; it gives
    NaN, here [None], for everything that is not a finite number. *)
Variable toNumber : string → option number.

(** The form as [saveOrder] reads it; [kg] and [price] are the page's
    memoized values. *)
Definition orderForm (f : FormView) (kg price : number) : Home.OrderForm :=
  Home.mkOrderForm (orderType f) kg (flavor f) (doughColor f) price
    (selectedClientId f) (clientName f) (clientPhone f) (deliveryDate f)
    (notes f) (decorated f).

(** [isFormValid], [kg] and [price] are memoized values of the render; [id]
    and [createdAt] are what [saveOrder] takes from the random generator
    and the clock. *)
Definition handleGenerateNote (isFormValid : bool) (kg price : number)
    (id createdAt : string) : Handler unit :=
  if negb isFormValid then retP tt
  else
    f ← getForm;
    tryFinallyP
      (tryCatchP
         (_ ← run (Home.setSaving true);
          order ← run (Home.saveOrder env trim (orderForm f kg price) id createdAt);
          _ ← setCurrentOrderId (Some (Order_id order));
          _ ← setShowNote true;
          run (Home.setMessage (Some (success "Pedido salvo e nota gerada."))))
         (λ _, run (Home.setMessage (Some (error "Não foi possível salvar o pedido.")))))
      (run (Home.setSaving false)).

Definition handleAddFlavor : Handler unit :=
  f ← getForm;
  let name := trim (newFlavorName f) in
  match toNumber (newFlavorPrice f) with
  | None => retP tt
  | Some parsedPrice =>
      if bool_decide (name = "") || (parsedPrice <=? 0)%Z then retP tt
      else
        tryFinallyP
          (tryCatchP
             (_ ← run (Home.setSaving true);
              _ ← run (Home.storage_put env flavors (mkFlavor name parsedPrice));
              _ ← run (Home.setFlavors (λ prev,
                     let exists_ :=
                       existsb (λ f, bool_decide (toLowerCase (Flavor_name f)
                                                  = toLowerCase name)) prev in
                     if exists_ then
                       map (λ f, if bool_decide (toLowerCase (Flavor_name f)
                                                 = toLowerCase name)
                                 then mkFlavor (Flavor_name f) parsedPrice
                                 else f) prev
                     else prev ++ [mkFlavor name parsedPrice]));
              _ ← setNewFlavorName "";
              _ ← setNewFlavorPrice "";
              run (Home.setMessage (Some (success "Sabor salvo com sucesso."))))
             (λ _, run (Home.setMessage
                          (Some (error "Não foi possível salvar o sabor.")))))
          (run (Home.setSaving false))
  end.

Definition handleRemoveFlavor (flavorName : string) : Handler unit :=
  f ← getForm;
  tryFinallyP
    (tryCatchP
       (_ ← run (Home.setSaving true);
        _ ← run (Home.storage_delete env flavors flavorName);
        _ ← run (Home.setFlavors (filter (λ x, Flavor_name x ≠ flavorName)));
        _ ← (if bool_decide (flavor f = flavorName) then setFlavor "" else retP tt);
        run (Home.setMessage (Some (success "Sabor removido."))))
       (λ _, run (Home.setMessage
                    (Some (error "Não foi possível remover o sabor.")))))
    (run (Home.setSaving false)).

(** [now] is [Date.now().toString()]. *)
Definition handleAddClient (now : string) : Handler unit :=
  f ← getForm;
  let name := trim (clientName f) in
  let phone := trim (clientPhone f) in
  if bool_decide (name = "") || bool_decide (phone = "") then retP tt
  else
    let newClient := mkClient now name phone in
    tryFinallyP
      (tryCatchP
         (_ ← run (Home.setSaving true);
          _ ← run (Home.storage_put env clients newClient);
          _ ← run (Home.setClients (λ prev, prev ++ [newClient]));
          _ ← setSelectedClientId (Client_id newClient);
          run (Home.setMessage (Some (success "Cliente salvo."))))
         (λ _, run (Home.setMessage
                      (Some (error "Não foi possível salvar o cliente.")))))
      (run (Home.setSaving false)).

End WithEnv.
End HomePage.

(** A list on screen mirrors a stored kind: the same records, one per key
    (on the fallback also in the same order). *)
Definition mirrors (env : Env) (store : StoreName) (l : list (StoreMap store))
    (w : World) : Prop :=
  if hasIndexedDB env then corresponds store l (objectStore store (cakeDB w))
  else NoDup (Home.getKeyValue store <$> l) ∧ l = stored store (localStorage w).

(** The two lists of the order-entry page mirror their kinds. *)
Definition catalogInSync (env : Env) (w : World) : Prop :=
  mirrors env flavors (home_flavors (home w)) w
  ∧ mirrors env clients (home_clients (home w)) w.

(** The page a handler leaves. *)
Definition pageAfter {A} (h : HomePage.Handler A) (p : HomePage.Page) : HomePage.Page :=
  (h p).2.

(** A page on the fallback whose catalog, on screen and stored, is the one
    flavor "Chocolate", with "chocolate" at 99 typed as a new flavor. *)
Definition catalogPage : HomePage.Page :=
  HomePage.mkPage
    (withHome (λ h, mkHomeView [chocolate50] (home_clients h) (home_message h)
                      (home_initializing h) (home_saving h))
       (seededWorld [chocolate50]))
    (HomePage.mkFormView ready "Chocolate" "" false "" "" "Ana" "11888880000" ""
       "chocolate" "99" false None).

(** Lower-casing, as far as the examples need it. *)
Definition lowerChocolate (s : string) : string :=
  if bool_decide (s = "Chocolate") then "chocolate" else s.

(** A handler ends normally, leaving the page as it was or the saving flag
    lowered. *)
Definition completes (h : HomePage.Handler unit) (p : HomePage.Page) : Prop :=
  (h p).1 = Normal tt
  ∧ (pageAfter h p = p ∨ home_saving (home (HomePage.world (pageAfter h p))) = false).

(** More samples: two more flavors under the name "Chocolate", one under
    another name, a second customer. *)
Definition chocolate65 : Flavor := mkFlavor "Chocolate" 65%Z.
Definition chocolate70 : Flavor := mkFlavor "Chocolate" 70%Z.
Definition morango60 : Flavor := mkFlavor "Morango" 60%Z.
Definition ana : Client := mkClient "c2" "Ana" "11888880000".

(** A world on the fallback with two customers. *)
Definition pairWorld : World :=
  withLocalStorage (setItem clients (JSON_stringify [maria; ana])) shopWorld.

(** A database holding two flavors and one order, each put under its key. *)
Definition stockedDB : Database :=
  let db0 := mkDatabase ∅ ∅ ∅ in
  let db1 := setObjectStore flavors
               (store_put flavors chocolate50 (objectStore flavors db0)) db0 in
  let db2 := setObjectStore flavors
               (store_put flavors morango60 (objectStore flavors db1)) db1 in
  setObjectStore orders (store_put orders mariasCake (objectStore orders db2)) db2.

(** [shopWorld] with that database. *)
Definition stockedWorld : World := withCakeDB (λ _, stockedDB) shopWorld.

Lemma getItem_writeItem_same store v ls :
  getItem (writeItem store v ls) store = v.
Proof. by destruct store. Qed.

Lemma getItem_writeItem_other store store' v ls :
  store ≠ store' → getItem (writeItem store v ls) store' = getItem ls store'.
Proof. by destruct store, store'. Qed.

Lemma stored_setItem_same store items ls :
  stored store (setItem store (JSON_stringify items) ls) = items.
Proof. unfold stored, setItem. by rewrite getItem_writeItem_same. Qed.

Lemma stored_setItem_other store store' text ls :
  store ≠ store' → stored store' (setItem store text ls) = stored store' ls.
Proof. intros. unfold stored, setItem. by rewrite getItem_writeItem_other. Qed.

Lemma objectStore_set_same store m db :
  objectStore store (setObjectStore store m db) = m.
Proof. by destruct store. Qed.

Lemma objectStore_set_other store store' m db :
  store ≠ store' → objectStore store' (setObjectStore store m db) = objectStore store' db.
Proof. by destruct store, store'. Qed.

Lemma lsKeys_inj store store' : lsKeys store = lsKeys store' → store = store'.
Proof. by destruct store, store'. Qed.

Lemma keyPath_getKeyValue store (x : StoreMap store) :
  keyPath store x = Home.getKeyValue store x.
Proof. by destruct store. Qed.

(** ** Array operations of the fallback *)

Section Arrays.
Context {A : Type} (p : A → bool).

Lemma findIndex_None l : findIndex p l = None ↔ Forall (λ x, p x = false) l.
Proof.
  induction l as [|x l IH]; simpl.
  - split; [constructor | done].
  - destruct (p x) eqn:Hx.
    + split; [done | inversion 1; congruence].
    + rewrite fmap_None, IH. split.
      * by constructor.
      * by inversion 1.
Qed.

Lemma findIndex_Some l i :
  findIndex p l = Some i →
  ∃ pre x post, l = pre ++ x :: post ∧ length pre = i ∧ p x = true
                ∧ Forall (λ y, p y = false) pre.
Proof.
  revert i. induction l as [|x l IH]; simpl; intros i Hi; [done|].
  destruct (p x) eqn:Hx.
  - inversion Hi; subst. by exists [], x, l.
  - apply fmap_Some in Hi as (j & Hj & ->).
    destruct (IH _ Hj) as (pre & y & post & -> & <- & Hy & Hpre).
    exists (x :: pre), y, post. repeat split; [done | by constructor].
Qed.
End Arrays.

Section Upsert.
Context (store : StoreName).
Implicit Types (v x : StoreMap store) (l : list (StoreMap store)).

Local Abbreviation key := (Home.getKeyValue store).

Lemma upsert_nil v : upsert store v [] = [v].
Proof. done. Qed.

Lemma upsert_cons v x l :
  upsert store v (x :: l) =
    if bool_decide (key x = key v) then v :: l else x :: upsert store v l.
Proof.
  unfold upsert; simpl. case_bool_decide; [done|].
  by destruct (findIndex _ l).
Qed.

(** The result of the in-place update or push, by where the key stood. *)
Lemma upsert_spec v l :
  (∃ pre old post, l = pre ++ old :: post ∧ key old = key v
      ∧ Forall (λ y, key y ≠ key v) pre
      ∧ upsert store v l = pre ++ v :: post)
  ∨ (Forall (λ y, key y ≠ key v) l ∧ upsert store v l = l ++ [v]).
Proof.
  induction l as [|x l IH].
  - right. by split; [constructor|].
  - rewrite upsert_cons. case_bool_decide as Hx.
    + left. by exists [], x, l.
    + destruct IH as [(pre & old & post & -> & Hold & Hpre & ->) | [Hl ->]].
      * left. exists (x :: pre), old, post. repeat split; [done | by constructor].
      * right. split; [by constructor | done].
Qed.

Lemma upsert_others v l :
  filter (λ y, key y ≠ key v) (upsert store v l) = filter (λ y, key y ≠ key v) l.
Proof.
  induction l as [|x l IH].
  - rewrite upsert_nil. by rewrite filter_cons_False by (intros H; by apply H).
  - rewrite upsert_cons. case_bool_decide as Hx.
    + rewrite !filter_cons_False; [done | by intros H; apply H | by intros H; apply H].
    + by rewrite !filter_cons_True, IH.
Qed.

Lemma upsert_idem v l :
  upsert store v (upsert store v l) = upsert store v l.
Proof.
  induction l as [|x l IH].
  - rewrite upsert_nil, upsert_cons. by rewrite bool_decide_eq_true_2.
  - rewrite upsert_cons. case_bool_decide as Hx.
    + rewrite upsert_cons. by rewrite bool_decide_eq_true_2.
    + rewrite upsert_cons. rewrite bool_decide_eq_false_2 by done. by rewrite IH.
Qed.

Lemma upsert_same_key v l :
  (keyCount store (key v) l ≤ 1)%nat →
  filter (λ y, key y = key v) (upsert store v l) = [v].
Proof.
  unfold keyCount. induction l as [|x l IH]; intros Hc.
  - rewrite upsert_nil. by rewrite filter_cons_True.
  - rewrite upsert_cons. case_bool_decide as Hx.
    + rewrite filter_cons_True in Hc by done. simpl in Hc.
      rewrite filter_cons_True by done. f_equal.
      destruct (filter _ l); [done | simpl in Hc; lia].
    + rewrite filter_cons_False in Hc by done.
      rewrite filter_cons_False by done. by apply IH.
Qed.

(** Writing a record keeps the list of keys, or adds a new key at the end. *)
Lemma upsert_keys v l :
  (key <$> upsert store v l = key <$> l)
  ∨ ((key v ∉ (key <$> l)) ∧ key <$> upsert store v l = (key <$> l) ++ [key v]).
Proof.
  destruct (upsert_spec v l) as [(pre & old & post & -> & Hold & _ & ->) | [Hl ->]].
  - left. rewrite !fmap_app, !fmap_cons. by rewrite Hold.
  - right. split; [|by rewrite fmap_app].
    intros (y & Hy & Hin)%list_elem_of_fmap.
    rewrite Forall_forall in Hl. by apply (Hl y).
Qed.

(** Unique keys are an invariant of the fallback's writes. *)
Lemma upsert_NoDup v l :
  NoDup (key <$> l) → NoDup (key <$> upsert store v l).
Proof.
  intros Hl. destruct (upsert_keys v l) as [-> | [Hv ->]]; [done|].
  apply NoDup_app. repeat split; [done | | apply NoDup_singleton].
  intros k Hk ->%list_elem_of_singleton. done.
Qed.

Lemma filter_NoDup_keys (P : StoreMap store → Prop) `{∀ x, Decision (P x)} l :
  NoDup (key <$> l) → NoDup (key <$> filter P l).
Proof.
  induction l as [|x l IH]; [done|].
  rewrite fmap_cons, NoDup_cons. intros [Hx Hl].
  destruct (decide (P x)).
  - rewrite filter_cons_True by done. rewrite fmap_cons, NoDup_cons.
    split; [|by apply IH].
    intros (y & Hy & Hin)%list_elem_of_fmap. apply Hx.
    apply list_elem_of_fmap. exists y. split; [done|].
    by apply list_elem_of_filter in Hin as [_ ?].
  - rewrite filter_cons_False by done. by apply IH.
Qed.

Lemma NoDup_keyCount k l :
  NoDup (key <$> l) → (keyCount store k l ≤ 1)%nat.
Proof.
  unfold keyCount. induction l as [|x l IH]; [simpl; lia|].
  rewrite fmap_cons, NoDup_cons. intros [Hx Hl].
  destruct (decide (key x = k)) as [<-|Hk].
  - rewrite filter_cons_True by done. simpl.
    destruct (filter _ l) as [|y l'] eqn:Hf; [simpl; lia|].
    exfalso. apply Hx. apply list_elem_of_fmap. exists y.
    assert (y ∈ filter (λ y, key y = key x) l) as Hy by (rewrite Hf; left).
    apply list_elem_of_filter in Hy as [-> ?]. done.
  - rewrite filter_cons_False by done. by apply IH.
Qed.
End Upsert.

Lemma bind_run {A B} (m : JS A) (k : A → JS B) w a w1 :
  m w = (Normal a, w1) → (x ← m; k x) w = k a w1.
Proof. intros H. unfold mbind, JS_bind, bind. by rewrite H. Qed.

Lemma bind_throws {A B} (m : JS A) (k : A → JS B) w e w1 :
  m w = (Throw e, w1) → (x ← m; k x) w = (Throw e, w1).
Proof. intros H. unfold mbind, JS_bind, bind. by rewrite H. Qed.

(** ** The fallback backend on a world *)

Section Flat.
Context (env : Env).
Implicit Types (store : StoreName) (w : World).

Lemma readFromLocalStorage_run store w :
  Home.readFromLocalStorage env store w =
    (Normal (if isBrowser env then stored store (localStorage w) else []), w).
Proof.
  unfold Home.readFromLocalStorage, localStorage_getItem, stored. js_unfold.
  destruct (isBrowser env); simpl; [|done].
  by destruct (getItem (localStorage w) store) as [[| | |items]|].
Qed.

Lemma flat_getAll_run store w :
  hasIndexedDB env = false →
  Home.storage_getAll env store w =
    (Normal (if isBrowser env then stored store (localStorage w) else []), w).
Proof.
  intros Hflat. unfold Home.storage_getAll. rewrite Hflat.
  apply readFromLocalStorage_run.
Qed.

Lemma flat_put_run store (value : StoreMap store) w :
  hasIndexedDB env = false → isBrowser env = true →
  Home.storage_put env store value w =
    (Normal tt,
     emit (SetItem (lsKeys store))
       (withLocalStorage
          (setItem store
             (JSON_stringify (upsert store value (stored store (localStorage w)))))
          w)).
Proof.
  intros Hflat Hb. unfold Home.storage_put. rewrite Hflat, Hb; simpl.
  unfold mbind, JS_bind, bind. rewrite readFromLocalStorage_run, Hb. done.
Qed.

Lemma flat_delete_run store key w :
  hasIndexedDB env = false → isBrowser env = true →
  Home.storage_delete env store key w =
    (Normal tt,
     emit (SetItem (lsKeys store))
       (withLocalStorage
          (setItem store
             (JSON_stringify
                (filter (λ x, Home.getKeyValue store x ≠ key)
                   (stored store (localStorage w)))))
          w)).
Proof.
  intros Hflat Hb. unfold Home.storage_delete. rewrite Hflat, Hb; simpl.
  unfold mbind, JS_bind, bind. rewrite readFromLocalStorage_run, Hb. done.
Qed.

Lemma flat_bulkPut_run store (values : list (StoreMap store)) w :
  hasIndexedDB env = false → isBrowser env = true →
  Home.storage_bulkPut env store values w =
    (Normal tt,
     emit (SetItem (lsKeys store))
       (withLocalStorage (setItem store (JSON_stringify values)) w)).
Proof.
  intros Hflat Hb. unfold Home.storage_bulkPut. by rewrite Hflat, Hb.
Qed.

(** Outside a browser the fallback neither reads nor writes. *)
Lemma flat_put_ssr store (value : StoreMap store) w :
  hasIndexedDB env = false → isBrowser env = false →
  Home.storage_put env store value w = (Normal tt, w).
Proof. intros Hflat Hb. unfold Home.storage_put. by rewrite Hflat, Hb. Qed.

Lemma flat_delete_ssr store key w :
  hasIndexedDB env = false → isBrowser env = false →
  Home.storage_delete env store key w = (Normal tt, w).
Proof. intros Hflat Hb. unfold Home.storage_delete. by rewrite Hflat, Hb. Qed.

End Flat.

(** Unique keys are an invariant of the fallback's put and delete, and hold
    of a collection that is absent, corrupt or empty. *)
Lemma flat_put_keeps_keys_unique env store store' (value : StoreMap store') w :
  NoDup (Home.getKeyValue store <$> stored store (localStorage w)) →
  NoDup (Home.getKeyValue store <$>
           stored store (localStorage (after (Home.storage_put env store' value) w))).
Proof.
  intros Hnd. unfold after.
  destruct (hasIndexedDB env) eqn:Hidb.
  - unfold Home.storage_put, Home.idbPut, Home.getDB. rewrite Hidb.
    by destruct (idbOpenFails env).
  - destruct (isBrowser env) eqn:Hb.
    + rewrite flat_put_run by done. cbn [snd localStorage emit withLocalStorage].
      destruct (decide (store' = store)) as [->|Hne].
      * rewrite stored_setItem_same. by apply upsert_NoDup.
      * by rewrite stored_setItem_other.
    + by rewrite flat_put_ssr.
Qed.

Lemma flat_delete_keeps_keys_unique env store store' key w :
  NoDup (Home.getKeyValue store <$> stored store (localStorage w)) →
  NoDup (Home.getKeyValue store <$>
           stored store (localStorage (after (Home.storage_delete env store' key) w))).
Proof.
  intros Hnd. unfold after.
  destruct (hasIndexedDB env) eqn:Hidb.
  - unfold Home.storage_delete, Home.idbDelete, Home.getDB. rewrite Hidb.
    by destruct (idbOpenFails env).
  - destruct (isBrowser env) eqn:Hb.
    + rewrite flat_delete_run by done. cbn [snd localStorage emit withLocalStorage].
      destruct (decide (store' = store)) as [->|Hne].
      * rewrite stored_setItem_same. by apply filter_NoDup_keys.
      * by rewrite stored_setItem_other.
    + by rewrite flat_delete_ssr.
Qed.

Lemma unique_keys_without_array store ls :
  (∀ items, getItem ls store ≠ Some (ArrayJson items)) →
  NoDup (Home.getKeyValue store <$> stored store ls).
Proof.
  intros Hno. unfold stored.
  destruct (getItem ls store) as [[| | |items]|]; try apply NoDup_nil_2.
  by destruct (Hno items).
Qed.

Lemma unique_keys_at_most_one store k w :
  NoDup (Home.getKeyValue store <$> stored store (localStorage w)) →
  (keyCount store k (stored store (localStorage w)) ≤ 1)%nat.
Proof. apply NoDup_keyCount. Qed.

(** ** Claims about the fallback's read-modify-write operations *)

(** Whatever a world stores under the key, reading returns a list and
    changes nothing. *)
Lemma readFromLocalStorage_total env store w :
  ∃ items, Home.readFromLocalStorage env store w = (Normal items, w)
    ∧ (getItem (localStorage w) store = None → items = [])
    ∧ (∀ raw e, getItem (localStorage w) store = Some raw →
         JSON_parse raw = Throw e → items = [])
    ∧ (∀ raw, getItem (localStorage w) store = Some raw →
         JSON_parse raw = Normal NotAnArray → items = [])
    ∧ (∀ raw parsed, getItem (localStorage w) store = Some raw →
         JSON_parse raw = Normal (AnArray parsed) → isBrowser env = true →
         items = parsed).
Proof.
  eexists. split; [apply readFromLocalStorage_run|].
  unfold stored.
  repeat split.
  - intros ->. by destruct (isBrowser env).
  - intros raw e -> Hp. destruct (isBrowser env); [|done]. by destruct raw.
  - intros raw -> Hp. destruct (isBrowser env); [|done]. by destruct raw.
  - intros raw parsed -> Hp ->. destruct raw; simpl in Hp; congruence.
Qed.

(** C3. For every raw string stored under a fallback key, and whatever
    JSON.parse does with it, reading the collection completes normally with a
    list and changes nothing.  The list is empty when the key is absent, when
    JSON.parse throws on the string, and when the string parses to a value
    that is not an array; a string that parses to an array is returned as
    that array. *)
Theorem readFromLocalStorage_never_throws env store
    (parse : string → Completion (Parsed (StoreMap store))) (raw : option string) w :
  ∃ items,
    Home.readFromLocalStorage env store (holding store parse raw w)
      = (Normal items, holding store parse raw w)
    ∧ (raw = None → items = [])
    ∧ (∀ text e, raw = Some text → parse text = Throw e → items = [])
    ∧ (∀ text, raw = Some text → parse text = Normal NotAnArray → items = [])
    ∧ (∀ text parsed, raw = Some text → text ≠ "" →
         parse text = Normal (AnArray parsed) → isBrowser env = true →
         items = parsed).
Proof.
  eexists. split; [apply readFromLocalStorage_run|].
  unfold stored, holding. cbn [localStorage withLocalStorage].
  rewrite getItem_writeItem_same.
  repeat split.
  - intros ->. by destruct (isBrowser env).
  - intros text e -> Hp. destruct (isBrowser env); [|done]. simpl.
    unfold textOf. case_bool_decide; [done|]. by rewrite Hp.
  - intros text -> Hp. destruct (isBrowser env); [|done]. simpl.
    unfold textOf. case_bool_decide; [done|]. by rewrite Hp.
  - intros text parsed -> Hne Hp ->. simpl.
    unfold textOf. rewrite bool_decide_eq_false_2 by done. by rewrite Hp.
Qed.

(** C10. On the fallback, [put(kind, R)] keeps every stored record whose key
    differs from R's, unchanged and in the same relative order: the new
    collection is the old one with R written over the first record that has
    R's key, or with R appended at the end when no record has it. *)
Theorem flat_put_frame env store (R : StoreMap store) w prior :
  hasIndexedDB env = false → isBrowser env = true →
  Home.storage_getAll env store w = (Normal prior, w) →
  ∃ w' now,
    Home.storage_put env store R w = (Normal tt, w')
    ∧ Home.storage_getAll env store w' = (Normal now, w')
    ∧ filter (λ x, Home.getKeyValue store x ≠ Home.getKeyValue store R) now
      = filter (λ x, Home.getKeyValue store x ≠ Home.getKeyValue store R) prior
    ∧ ((∃ pre old post,
          prior = pre ++ old :: post
          ∧ Home.getKeyValue store old = Home.getKeyValue store R
          ∧ Forall (λ x, Home.getKeyValue store x ≠ Home.getKeyValue store R) pre
          ∧ now = pre ++ R :: post)
       ∨ (Forall (λ x, Home.getKeyValue store x ≠ Home.getKeyValue store R) prior
          ∧ now = prior ++ [R])).
Proof.
  intros Hflat Hb Hprior.
  rewrite flat_getAll_run, Hb in Hprior by done. injection Hprior as <-.
  eexists _, _. split; [by apply flat_put_run|].
  split; [rewrite flat_getAll_run, Hb by done; reflexivity|].
  simpl. rewrite stored_setItem_same.
  split; [apply upsert_others | apply upsert_spec].
Qed.

Lemma flat_put_frame_witness :
  hasIndexedDB flatEnv = false ∧ isBrowser flatEnv = true
  ∧ Home.storage_getAll flatEnv flavors (seededWorld [chocolate50; morango60; chocolate65])
    = (Normal [chocolate50; morango60; chocolate65],
       seededWorld [chocolate50; morango60; chocolate65])
  ∧ result (Home.storage_getAll flatEnv flavors)
      (after (Home.storage_put flatEnv flavors chocolate70)
         (seededWorld [chocolate50; morango60; chocolate65]))
    = Normal [chocolate70; morango60; chocolate65]
  ∧ ∃ w' now,
    Home.storage_put flatEnv flavors chocolate70
      (seededWorld [chocolate50; morango60; chocolate65]) = (Normal tt, w')
    ∧ Home.storage_getAll flatEnv flavors w' = (Normal now, w')
    ∧ filter (λ x, Home.getKeyValue flavors x ≠ Home.getKeyValue flavors chocolate70) now
      = filter (λ x, Home.getKeyValue flavors x ≠ Home.getKeyValue flavors chocolate70)
          [chocolate50; morango60; chocolate65]
    ∧ ((∃ pre old post,
          [chocolate50; morango60; chocolate65] = pre ++ old :: post
          ∧ Home.getKeyValue flavors old = Home.getKeyValue flavors chocolate70
          ∧ Forall (λ x, Home.getKeyValue flavors x ≠ Home.getKeyValue flavors chocolate70) pre
          ∧ now = pre ++ chocolate70 :: post)
       ∨ (Forall (λ x, Home.getKeyValue flavors x ≠ Home.getKeyValue flavors chocolate70)
            [chocolate50; morango60; chocolate65]
          ∧ now = [chocolate50; morango60; chocolate65] ++ [chocolate70])).
Proof.
  split; [reflexivity|]. split; [reflexivity|]. split; [reflexivity|].
  split; [vm_compute; reflexivity|].
  apply (flat_put_frame flatEnv flavors chocolate70
           (seededWorld [chocolate50; morango60; chocolate65])
           [chocolate50; morango60; chocolate65]); reflexivity.
Defined.

(** C1, as amended.  On the fallback, when the stored collection holds at
    most one record under R's key, put(kind, R) twice in a row succeeds both
    times and leaves getAll(kind) with exactly one record under R's key, R
    itself; the second put changes nothing.  Collections written by the
    fallback's put and delete alone keep at most one record per key
    ([flat_put_keeps_keys_unique], [flat_delete_keeps_keys_unique]). *)
Theorem flat_put_twice env store (R : StoreMap store) w :
  hasIndexedDB env = false → isBrowser env = true →
  (keyCount store (Home.getKeyValue store R) (stored store (localStorage w)) ≤ 1)%nat →
  ∃ w1 w2 all,
    Home.storage_put env store R w = (Normal tt, w1)
    ∧ Home.storage_put env store R w1 = (Normal tt, w2)
    ∧ Home.storage_getAll env store w2 = (Normal all, w2)
    ∧ filter (λ x, Home.getKeyValue store x = Home.getKeyValue store R) all = [R]
    ∧ Home.storage_getAll env store w1 = (Normal all, w1).
Proof.
  intros Hflat Hb Hc.
  eexists _, _, _. split; [by apply flat_put_run|].
  split; [by apply flat_put_run|].
  split; [rewrite flat_getAll_run, Hb by done; reflexivity|].
  simpl. rewrite !stored_setItem_same, upsert_idem.
  split; [by apply upsert_same_key|].
  rewrite flat_getAll_run, Hb by done. simpl. by rewrite stored_setItem_same.
Qed.

Lemma flat_put_twice_witness :
  hasIndexedDB flatEnv = false ∧ isBrowser flatEnv = true
  ∧ (keyCount flavors (Home.getKeyValue flavors chocolate70)
       (stored flavors (localStorage (seededWorld [chocolate50; morango60]))) ≤ 1)%nat
  ∧ result (Home.storage_getAll flatEnv flavors)
      (after (Home.storage_put flatEnv flavors chocolate70)
         (after (Home.storage_put flatEnv flavors chocolate70)
            (seededWorld [chocolate50; morango60])))
    = Normal [chocolate70; morango60]
  ∧ ∃ w1 w2 all,
    Home.storage_put flatEnv flavors chocolate70 (seededWorld [chocolate50; morango60])
      = (Normal tt, w1)
    ∧ Home.storage_put flatEnv flavors chocolate70 w1 = (Normal tt, w2)
    ∧ Home.storage_getAll flatEnv flavors w2 = (Normal all, w2)
    ∧ filter (λ x, Home.getKeyValue flavors x = Home.getKeyValue flavors chocolate70) all
      = [chocolate70]
    ∧ Home.storage_getAll flatEnv flavors w1 = (Normal all, w1).
Proof.
  split; [reflexivity|]. split; [reflexivity|].
  split; [vm_compute; lia|].
  split; [vm_compute; reflexivity|].
  apply (flat_put_twice flatEnv flavors chocolate70 (seededWorld [chocolate50; morango60]));
    [reflexivity | reflexivity | vm_compute; lia].
Defined.

(** C1 as stated fails on a collection that already holds two records under
    R's key, which the fallback's own bulkPut writes without looking at the
    keys: put finds the first of them only, so after two puts of R the
    second record of that key is still there. *)
Lemma flat_put_twice_over_duplicates :
  result (Home.storage_bulkPut flatEnv flavors [chocolate50; morango60; chocolate65])
    emptyWorld = Normal tt
  ∧ result (Home.storage_getAll flatEnv flavors)
      (after (Home.storage_put flatEnv flavors chocolate70)
         (after (Home.storage_put flatEnv flavors chocolate70)
            (after (Home.storage_bulkPut flatEnv flavors
                      [chocolate50; morango60; chocolate65]) emptyWorld)))
    = Normal [chocolate70; morango60; chocolate65]
  ∧ filter (λ x, Home.getKeyValue flavors x = Home.getKeyValue flavors chocolate70)
      [chocolate70; morango60; chocolate65]
    = [chocolate70; chocolate65].
Proof. repeat split; vm_compute; reflexivity. Qed.

Lemma filter_all {A} (P : A → Prop) `{∀ x, Decision (P x)} (l : list A) :
  Forall P l → filter P l = l.
Proof.
  induction 1 as [|x l Hx _ IH]; [done|].
  by rewrite filter_cons_True, IH.
Qed.

(** C2. On the fallback, delete(kind, key) succeeds whether or not a record
    with that key is stored, and twice in a row it succeeds both times.
    After the first call getAll(kind) is what it was without the records of
    that key, the others unchanged and in their order; so when no record had
    the key, getAll(kind) is what it was.  The second call changes nothing
    more.  After each call no record of the collection has that key. *)
Theorem flat_delete_twice env store key w :
  hasIndexedDB env = false →
  ∃ prior w1 w2 all1 all2,
    Home.storage_getAll env store w = (Normal prior, w)
    ∧ Home.storage_delete env store key w = (Normal tt, w1)
    ∧ Home.storage_getAll env store w1 = (Normal all1, w1)
    ∧ all1 = filter (λ x, Home.getKeyValue store x ≠ key) prior
    ∧ (Forall (λ x, Home.getKeyValue store x ≠ key) prior → all1 = prior)
    ∧ Forall (λ x, Home.getKeyValue store x ≠ key) all1
    ∧ Home.storage_delete env store key w1 = (Normal tt, w2)
    ∧ Home.storage_getAll env store w2 = (Normal all2, w2)
    ∧ all2 = all1
    ∧ Forall (λ x, Home.getKeyValue store x ≠ key) all2.
Proof.
  intros Hflat.
  assert (∀ l : list (StoreMap store),
            Forall (λ x, Home.getKeyValue store x ≠ key)
              (filter (λ x, Home.getKeyValue store x ≠ key) l)) as Hgone.
  { intros l. apply Forall_forall. intros x Hx.
    by apply list_elem_of_filter in Hx as [? _]. }
  destruct (isBrowser env) eqn:Hb.
  - eexists _, _, _, _, _.
    split; [rewrite flat_getAll_run, Hb by done; reflexivity|].
    split; [by apply flat_delete_run|].
    split; [rewrite flat_getAll_run, Hb by done; reflexivity|].
    cbn [localStorage emit withLocalStorage]. rewrite stored_setItem_same.
    split; [reflexivity|].
    split; [apply filter_all|].
    split; [apply Hgone|].
    split; [by apply flat_delete_run|].
    split; [rewrite flat_getAll_run, Hb by done; reflexivity|].
    cbn [localStorage emit withLocalStorage]. rewrite !stored_setItem_same.
    split; [apply filter_all, Hgone | rewrite filter_all; apply Hgone].
  - exists [], w, w, [], [].
    rewrite flat_delete_ssr, flat_getAll_run, Hb by done.
    repeat split; constructor.
Qed.

Lemma flat_delete_twice_witness :
  hasIndexedDB flatEnv = false
  ∧ result (Home.storage_getAll flatEnv clients)
      (after (Home.storage_delete flatEnv clients "c1") pairWorld) = Normal [ana]
  ∧ result (Home.storage_getAll flatEnv clients)
      (after (Home.storage_delete flatEnv clients "c9") pairWorld) = Normal [maria; ana]
  ∧ (∃ prior w1 w2 all1 all2,
      Home.storage_getAll flatEnv clients pairWorld = (Normal prior, pairWorld)
      ∧ Home.storage_delete flatEnv clients "c1" pairWorld = (Normal tt, w1)
      ∧ Home.storage_getAll flatEnv clients w1 = (Normal all1, w1)
      ∧ all1 = filter (λ x, Home.getKeyValue clients x ≠ "c1") prior
      ∧ (Forall (λ x, Home.getKeyValue clients x ≠ "c1") prior → all1 = prior)
      ∧ Forall (λ x, Home.getKeyValue clients x ≠ "c1") all1
      ∧ Home.storage_delete flatEnv clients "c1" w1 = (Normal tt, w2)
      ∧ Home.storage_getAll flatEnv clients w2 = (Normal all2, w2)
      ∧ all2 = all1
      ∧ Forall (λ x, Home.getKeyValue clients x ≠ "c1") all2)
  ∧ (∃ prior w1 w2 all1 all2,
      Home.storage_getAll flatEnv clients pairWorld = (Normal prior, pairWorld)
      ∧ Home.storage_delete flatEnv clients "c9" pairWorld = (Normal tt, w1)
      ∧ Home.storage_getAll flatEnv clients w1 = (Normal all1, w1)
      ∧ all1 = filter (λ x, Home.getKeyValue clients x ≠ "c9") prior
      ∧ (Forall (λ x, Home.getKeyValue clients x ≠ "c9") prior → all1 = prior)
      ∧ Forall (λ x, Home.getKeyValue clients x ≠ "c9") all1
      ∧ Home.storage_delete flatEnv clients "c9" w1 = (Normal tt, w2)
      ∧ Home.storage_getAll flatEnv clients w2 = (Normal all2, w2)
      ∧ all2 = all1
      ∧ Forall (λ x, Home.getKeyValue clients x ≠ "c9") all2).
Proof.
  split; [reflexivity|].
  split; [vm_compute; reflexivity|]. split; [vm_compute; reflexivity|].
  split.
  - apply (flat_delete_twice flatEnv clients "c1" pairWorld). reflexivity.
  - apply (flat_delete_twice flatEnv clients "c9" pairWorld). reflexivity.
Defined.

(** ** The IndexedDB backend on a world *)



Section Structured.
Context (env : Env).
Hypothesis Hidb : hasIndexedDB env = true.
Hypothesis Hopen : idbOpenFails env = false.
Implicit Types (store : StoreName) (w : World).

Lemma getDB_run w : Home.getDB env w = (Normal tt, w).
Proof. unfold Home.getDB. by rewrite Hidb, Hopen. Qed.

Lemma idb_getAll_run store w :
  Home.storage_getAll env store w = (Normal (store_getAll store (cakeDB w)), w).
Proof.
  unfold Home.storage_getAll, Home.idbGetAll. rewrite Hidb.
  unfold mbind, JS_bind, bind. by rewrite getDB_run.
Qed.

Lemma idb_put_run store (value : StoreMap store) w :
  Home.storage_put env store value w =
    (Normal tt,
     emit (TxComplete store)
       (withCakeDB (λ db, setObjectStore store
                            (store_put store value (objectStore store db)) db) w)).
Proof.
  unfold Home.storage_put, Home.idbPut. rewrite Hidb.
  unfold mbind, JS_bind, bind. by rewrite getDB_run.
Qed.

Lemma idb_bulkPut_run store (values : list (StoreMap store)) w :
  Home.storage_bulkPut env store values w =
    (Normal tt,
     emit (TxComplete store)
       (withCakeDB (λ db, setObjectStore store
          (foldl (λ m v, store_put store v m) (objectStore store db) values) db) w)).
Proof.
  unfold Home.storage_bulkPut, Home.idbBulkPut. rewrite Hidb.
  unfold mbind, JS_bind, bind. by rewrite getDB_run.
Qed.

Lemma idb_delete_run store key w :
  Home.storage_delete env store key w =
    (Normal tt,
     emit (TxComplete store)
       (withCakeDB (λ db, setObjectStore store
                            (delete key (objectStore store db)) db) w)).
Proof.
  unfold Home.storage_delete, Home.idbDelete. rewrite Hidb.
  unfold mbind, JS_bind, bind. by rewrite getDB_run.
Qed.

End Structured.

Section FlatPutEach.
Context (env : Env) (store : StoreName).
Hypothesis Hflat : hasIndexedDB env = false.
Hypothesis Hb : isBrowser env = true.
Implicit Types (l records : list (StoreMap store)).

Local Abbreviation key := (Home.getKeyValue store).


Lemma upsert_fresh (v : StoreMap store) l :
  key v ∉ (key <$> l) → upsert store v l = l ++ [v].
Proof.
  intros Hv.
  destruct (upsert_spec store v l) as [(pre & old & post & -> & Hold & _) | [_ ->]];
    [|done].
  exfalso. apply Hv. rewrite fmap_app, fmap_cons, Hold.
  apply elem_of_app. right. left.
Qed.

End FlatPutEach.

(** ** bulkPut against a put per record *)




(** ** Case-sensitive flavor keys *)

(** C8. From an empty flavors collection, on either backend,
    put({name:"Chocolate", pricePerKg:50}) then
    put({name:"chocolate", pricePerKg:99}) leaves getAll('flavors') with two
    entries, one per exact name. *)
Theorem flavor_keys_case_sensitive env w :
  isBrowser env = true → idbOpenFails env = false →
  Home.storage_getAll env flavors w = (Normal [], w) →
  ∃ w1 w2 all,
    Home.storage_put env flavors chocolate50 w = (Normal tt, w1)
    ∧ Home.storage_put env flavors chocolate99 w1 = (Normal tt, w2)
    ∧ Home.storage_getAll env flavors w2 = (Normal all, w2)
    ∧ all ≡ₚ [chocolate50; chocolate99].
Proof.
  intros Hb Hopen Hempty. destruct (hasIndexedDB env) eqn:Hidb.
  - rewrite idb_getAll_run in Hempty by done. injection Hempty as Hempty.
    apply fmap_nil_inv, map_to_list_empty_iff in Hempty.
    eexists _, _, _. split; [by apply idb_put_run|].
    split; [by apply idb_put_run|].
    split; [by apply idb_getAll_run|].
    unfold store_getAll, store_put. simpl in Hempty |- *. rewrite Hempty.
    rewrite map_to_list_insert by done.
    rewrite map_to_list_insert by done.
    rewrite map_to_list_empty. simpl. apply perm_swap.
  - rewrite flat_getAll_run, Hb in Hempty by done. injection Hempty as Hempty.
    eexists _, _, _. split; [by apply flat_put_run|].
    split; [by apply flat_put_run|].
    split; [rewrite flat_getAll_run, Hb by done; reflexivity|].
    cbn [localStorage withLocalStorage emit].
    rewrite !stored_setItem_same, Hempty. reflexivity.
Qed.

Lemma flavor_keys_case_sensitive_witness :
  isBrowser flatEnv = true ∧ idbOpenFails flatEnv = false
  ∧ Home.storage_getAll flatEnv flavors emptyWorld = (Normal [], emptyWorld)
  ∧ ∃ w1 w2 all,
    Home.storage_put flatEnv flavors chocolate50 emptyWorld = (Normal tt, w1)
    ∧ Home.storage_put flatEnv flavors chocolate99 w1 = (Normal tt, w2)
    ∧ Home.storage_getAll flatEnv flavors w2 = (Normal all, w2)
    ∧ all ≡ₚ [chocolate50; chocolate99].
Proof.
  split; [reflexivity|]. split; [reflexivity|]. split; [reflexivity|].
  apply (flavor_keys_case_sensitive flatEnv emptyWorld); reflexivity.
Defined.

(** ** The key-path invariant *)

Lemma wfDatabase_empty : wfDatabase (mkDatabase ∅ ∅ ∅).
Proof. intros [] i x; simpl; by rewrite lookup_empty. Qed.

Lemma wfDatabase_set store m db :
  wfDatabase db →
  (∀ i x, m !! i = Some x → keyPath store x = i) →
  wfDatabase (setObjectStore store m db).
Proof.
  intros Hwf Hm store' i x. destruct (decide (store = store')) as [<-|Hne].
  - rewrite objectStore_set_same. apply Hm.
  - rewrite objectStore_set_other by done. apply Hwf.
Qed.

Lemma wfDatabase_put store (value : StoreMap store) db :
  wfDatabase db →
  wfDatabase (setObjectStore store (store_put store value (objectStore store db)) db).
Proof.
  intros Hwf. apply wfDatabase_set; [done|]. intros i x. unfold store_put.
  destruct (decide (keyPath store value = i)) as [<-|Hne].
  - rewrite lookup_insert_eq. by intros [= <-].
  - rewrite lookup_insert_ne by done. apply Hwf.
Qed.

Lemma wfDatabase_delete store key db :
  wfDatabase db →
  wfDatabase (setObjectStore store (delete key (objectStore store db)) db).
Proof.
  intros Hwf. apply wfDatabase_set; [done|]. intros i x.
  destruct (decide (key = i)) as [<-|Hne].
  - by rewrite lookup_delete_eq.
  - rewrite lookup_delete_ne by done. apply Hwf.
Qed.

Lemma store_getAll_delete store key db :
  wfDatabase db →
  Forall (λ x, keyPath store x ≠ key)
    (store_getAll store (setObjectStore store (delete key (objectStore store db)) db)).
Proof.
  intros Hwf. apply Forall_forall. intros x Hx.
  unfold store_getAll in Hx. rewrite objectStore_set_same in Hx.
  apply list_elem_of_fmap in Hx as ([i y] & -> & Hin). simpl.
  apply elem_of_map_to_list in Hin.
  destruct (decide (key = i)) as [<-|Hne].
  - by rewrite lookup_delete_eq in Hin.
  - rewrite lookup_delete_ne in Hin by done.
    by rewrite (Hwf store i y Hin).
Qed.

(** ** Deleting a customer *)

Lemma handleRemoveClient_run env clientId w w1 :
  Home.storage_delete env clients clientId (after (Home.setSaving true) w)
    = (Normal tt, w1) →
  Home.handleRemoveClient env clientId w =
    (Normal tt,
     after (Home.setSaving false)
       (after (Home.setClients (filter (λ c, Client_id c ≠ clientId))) w1)).
Proof.
  intros Hd. unfold Home.handleRemoveClient. js_unfold. simpl in *.
  by rewrite Hd.
Qed.

(** C7. Deleting a customer C that an order O refers to (O.clientId = C.id)
    succeeds, on either backend without an engine fault: the page shows no
    error, no client with C's id is left in the clients collection, and the
    orders collection is what it was, O included, untouched. *)
Theorem client_deletion_keeps_orders env w (C : Client) (O : Order) allOrders :
  idbOpenFails env = false → wfDatabase (cakeDB w) →
  Home.storage_getAll env orders w = (Normal allOrders, w) →
  O ∈ allOrders → Order_clientId O = Some (Client_id C) →
  ∃ w' remaining,
    Home.handleRemoveClient env (Client_id C) w = (Normal tt, w')
    ∧ home_message (home w') = home_message (home w)
    ∧ Home.storage_getAll env clients w' = (Normal remaining, w')
    ∧ Forall (λ c, Client_id c ≠ Client_id C) remaining
    ∧ (C ∉ remaining)
    ∧ Home.storage_getAll env orders w' = (Normal allOrders, w')
    ∧ (O ∈ allOrders)
    ∧ ∃ wd, Home.storage_delete env clients (Client_id C) w = (Normal tt, wd)
            ∧ localStorage w' = localStorage wd ∧ cakeDB w' = cakeDB wd.
Proof.
  intros Hopen Hwf Hall HO Href.
  assert (∀ l : list Client, Forall (λ c, Client_id c ≠ Client_id C) l → C ∉ l) as Hnotin.
  { intros l Hl Hin. rewrite Forall_forall in Hl. by apply (Hl C). }
  destruct (hasIndexedDB env) eqn:Hidb.
  - rewrite idb_getAll_run in Hall by done. injection Hall as <-.
    eexists _, _. split.
    { apply handleRemoveClient_run. by apply idb_delete_run. }
    split; [done|].
    split; [by apply idb_getAll_run|].
    assert (Forall (λ c, Client_id c ≠ Client_id C)
              (store_getAll clients (setObjectStore clients
                 (delete (Client_id C) (objectStore clients (cakeDB w))) (cakeDB w))))
      as Hgone by (by apply (store_getAll_delete clients)).
    split; [exact Hgone|]. split; [by apply Hnotin|].
    split; [by rewrite idb_getAll_run|]. split; [done|].
    eexists. split; [by apply idb_delete_run|]. done.
  - destruct (isBrowser env) eqn:Hb.
    + rewrite flat_getAll_run, Hb in Hall by done. injection Hall as <-.
      assert (Forall (λ c, Client_id c ≠ Client_id C)
                (filter (λ c : Client, Client_id c ≠ Client_id C)
                   (stored clients (localStorage w)))) as Hgone.
      { apply Forall_forall. intros x Hx. by apply list_elem_of_filter in Hx as [? _]. }
      eexists _, _. split.
      { apply handleRemoveClient_run. by apply flat_delete_run. }
      split; [done|].
      split; [rewrite flat_getAll_run, Hb by done; reflexivity|].
      split; [exact Hgone|]. split; [by apply Hnotin|].
      split; [by rewrite flat_getAll_run, Hb|]. split; [done|].
      eexists. split; [by apply flat_delete_run|]. done.
    + rewrite flat_getAll_run, Hb in Hall by done. injection Hall as <-.
      by apply elem_of_nil in HO.
Qed.

Lemma client_deletion_keeps_orders_witness :
  idbOpenFails flatEnv = false ∧ wfDatabase (cakeDB shopWorld)
  ∧ Home.storage_getAll flatEnv orders shopWorld = (Normal [mariasCake], shopWorld)
  ∧ mariasCake ∈ [mariasCake] ∧ Order_clientId mariasCake = Some (Client_id maria)
  ∧ ∃ w' remaining,
    Home.handleRemoveClient flatEnv (Client_id maria) shopWorld = (Normal tt, w')
    ∧ home_message (home w') = home_message (home shopWorld)
    ∧ Home.storage_getAll flatEnv clients w' = (Normal remaining, w')
    ∧ Forall (λ c, Client_id c ≠ Client_id maria) remaining
    ∧ (maria ∉ remaining)
    ∧ Home.storage_getAll flatEnv orders w' = (Normal [mariasCake], w')
    ∧ (mariasCake ∈ [mariasCake])
    ∧ ∃ wd, Home.storage_delete flatEnv clients (Client_id maria) shopWorld = (Normal tt, wd)
            ∧ localStorage w' = localStorage wd ∧ cakeDB w' = cakeDB wd.
Proof.
  split; [reflexivity|]. split; [apply wfDatabase_empty|].
  split; [reflexivity|]. split; [by left|]. split; [reflexivity|].
  apply (client_deletion_keeps_orders flatEnv shopWorld maria mariasCake [mariasCake]);
    [reflexivity | apply wfDatabase_empty | reflexivity | by left | reflexivity].
Defined.

(** ** A loop of puts on an object store *)

Section BulkStore.
Context (store : StoreName).
Implicit Types (m : gmap string (StoreMap store)) (records : list (StoreMap store)).

Local Abbreviation putAll := (foldl (λ m v, store_put store v m)).

(** The last record of the list that has key [i], if any. *)
Local Abbreviation lastWith i records :=
  (last (filter (λ v, keyPath store v = i) records)).

Lemma lookup_putAll m records i :
  putAll m records !! i = from_option Some (m !! i) (lastWith i records).
Proof.
  revert m. induction records as [|r rest IH]; intros m; simpl; [done|].
  rewrite IH. unfold store_put.
  destruct (decide (keyPath store r = i)) as [<-|Hne].
  - rewrite filter_cons_True by done. rewrite lookup_insert_eq.
    rewrite last_cons. by destruct (last _).
  - rewrite filter_cons_False by done. by rewrite lookup_insert_ne.
Qed.

(** Copying the same records again changes nothing: put overwrites by key. *)
Lemma putAll_again m records :
  putAll (putAll m records) records = putAll m records.
Proof.
  apply map_eq. intros i. rewrite !lookup_putAll.
  by destruct (lastWith i records).
Qed.

Lemma map_to_list_putAll m records :
  NoDup (keyPath store <$> records) →
  (∀ r, r ∈ records → m !! keyPath store r = None) →
  map_to_list (putAll m records)
    ≡ₚ ((λ r, (keyPath store r, r)) <$> records) ++ map_to_list m.
Proof.
  revert m. induction records as [|r rest IH]; intros m Hnd Hfresh; simpl; [done|].
  rewrite fmap_cons, NoDup_cons in Hnd. destruct Hnd as [Hr Hnd].
  rewrite IH; [|done|].
  - unfold store_put. rewrite map_to_list_insert by (apply Hfresh; left).
    by rewrite <- Permutation_middle.
  - intros r' Hr'. unfold store_put. rewrite lookup_insert_ne.
    + apply Hfresh. by right.
    + intros Heq. apply Hr. rewrite Heq. apply list_elem_of_fmap. by exists r'.
Qed.

Lemma putAll_empty_getAll records :
  NoDup (keyPath store <$> records) →
  (map_to_list (putAll ∅ records)).*2 ≡ₚ records.
Proof.
  intros Hnd. rewrite map_to_list_putAll; [|done|].
  - rewrite map_to_list_empty, app_nil_r. rewrite <- list_fmap_compose.
    by rewrite list_fmap_id.
  - intros r _. apply lookup_empty.
Qed.
End BulkStore.

(** ** Start-up migration *)

Section Migration.
Context (env : Env).
Hypothesis Hidb : hasIndexedDB env = true.
Hypothesis Hopen : idbOpenFails env = false.

Lemma migrate_copies store (records : list (StoreMap store)) w :
  getItem (localStorage w) store = Some (JSON_stringify records) →
  records ≠ [] →
  migrate env store [] w =
    (Normal records,
     emit (RemoveItem (lsKeys store))
       (withLocalStorage (removeItem store)
          (emit (TxComplete store)
             (withCakeDB (λ db, setObjectStore store
                (foldl (λ m v, store_put store v m) (objectStore store db) records)
                db) w)))).
Proof.
  intros Hcell Hne. unfold migrate. rewrite Hidb. simpl.
  unfold localStorage_getItem, localStorage_removeItem. js_unfold. simpl.
  rewrite Hcell. simpl.
  destruct records as [|r rest]; [done|]. simpl.
  by rewrite idb_bulkPut_run.
Qed.

Lemma migrate_skips store (held : list (StoreMap store)) w :
  held ≠ [] → migrate env store held w = (Normal held, w).
Proof.
  intros Hne. unfold migrate. destruct held; [done|].
  simpl. by rewrite andb_false_r.
Qed.

Lemma migrate_frame store (held : list (StoreMap store)) w :
  ∃ r w', migrate env store held w = (Normal r, w') ∧ framed store w w'.
Proof.
  assert (framed store w w) as Hrefl by (by repeat split).
  unfold migrate.
  destruct (hasIndexedDB env && (length held =? 0)%nat); [|by eexists _, _].
  unfold localStorage_getItem, localStorage_removeItem. js_unfold. simpl.
  assert (∀ w1, framed store w w1 →
            framed store w (emit (RemoveItem (lsKeys store))
                              (withLocalStorage (removeItem store) w1))) as Hrm.
  { intros w1 (Hother & Hh & Hd). repeat split; try done.
    - by apply Hother.
    - simpl. unfold removeItem. rewrite getItem_writeItem_other by done.
      by apply Hother. }
  destruct (getItem (localStorage w) store) as [[| | |items]|]; simpl;
    try (by eexists _, _); try (eexists _, _; split; [done|]; by apply Hrm).
  destruct (0 <? length items)%nat; simpl.
  - rewrite idb_bulkPut_run by done. eexists _, _. split; [done|].
    apply Hrm. repeat split; simpl.
    by rewrite objectStore_set_other.
  - eexists _, _. split; [done|]. by apply Hrm.
Qed.

Lemma init_unfold ignore :
  Home.init env ignore =
    tryFinally
      (tryCatch
         (storedFlavors ← Home.storage_getAll env flavors;
          storedFlavors ← migrate env flavors storedFlavors;
          storedFlavors ←
            (if (length storedFlavors =? 0)%nat then
               _ ← Home.storage_bulkPut env flavors defaultFlavors; ret defaultFlavors
             else ret storedFlavors);
          _ ← when (negb ignore) (Home.setFlavors (λ _, storedFlavors));
          storedClients ← Home.storage_getAll env clients;
          storedClients ← migrate env clients storedClients;
          when (negb ignore) (Home.setClients (λ _, storedClients)))
         (λ _, when (negb ignore)
                 (Home.setMessage (Some (error "Falha ao carregar dados locais.")))))
      (when (negb ignore) (Home.setInitializing false)).
Proof. reflexivity. Qed.

(** The clients half of [init]. *)
Lemma init_clients_run ignore w :
  ∃ w', (storedClients ← Home.storage_getAll env clients;
         storedClients ← migrate env clients storedClients;
         when (negb ignore) (Home.setClients (λ _, storedClients))) w
        = (Normal tt, w')
    ∧ objectStore flavors (cakeDB w') = objectStore flavors (cakeDB w)
    ∧ getItem (localStorage w') flavors = getItem (localStorage w) flavors
    ∧ home_message (home w') = home_message (home w).
Proof.
  erewrite bind_run by (by apply idb_getAll_run).
  destruct (migrate_frame clients (store_getAll clients (cakeDB w)) w)
    as (r & w1 & Hm & Hother & Hh & _).
  erewrite bind_run by exact Hm.
  destruct (Hother flavors) as [Hdb Hls]; [done|].
  destruct ignore; simpl; js_unfold; eexists; (split; [reflexivity|]); simpl;
    by rewrite ?Hh.
Qed.

Lemma init_first_run ignore (records : list Flavor) w :
  objectStore flavors (cakeDB w) = ∅ →
  getItem (localStorage w) flavors = Some (JSON_stringify records) →
  records ≠ [] →
  ∃ w', Home.init env ignore w = (Normal tt, w')
    ∧ objectStore flavors (cakeDB w')
      = foldl (λ m v, store_put flavors v m) ∅ records
    ∧ getItem (localStorage w') flavors = None
    ∧ home_message (home w') = home_message (home w).
Proof.
  intros Hempty Hcell Hne. rewrite init_unfold. unfold tryFinally, tryCatch.
  erewrite bind_run by (by apply idb_getAll_run).
  unfold store_getAll. rewrite Hempty, map_to_list_empty. simpl fmap.
  erewrite bind_run by (by apply (migrate_copies flavors records w)).
  destruct records as [|r rest]; [done|]. simpl length. simpl Nat.eqb. cbv iota.
  erewrite bind_run by reflexivity.
  set (w1 := emit _ _).
  set (w2 := if ignore then w1 else (Home.setFlavors (λ _, r :: rest) w1).2).
  assert ((when (negb ignore) (Home.setFlavors (λ _, r :: rest))) w1 = (Normal tt, w2))
    as Hset by (subst w2; by destruct ignore).
  erewrite bind_run by exact Hset.
  destruct (init_clients_run ignore w2) as (w3 & -> & Hdb & Hls & Hmsg).
  assert (objectStore flavors (cakeDB w2)
          = foldl (λ m v, store_put flavors v m) ∅ (r :: rest)
          ∧ getItem (localStorage w2) flavors = None
          ∧ home_message (home w2) = home_message (home w)) as (Hdb2 & Hls2 & Hmsg2).
  { subst w2 w1. simpl in Hempty. destruct ignore; simpl; by rewrite Hempty. }
  destruct ignore; simpl; js_unfold; eexists; (split; [reflexivity|]);
    (split; [exact (eq_trans Hdb Hdb2) | split; [exact (eq_trans Hls Hls2)|]]);
    exact (eq_trans Hmsg Hmsg2).
Qed.

Lemma init_later_run ignore w :
  objectStore flavors (cakeDB w) ≠ ∅ →
  ∃ w', Home.init env ignore w = (Normal tt, w')
    ∧ objectStore flavors (cakeDB w') = objectStore flavors (cakeDB w)
    ∧ getItem (localStorage w') flavors = getItem (localStorage w) flavors
    ∧ home_message (home w') = home_message (home w).
Proof.
  intros Hheld. rewrite init_unfold. unfold tryFinally, tryCatch.
  erewrite bind_run by (by apply idb_getAll_run).
  assert (store_getAll flavors (cakeDB w) ≠ []) as Hne.
  { unfold store_getAll. intros Hnil. apply Hheld.
    by apply fmap_nil_inv, map_to_list_empty_iff in Hnil. }
  erewrite bind_run by (by apply (migrate_skips flavors)).
  destruct (store_getAll flavors (cakeDB w)) as [|r rest] eqn:Hall; [done|].
  simpl length. simpl Nat.eqb. cbv iota.
  erewrite bind_run by reflexivity.
  set (w2 := if ignore then w else (Home.setFlavors (λ _, r :: rest) w).2).
  assert ((when (negb ignore) (Home.setFlavors (λ _, r :: rest))) w = (Normal tt, w2))
    as Hset by (subst w2; by destruct ignore).
  erewrite bind_run by exact Hset.
  destruct (init_clients_run ignore w2) as (w3 & -> & Hdb & Hls & Hmsg).
  assert (objectStore flavors (cakeDB w2) = objectStore flavors (cakeDB w)
          ∧ getItem (localStorage w2) flavors = getItem (localStorage w) flavors
          ∧ home_message (home w2) = home_message (home w)) as (Hdb2 & Hls2 & Hmsg2).
  { subst w2. by destruct ignore. }
  destruct ignore; simpl; js_unfold; eexists; (split; [reflexivity|]);
    (split; [exact (eq_trans Hdb Hdb2) | split; [exact (eq_trans Hls Hls2)|]]);
    exact (eq_trans Hmsg Hmsg2).
Qed.
End Migration.

(** C4, as the code has it.  With IndexedDB available and holding no
    flavors, and the fallback seeded with N ≥ 1 flavors of pairwise distinct
    names, [init] succeeds, leaves exactly those N flavors in IndexedDB and
    removes the fallback's copy.  A second [init], whatever localStorage then
    holds (the copy again, as after a failed clear, or nothing), leaves
    IndexedDB with the same N flavors; and copying the records once more
    would change nothing either, the bulk copy being overwrite by key. *)
Theorem migration_copies_once env ignore (records : list Flavor) w :
  hasIndexedDB env = true → idbOpenFails env = false →
  objectStore flavors (cakeDB w) = ∅ →
  getItem (localStorage w) flavors = Some (JSON_stringify records) →
  records ≠ [] → NoDup (Flavor_name <$> records) →
  ∃ w1 all,
    Home.init env ignore w = (Normal tt, w1)
    ∧ Home.storage_getAll env flavors w1 = (Normal all, w1)
    ∧ all ≡ₚ records
    ∧ length all = length records
    ∧ getItem (localStorage w1) flavors = None
    ∧ home_message (home w1) = home_message (home w)
    ∧ (∀ ls' ignore', ∃ w2,
         Home.init env ignore' (withLocalStorage (λ _, ls') w1) = (Normal tt, w2)
         ∧ Home.storage_getAll env flavors w2 = (Normal all, w2))
    ∧ (∃ w1', Home.storage_bulkPut env flavors records w1 = (Normal tt, w1')
              ∧ Home.storage_getAll env flavors w1' = (Normal all, w1')).
Proof.
  intros Hidb Hopen Hempty Hcell Hne Hnd.
  destruct (init_first_run env Hidb Hopen ignore records w Hempty Hcell Hne)
    as (w1 & Hrun & Hdb & Hls & Hmsg).
  assert (store_getAll flavors (cakeDB w1) ≡ₚ records) as Hperm.
  { unfold store_getAll. rewrite Hdb. by apply (putAll_empty_getAll flavors). }
  exists w1, (store_getAll flavors (cakeDB w1)).
  split; [done|]. split; [by apply idb_getAll_run|]. split; [done|].
  split; [by rewrite Hperm|]. split; [done|]. split; [done|]. split.
  - intros ls' ignore'.
    destruct (init_later_run env Hidb Hopen ignore' (withLocalStorage (λ _, ls') w1))
      as (w2 & Hrun2 & Hdb2 & _).
    { simpl. intros Hnil. apply Hne. apply Permutation_nil.
      rewrite <- Hperm. unfold store_getAll. simpl. by rewrite Hnil, map_to_list_empty. }
    exists w2. split; [done|]. rewrite idb_getAll_run by done.
    unfold store_getAll. by rewrite Hdb2.
  - eexists. split; [by apply idb_bulkPut_run|].
    rewrite idb_getAll_run by done. unfold store_getAll.
    cbn [cakeDB emit withCakeDB].
    rewrite objectStore_set_same, Hdb. by rewrite (putAll_again flavors).
Qed.

Lemma migration_copies_once_witness :
  hasIndexedDB idbEnv = true ∧ idbOpenFails idbEnv = false
  ∧ objectStore flavors (cakeDB (seededWorld defaultFlavors)) = ∅
  ∧ getItem (localStorage (seededWorld defaultFlavors)) flavors
    = Some (JSON_stringify defaultFlavors)
  ∧ defaultFlavors ≠ [] ∧ NoDup (Flavor_name <$> defaultFlavors)
  ∧ ∃ w1 all,
    Home.init idbEnv false (seededWorld defaultFlavors) = (Normal tt, w1)
    ∧ Home.storage_getAll idbEnv flavors w1 = (Normal all, w1)
    ∧ all ≡ₚ defaultFlavors
    ∧ length all = length defaultFlavors
    ∧ getItem (localStorage w1) flavors = None
    ∧ home_message (home w1) = home_message (home (seededWorld defaultFlavors))
    ∧ (∀ ls' ignore', ∃ w2,
         Home.init idbEnv ignore' (withLocalStorage (λ _, ls') w1) = (Normal tt, w2)
         ∧ Home.storage_getAll idbEnv flavors w2 = (Normal all, w2))
    ∧ (∃ w1', Home.storage_bulkPut idbEnv flavors defaultFlavors w1 = (Normal tt, w1')
              ∧ Home.storage_getAll idbEnv flavors w1' = (Normal all, w1')).
Proof.
  assert (defaultFlavors ≠ []) as Hne by discriminate.
  assert (NoDup (Flavor_name <$> defaultFlavors)) as Hnd
    by (apply (bool_decide_unpack _); vm_compute; exact I).
  split; [reflexivity|]. split; [reflexivity|]. split; [reflexivity|].
  split; [reflexivity|]. split; [exact Hne|]. split; [exact Hnd|].
  apply (migration_copies_once idbEnv false defaultFlavors (seededWorld defaultFlavors));
    [reflexivity | reflexivity | reflexivity | reflexivity | exact Hne | exact Hnd].
Defined.

(** C4 as stated fails for N = 0: seeded with an empty flavors array, [init]
    copies nothing, removes the copy, and the seeding step that follows
    installs the four default flavors in IndexedDB. *)
Lemma migration_of_nothing_seeds_defaults :
  result (Home.init idbEnv false) (seededWorld []) = Normal tt
  ∧ objectStore flavors (cakeDB (seededWorld [])) = ∅
  ∧ getItem (localStorage (seededWorld [])) flavors = Some (JSON_stringify [])
  ∧ getItem (localStorage (after (Home.init idbEnv false) (seededWorld []))) flavors = None
  ∧ store_getAll flavors (cakeDB (after (Home.init idbEnv false) (seededWorld [])))
    ≡ₚ defaultFlavors
  ∧ length (store_getAll flavors (cakeDB (after (Home.init idbEnv false) (seededWorld []))))
    ≠ length (@nil Flavor).
Proof.
  repeat split.
  - vm_compute.
    change ([mkFlavor "Chocolate" 50%Z; mkFlavor "Morango" 55%Z;
             mkFlavor "Baunilha" 45%Z; mkFlavor "Limão" 40%Z]
            ≡ₚ [mkFlavor "Chocolate" 50%Z; mkFlavor "Baunilha" 45%Z;
                mkFlavor "Morango" 55%Z; mkFlavor "Limão" 40%Z]).
    apply perm_skip, perm_swap.
  - vm_compute. discriminate.
Qed.

(** ** The notification after a write *)

Lemma publish_run env (m : Message) w :
  tryCatch
    (if isBrowser env && hasBroadcastChannel env then
       _ ← new_BroadcastChannel env;
       _ ← bc_postMessage env m;
       bc_close env
     else ret tt)
    (λ _, ret tt) w
  = (Normal tt,
     if isBrowser env && channelDelivers (channel env) then emit (Posted m) w else w).
Proof.
  unfold hasBroadcastChannel, new_BroadcastChannel, bc_postMessage, bc_close.
  by destruct (isBrowser env), (channel env).
Qed.

Lemma notify_run env id w :
  tryCatch
    (if hasBroadcastChannel env then
       _ ← new_BroadcastChannel env;
       _ ← bc_postMessage env (mkMessage "orders_changed" id);
       bc_close env
     else ret tt)
    (λ _, ret tt) w
  = (Normal tt,
     if channelDelivers (channel env)
     then emit (Posted (mkMessage "orders_changed" id)) w else w).
Proof.
  unfold hasBroadcastChannel, new_BroadcastChannel, bc_postMessage, bc_close.
  by destruct (channel env).
Qed.

(** A write through [storage] posts nothing itself. *)
Lemma storage_put_trace env store (value : StoreMap store) w :
  ∃ evs, trace (after (Home.storage_put env store value) w) = trace w ++ evs
         ∧ Forall (λ e, e = TxComplete store ∨ e = SetItem (lsKeys store)) evs.
Proof.
  unfold after. destruct (hasIndexedDB env) eqn:Hidb.
  - destruct (idbOpenFails env) eqn:Hopen.
    + exists []. unfold Home.storage_put, Home.idbPut, Home.getDB.
      rewrite Hidb, Hopen. simpl. by rewrite app_nil_r.
    + rewrite idb_put_run by done. exists [TxComplete store]. simpl.
      split; [done|]. constructor; [by left | constructor].
  - destruct (isBrowser env) eqn:Hb.
    + rewrite flat_put_run by done. exists [SetItem (lsKeys store)]. simpl.
      split; [done|]. constructor; [by right | constructor].
    + rewrite flat_put_ssr by done. exists []. by rewrite app_nil_r.
Qed.

(** C9. [saveOrder] publishes on the channel only once the write has
    completed: when the write throws, [saveOrder] throws the same error from
    the very world the write left, nothing posted; when it completes,
    [saveOrder] returns the order whatever the channel does (absent, or any
    of its calls throwing), the stores are as the write left them, and the
    trace is the write's followed by at most the one message.  The write
    itself posts nothing.  The dashboard's [storagePut] on the fallback does
    the same after its [setItem]. *)
Theorem saveOrder_publishes_after_write env trim form id createdAt w :
  (∃ r w1 evs,
     Home.storage_put env orders (Home.buildOrder trim form id createdAt) w = (r, w1)
     ∧ trace w1 = trace w ++ evs
     ∧ Forall (λ e, ∀ m, e ≠ Posted m) evs
     ∧ match r with
       | Normal _ =>
           ∃ w2,
             Home.saveOrder env trim form id createdAt w
               = (Normal (Home.buildOrder trim form id createdAt), w2)
             ∧ localStorage w2 = localStorage w1 ∧ cakeDB w2 = cakeDB w1
             ∧ trace w2 = trace w1 ++
                 (if isBrowser env && channelDelivers (channel env)
                  then [Posted (mkMessage "orders_changed" id)] else [])
       | Throw e => Home.saveOrder env trim form id createdAt w = (Throw e, w1)
       end)
  ∧ (∀ value : Order,
       hasIndexedDB env = false → isBrowser env = true →
       ∃ w2,
         Deliveries.storagePut env Deliveries.orders value w = (Normal tt, w2)
         ∧ stored orders (localStorage w2)
           = upsert orders value (stored orders (localStorage w))
         ∧ trace w2 = trace w ++ SetItem "cakeOrders" ::
             (if channelDelivers (channel env)
              then [Posted (mkMessage "orders_changed" (Order_id value))] else [])).
Proof.
  split.
  - destruct (storage_put_trace env orders (Home.buildOrder trim form id createdAt) w)
      as (evs & Htrace & Hevs).
    unfold after in Htrace.
    destruct (Home.storage_put env orders (Home.buildOrder trim form id createdAt) w)
      as [r w1] eqn:Hput.
    exists r, w1, evs. split; [done|]. split; [done|]. split.
    { eapply Forall_impl; [exact Hevs|]. intros e [-> | ->] m; discriminate. }
    destruct r as [[]|e].
    + eexists. split.
      { unfold Home.saveOrder. erewrite bind_run by exact Hput.
        erewrite bind_run by apply publish_run. reflexivity. }
      destruct (isBrowser env && channelDelivers (channel env)); simpl;
        by rewrite ?app_nil_r.
    + unfold Home.saveOrder. by erewrite bind_throws by exact Hput.
  - intros value Hflat Hb. eexists. split.
    { unfold Deliveries.storagePut. rewrite Hflat, Hb. simpl.
      erewrite bind_run; last first.
      { pose proof (readFromLocalStorage_run env orders w) as Hr.
        rewrite Hb in Hr. exact Hr. }
      erewrite bind_run by reflexivity.
      apply notify_run. }
    destruct (channelDelivers (channel env)); simpl; by rewrite <- ?app_assoc.
Qed.

(** ** The dashboard without IndexedDB *)

(** On the fallback the three adapter functions of the dashboard and the
    four of the order-entry page all complete normally. *)
Lemma fallback_operations_complete env w :
  hasIndexedDB env = false →
  (∀ store, result (Home.storage_getAll env store) w
            = Normal (if isBrowser env then stored store (localStorage w) else []))
  ∧ (∀ store value, result (Home.storage_put env store value) w = Normal tt)
  ∧ (∀ store values, result (Home.storage_bulkPut env store values) w = Normal tt)
  ∧ (∀ store key, result (Home.storage_delete env store key) w = Normal tt)
  ∧ result (Deliveries.storageGetAll env Deliveries.orders) w
    = Normal (if isBrowser env then stored orders (localStorage w) else [])
  ∧ (∀ value, result (Deliveries.storagePut env Deliveries.orders value) w = Normal tt)
  ∧ (∀ key, result (Deliveries.storageDelete env Deliveries.orders key) w = Normal tt).
Proof.
  intros Hflat. unfold result.
  assert (Deliveries.readFromLocalStorage env Deliveries.orders w
          = (Normal (if isBrowser env then stored orders (localStorage w) else []), w))
    as Hread by apply (readFromLocalStorage_run env orders w).
  repeat split.
  - intros store. by rewrite flat_getAll_run.
  - intros store value. destruct (isBrowser env) eqn:Hb.
    + by rewrite flat_put_run.
    + by rewrite flat_put_ssr.
  - intros store values. unfold Home.storage_bulkPut. rewrite Hflat.
    by destruct (isBrowser env).
  - intros store key. destruct (isBrowser env) eqn:Hb.
    + by rewrite flat_delete_run.
    + by rewrite flat_delete_ssr.
  - unfold Deliveries.storageGetAll. by rewrite Hflat, Hread.
  - intros value. unfold Deliveries.storagePut. rewrite Hflat.
    destruct (isBrowser env) eqn:Hb; [|done]. simpl.
    erewrite bind_run by exact Hread. erewrite bind_run by reflexivity.
    by rewrite notify_run.
  - intros key. unfold Deliveries.storageDelete. rewrite Hflat.
    destruct (isBrowser env) eqn:Hb; [|done]. simpl.
    erewrite bind_run by exact Hread. erewrite bind_run by reflexivity.
    by rewrite notify_run.
Qed.

(** [removeOrder] calls [idbDelete] itself, not [storageDelete]: without
    IndexedDB the call throws, the page reports the failure, and nothing is
    removed anywhere. *)
Lemma removeOrder_without_indexedDB env id w :
  hasIndexedDB env = false → confirmAnswer env = true →
  Deliveries.idbDelete env Deliveries.orders id w = (Throw IndexedDBUnsupported, w)
  ∧ ∃ w', Deliveries.removeOrder env id w = (Normal tt, w')
          ∧ dash_message (dashboard w') = Some (error "Falha ao remover.")
          ∧ dash_orders (dashboard w') = dash_orders (dashboard w)
          ∧ localStorage w' = localStorage w ∧ cakeDB w' = cakeDB w
          ∧ trace w' = trace w.
Proof.
  intros Hflat Hconfirm.
  assert (∀ w0, Deliveries.idbDelete env Deliveries.orders id w0
                = (Throw IndexedDBUnsupported, w0)) as Hthrow.
  { intros w0. unfold Deliveries.idbDelete, Deliveries.getDB. by rewrite Hflat. }
  split; [apply Hthrow|].
  unfold Deliveries.removeOrder. rewrite Hconfirm. simpl.
  unfold tryFinally, tryCatch.
  erewrite bind_run by reflexivity. erewrite bind_throws by apply Hthrow.
  eexists. split; [reflexivity|]. done.
Qed.

(** C5 fails on the code for the dashboard's order removal.  On a browser
    without IndexedDB whose fallback holds the order o1: [idbDelete] throws,
    [removeOrder] ends with the toast 'Falha ao remover.' and o1 is still
    stored; [storageDelete], which [removeOrder] does not call, completes and
    removes it. *)
Theorem removeOrder_fails_on_fallback :
  hasIndexedDB flatEnv = false
  ∧ result (Deliveries.storageGetAll flatEnv Deliveries.orders) shopWorld
    = Normal [mariasCake]
  ∧ result (Deliveries.idbDelete flatEnv Deliveries.orders "o1") shopWorld
    = Throw IndexedDBUnsupported
  ∧ dash_message (dashboard (after (Deliveries.removeOrder flatEnv "o1") shopWorld))
    = Some (error "Falha ao remover.")
  ∧ result (Deliveries.storageGetAll flatEnv Deliveries.orders)
      (after (Deliveries.removeOrder flatEnv "o1") shopWorld)
    = Normal [mariasCake]
  ∧ result (Deliveries.storageDelete flatEnv Deliveries.orders "o1") shopWorld
    = Normal tt
  ∧ result (Deliveries.storageGetAll flatEnv Deliveries.orders)
      (after (Deliveries.storageDelete flatEnv Deliveries.orders "o1") shopWorld)
    = Normal [].
Proof. repeat split. Qed.

(** * Further properties of the storage adapter *)

(** ** The two backends hold the same records *)

Section Corresponds.
Context (store : StoreName).
Implicit Types (l : list (StoreMap store)) (m : gmap string (StoreMap store)).

Local Abbreviation key := (Home.getKeyValue store).

Lemma elem_of_upsert v l x :
  NoDup (key <$> l) →
  x ∈ upsert store v l ↔ x = v ∨ (x ∈ l ∧ key x ≠ key v).
Proof.
  intros Hnd.
  destruct (upsert_spec store v l) as [(pre & old & post & -> & Hold & Hpre & ->) | [Hl ->]].
  - rewrite fmap_app, fmap_cons in Hnd.
    apply NoDup_app in Hnd as (_ & Hdisj & Hpost).
    apply NoDup_cons in Hpost as [Hold_post _].
    rewrite Forall_forall in Hpre.
    assert (∀ y, y ∈ post → key y ≠ key v) as Hpost'.
    { intros y Hy Heq. apply Hold_post. rewrite Hold, <- Heq.
      apply list_elem_of_fmap. by exists y. }
    rewrite !elem_of_app, !elem_of_cons. split.
    + intros [Hx | [-> | Hx]]; [right | by left | right].
      * split; [by left | by apply Hpre].
      * split; [by right; right | by apply Hpost'].
    + intros [-> | [[Hx | [-> | Hx]] Hne]]; [by right; left | by left | done | by right; right].
  - rewrite Forall_forall in Hl.
    rewrite elem_of_app, list_elem_of_singleton. split.
    + intros [Hx | ->]; [right | by left]. split; [done | by apply Hl].
    + intros [-> | [Hx _]]; [by right | by left].
Qed.

Lemma corresponds_put v l m :
  corresponds store l m →
  corresponds store (upsert store v l) (store_put store v m).
Proof.
  intros [Hnd Hm]. split; [by apply upsert_NoDup|].
  intros k x. unfold store_put. rewrite keyPath_getKeyValue.
  rewrite elem_of_upsert by done.
  destruct (decide (key v = k)) as [<-|Hne].
  - rewrite lookup_insert_eq. split.
    + intros [= <-]. split; [by left | done].
    + intros [[-> | [_ Hx]] Hk]; [done | by destruct Hx].
  - rewrite lookup_insert_ne by done. rewrite Hm. split.
    + intros [Hx <-]. split; [|done]. right. split; [done | congruence].
    + intros [[-> | [Hx _]] Hk]; [done | by split].
Qed.

Lemma corresponds_delete k l m :
  corresponds store l m →
  corresponds store (filter (λ x, key x ≠ k) l) (delete k m).
Proof.
  intros [Hnd Hm]. split; [by apply filter_NoDup_keys|].
  intros k' x. rewrite list_elem_of_filter.
  destruct (decide (k = k')) as [<-|Hne].
  - rewrite lookup_delete_eq. split; [done | by intros [[Hx _] Hk]].
  - rewrite lookup_delete_ne by done. rewrite Hm. split.
    + intros [Hx <-]. by repeat split.
    + intros [[_ Hx] Hk]. by split.
Qed.

Lemma corresponds_getAll l m :
  corresponds store l m → (map_to_list m).*2 ≡ₚ l.
Proof.
  intros [Hnd Hm].
  assert (map_to_list m ≡ₚ (λ v, (key v, v)) <$> l) as ->.
  { apply NoDup_Permutation.
    - apply NoDup_map_to_list.
    - apply (NoDup_fmap_1 fst). by rewrite <- list_fmap_compose.
    - intros [k v]. rewrite elem_of_map_to_list, Hm, list_elem_of_fmap. split.
      + intros [Hv <-]. by exists v.
      + intros (y & [= -> ->] & Hy). by split. }
  rewrite <- list_fmap_compose. by rewrite list_fmap_id.
Qed.

Lemma corresponds_empty : corresponds store [] ∅.
Proof.
  split; [apply NoDup_nil_2|]. intros k v. rewrite lookup_empty. split; [done|].
  by intros [Hv%elem_of_nil _].
Qed.
End Corresponds.

(** X1.  Backend transparency.  Start from a fallback collection and an
    object store that hold the same records, and run the same sequence of
    puts and deletes through [storage], once routed to the fallback and once
    to IndexedDB (no engine fault).  Both runs complete, and getAll returns
    the same records on both, up to their order. *)
Theorem backends_agree envF envI store (ops : list (StorageOp store)) wF wI :
  hasIndexedDB envF = false → isBrowser envF = true →
  hasIndexedDB envI = true → idbOpenFails envI = false →
  corresponds store (stored store (localStorage wF)) (objectStore store (cakeDB wI)) →
  ∃ wF' wI' allF allI,
    runOps envF store ops wF = (Normal tt, wF')
    ∧ runOps envI store ops wI = (Normal tt, wI')
    ∧ Home.storage_getAll envF store wF' = (Normal allF, wF')
    ∧ Home.storage_getAll envI store wI' = (Normal allI, wI')
    ∧ allF ≡ₚ allI
    ∧ corresponds store (stored store (localStorage wF')) (objectStore store (cakeDB wI')).
Proof.
  intros HF Hb HI Hopen. revert wF wI.
  induction ops as [|op rest IH]; intros wF wI Hc.
  - exists wF, wI. eexists _, _. split; [done|]. split; [done|].
    split; [rewrite flat_getAll_run, Hb by done; reflexivity|].
    split; [by apply idb_getAll_run|].
    split; [|done]. unfold store_getAll. by rewrite (corresponds_getAll store _ _ Hc).
  - simpl. destruct op as [value|key]; simpl.
    + erewrite bind_run by (by apply flat_put_run).
      erewrite (bind_run (Home.storage_put envI store value)) by (by apply idb_put_run).
      apply IH. cbn [localStorage cakeDB emit withLocalStorage withCakeDB].
      rewrite stored_setItem_same, objectStore_set_same. by apply corresponds_put.
    + erewrite bind_run by (by apply flat_delete_run).
      erewrite (bind_run (Home.storage_delete envI store key)) by (by apply idb_delete_run).
      apply IH. cbn [localStorage cakeDB emit withLocalStorage withCakeDB].
      rewrite stored_setItem_same, objectStore_set_same. by apply corresponds_delete.
Qed.

Lemma backends_agree_witness :
  hasIndexedDB flatEnv = false ∧ isBrowser flatEnv = true
  ∧ hasIndexedDB idbEnv = true ∧ idbOpenFails idbEnv = false
  ∧ corresponds flavors (stored flavors (localStorage emptyWorld))
      (objectStore flavors (cakeDB emptyWorld))
  ∧ ∃ wF' wI' allF allI,
    runOps flatEnv flavors sampleOps emptyWorld = (Normal tt, wF')
    ∧ runOps idbEnv flavors sampleOps emptyWorld = (Normal tt, wI')
    ∧ Home.storage_getAll flatEnv flavors wF' = (Normal allF, wF')
    ∧ Home.storage_getAll idbEnv flavors wI' = (Normal allI, wI')
    ∧ allF ≡ₚ allI
    ∧ corresponds flavors (stored flavors (localStorage wF'))
        (objectStore flavors (cakeDB wI')).
Proof.
  split; [reflexivity|]. split; [reflexivity|]. split; [reflexivity|].
  split; [reflexivity|]. split; [apply (corresponds_empty flavors)|].
  apply (backends_agree flatEnv idbEnv flavors sampleOps emptyWorld emptyWorld);
    [reflexivity | reflexivity | reflexivity | reflexivity
    | apply (corresponds_empty flavors)].
Defined.

Lemma wfDatabase_corresponds store db :
  wfDatabase db → corresponds store (store_getAll store db) (objectStore store db).
Proof.
  intros Hwf. unfold store_getAll.
  assert (∀ i x, objectStore store db !! i = Some x ↔
                 x ∈ (map_to_list (objectStore store db)).*2
                 ∧ Home.getKeyValue store x = i) as Hiff.
  { intros i x. split.
    - intros Hx. split; [|rewrite <- keyPath_getKeyValue; by apply Hwf].
      apply list_elem_of_fmap. exists (i, x). split; [done|].
      by apply elem_of_map_to_list.
    - intros [Hin <-]. apply list_elem_of_fmap in Hin as ([j y] & -> & Hin).
      apply elem_of_map_to_list in Hin. simpl.
      by rewrite <- keyPath_getKeyValue, (Hwf store j y Hin). }
  split; [|exact Hiff].
  assert ((Home.getKeyValue store <$> (map_to_list (objectStore store db)).*2)
          = (map_to_list (objectStore store db)).*1) as ->.
  { rewrite <- list_fmap_compose. apply list_fmap_ext.
    intros _ [j y] Hin%list_elem_of_lookup_2%elem_of_map_to_list. simpl.
    by rewrite <- keyPath_getKeyValue, (Hwf store j y Hin). }
  apply NoDup_fst_map_to_list.
Qed.

Lemma store_put_getAll store (R : StoreMap store) db :
  wfDatabase db →
  store_getAll store (setObjectStore store (store_put store R (objectStore store db)) db)
  ≡ₚ upsert store R (store_getAll store db).
Proof.
  intros Hwf. unfold store_getAll at 1. rewrite objectStore_set_same.
  apply corresponds_getAll, corresponds_put. by apply wfDatabase_corresponds.
Qed.

(** X2.  On IndexedDB, without an engine fault and with every record under
    its own key, a put and a delete change getAll as they do on the fallback,
    up to the order of the records: after put(kind, R) getAll is the prior
    getAll with R written over the record of its key or added, after
    delete(kind, key) it is the prior getAll without the records of that
    key.  Exactly one record then carries R's key, R itself. *)
Theorem idb_put_delete_as_fallback env store (R : StoreMap store) key w :
  hasIndexedDB env = true → idbOpenFails env = false → wfDatabase (cakeDB w) →
  ∃ prior wp allp wd alld,
    Home.storage_getAll env store w = (Normal prior, w)
    ∧ Home.storage_put env store R w = (Normal tt, wp)
    ∧ Home.storage_getAll env store wp = (Normal allp, wp)
    ∧ allp ≡ₚ upsert store R prior
    ∧ filter (λ x, Home.getKeyValue store x = Home.getKeyValue store R) allp = [R]
    ∧ wfDatabase (cakeDB wp)
    ∧ Home.storage_delete env store key w = (Normal tt, wd)
    ∧ Home.storage_getAll env store wd = (Normal alld, wd)
    ∧ alld ≡ₚ filter (λ x, Home.getKeyValue store x ≠ key) prior
    ∧ wfDatabase (cakeDB wd).
Proof.
  intros Hidb Hopen Hwf.
  pose proof (wfDatabase_corresponds store _ Hwf) as Hc.
  pose proof (corresponds_put store R _ _ Hc) as Hp.
  pose proof (corresponds_delete store key _ _ Hc) as Hd.
  eexists _, _, _, _, _. split; [by apply idb_getAll_run|].
  split; [by apply idb_put_run|]. split; [by apply idb_getAll_run|].
  assert (store_getAll store
            (setObjectStore store (store_put store R (objectStore store (cakeDB w))) (cakeDB w))
          ≡ₚ upsert store R (store_getAll store (cakeDB w))) as Hperm.
  { unfold store_getAll at 1. rewrite objectStore_set_same.
    by apply corresponds_getAll. }
  split; [exact Hperm|]. split.
  { cbn [cakeDB emit withCakeDB].
    assert (NoDup (Home.getKeyValue store <$> store_getAll store (cakeDB w))) as Hnd
      by apply Hc.
    pose proof (upsert_same_key store R _ (NoDup_keyCount store _ _ Hnd)) as Hone.
    apply Permutation_singleton_r. rewrite Hperm. by rewrite Hone. }
  split; [by apply wfDatabase_put|].
  split; [by apply idb_delete_run|]. split; [by apply idb_getAll_run|].
  split; [|by apply wfDatabase_delete].
  unfold store_getAll at 1. cbn [cakeDB emit withCakeDB].
  rewrite objectStore_set_same. by apply corresponds_getAll.
Qed.

Lemma stockedDB_wf : wfDatabase stockedDB.
Proof.
  unfold stockedDB. cbv zeta.
  apply wfDatabase_put, wfDatabase_put, wfDatabase_put, wfDatabase_empty.
Qed.

Lemma idb_put_delete_as_fallback_witness :
  hasIndexedDB idbEnv = true ∧ idbOpenFails idbEnv = false
  ∧ wfDatabase (cakeDB stockedWorld)
  ∧ result (Home.storage_getAll idbEnv flavors) stockedWorld
    = Normal [chocolate50; morango60]
  ∧ result (Home.storage_getAll idbEnv flavors)
      (after (Home.storage_put idbEnv flavors chocolate70) stockedWorld)
    = Normal [chocolate70; morango60]
  ∧ result (Home.storage_getAll idbEnv flavors)
      (after (Home.storage_delete idbEnv flavors "Chocolate") stockedWorld)
    = Normal [morango60]
  ∧ ∃ prior wp allp wd alld,
    Home.storage_getAll idbEnv flavors stockedWorld = (Normal prior, stockedWorld)
    ∧ Home.storage_put idbEnv flavors chocolate70 stockedWorld = (Normal tt, wp)
    ∧ Home.storage_getAll idbEnv flavors wp = (Normal allp, wp)
    ∧ allp ≡ₚ upsert flavors chocolate70 prior
    ∧ filter (λ x, Home.getKeyValue flavors x = Home.getKeyValue flavors chocolate70) allp
      = [chocolate70]
    ∧ wfDatabase (cakeDB wp)
    ∧ Home.storage_delete idbEnv flavors "Chocolate" stockedWorld = (Normal tt, wd)
    ∧ Home.storage_getAll idbEnv flavors wd = (Normal alld, wd)
    ∧ alld ≡ₚ filter (λ x, Home.getKeyValue flavors x ≠ "Chocolate") prior
    ∧ wfDatabase (cakeDB wd).
Proof.
  split; [reflexivity|]. split; [reflexivity|]. split; [exact stockedDB_wf|].
  split; [vm_compute; reflexivity|]. split; [vm_compute; reflexivity|].
  split; [vm_compute; reflexivity|].
  apply (idb_put_delete_as_fallback idbEnv flavors chocolate70 "Chocolate" stockedWorld);
    [reflexivity | reflexivity | exact stockedDB_wf].
Defined.

(** X3.  A put followed by the delete of its key is a round trip: when no
    stored record carries R's key, getAll after put(kind, R) and
    delete(kind, key of R) returns what it returned before, on either backend
    (no engine fault; on IndexedDB, every record under its own key). *)
Theorem put_then_delete_restores env store (R : StoreMap store) w prior :
  idbOpenFails env = false → wfDatabase (cakeDB w) →
  Home.storage_getAll env store w = (Normal prior, w) →
  Forall (λ x, Home.getKeyValue store x ≠ Home.getKeyValue store R) prior →
  ∃ w1 w2,
    Home.storage_put env store R w = (Normal tt, w1)
    ∧ Home.storage_delete env store (Home.getKeyValue store R) w1 = (Normal tt, w2)
    ∧ Home.storage_getAll env store w2 = (Normal prior, w2).
Proof.
  intros Hopen Hwf Hall Hfresh. destruct (hasIndexedDB env) eqn:Hidb.
  - rewrite idb_getAll_run in Hall by done. injection Hall as <-.
    eexists _, _. split; [by apply idb_put_run|]. split; [by apply idb_delete_run|].
    rewrite idb_getAll_run by done. do 2 f_equal.
    unfold store_getAll. cbn [cakeDB emit withCakeDB].
    rewrite !objectStore_set_same. unfold store_put.
    change (keyPath store R) with (Home.getKeyValue store R).
    rewrite delete_insert_eq, delete_id; [done|].
    destruct (objectStore store (cakeDB w) !! Home.getKeyValue store R) as [x|] eqn:Hx;
      [|done].
    exfalso. rewrite Forall_forall in Hfresh. apply (Hfresh x).
    + apply list_elem_of_fmap. exists (Home.getKeyValue store R, x).
      split; [done|]. by apply elem_of_map_to_list.
    + rewrite <- keyPath_getKeyValue. by apply (Hwf store).
  - destruct (isBrowser env) eqn:Hb.
    + rewrite flat_getAll_run, Hb in Hall by done. injection Hall as <-.
      eexists _, _. split; [by apply flat_put_run|]. split; [by apply flat_delete_run|].
      rewrite flat_getAll_run, Hb by done. do 2 f_equal.
      cbn [localStorage emit withLocalStorage]. rewrite !stored_setItem_same.
      rewrite upsert_others. clear -Hfresh.
      induction Hfresh as [|x l Hx Hl IH]; [done|].
      by rewrite filter_cons_True, IH.
    + rewrite flat_getAll_run, Hb in Hall by done. injection Hall as <-.
      exists w, w. rewrite !flat_put_ssr, flat_delete_ssr by done.
      by rewrite flat_getAll_run, Hb.
Qed.

Lemma put_then_delete_restores_witness :
  idbOpenFails flatEnv = false ∧ wfDatabase (cakeDB shopWorld)
  ∧ Home.storage_getAll flatEnv clients shopWorld = (Normal [maria], shopWorld)
  ∧ Forall (λ x, Home.getKeyValue clients x
                 ≠ Home.getKeyValue clients (mkClient "c2" "Ana" "11888880000")) [maria]
  ∧ ∃ w1 w2,
    Home.storage_put flatEnv clients (mkClient "c2" "Ana" "11888880000") shopWorld
      = (Normal tt, w1)
    ∧ Home.storage_delete flatEnv clients
        (Home.getKeyValue clients (mkClient "c2" "Ana" "11888880000")) w1 = (Normal tt, w2)
    ∧ Home.storage_getAll flatEnv clients w2 = (Normal [maria], w2).
Proof.
  assert (Forall (λ x, Home.getKeyValue clients x
                       ≠ Home.getKeyValue clients (mkClient "c2" "Ana" "11888880000"))
            [maria]) as Hfresh by (repeat constructor; discriminate).
  split; [reflexivity|]. split; [apply wfDatabase_empty|]. split; [reflexivity|].
  split; [exact Hfresh|].
  apply (put_then_delete_restores flatEnv clients (mkClient "c2" "Ana" "11888880000")
           shopWorld [maria]);
    [reflexivity | apply wfDatabase_empty | reflexivity | exact Hfresh].
Defined.

(** ** What an operation on one kind leaves alone *)

Lemma framed_refl store w : framed store w w.
Proof. by repeat split. Qed.

Lemma framed_setItem store text w :
  framed store w (emit (SetItem (lsKeys store)) (withLocalStorage (setItem store text) w)).
Proof.
  repeat split. cbn [localStorage emit withLocalStorage]. unfold setItem.
  by rewrite getItem_writeItem_other.
Qed.

Lemma framed_transaction store f w :
  framed store w (after (transaction store f) w).
Proof.
  repeat split. cbn. by rewrite objectStore_set_other.
Qed.

Lemma getDB_result env :
  ∃ r, ∀ w, Home.getDB env w = (r, w).
Proof.
  unfold Home.getDB. destruct (negb (hasIndexedDB env)); [by eexists|].
  destruct (idbOpenFails env); by eexists.
Qed.

Lemma idb_operation_framed env store f w :
  framed store w (after (_ ← Home.getDB env; transaction store f) w).
Proof.
  unfold after, mbind, JS_bind, bind.
  destruct (getDB_result env) as [[[]|e] Hr]; rewrite Hr; simpl.
  - apply framed_transaction.
  - apply framed_refl.
Qed.

Lemma storage_put_framed env store (value : StoreMap store) w :
  framed store w (after (Home.storage_put env store value) w).
Proof.
  destruct (hasIndexedDB env) eqn:Hidb.
  - unfold Home.storage_put. rewrite Hidb. apply idb_operation_framed.
  - unfold after. destruct (isBrowser env) eqn:Hb.
    + rewrite flat_put_run by done. apply framed_setItem.
    + rewrite flat_put_ssr by done. apply framed_refl.
Qed.

Lemma storage_delete_framed env store key w :
  framed store w (after (Home.storage_delete env store key) w).
Proof.
  destruct (hasIndexedDB env) eqn:Hidb.
  - unfold Home.storage_delete. rewrite Hidb. apply idb_operation_framed.
  - unfold after. destruct (isBrowser env) eqn:Hb.
    + rewrite flat_delete_run by done. apply framed_setItem.
    + rewrite flat_delete_ssr by done. apply framed_refl.
Qed.

Lemma storage_bulkPut_framed env store (values : list (StoreMap store)) w :
  framed store w (after (Home.storage_bulkPut env store values) w).
Proof.
  destruct (hasIndexedDB env) eqn:Hidb.
  - unfold Home.storage_bulkPut. rewrite Hidb. apply idb_operation_framed.
  - unfold after, Home.storage_bulkPut. rewrite Hidb.
    destruct (isBrowser env); [apply framed_setItem | apply framed_refl].
Qed.

Lemma getAll_framed env store store' w w' :
  framed store w w' → store' ≠ store →
  result (Home.storage_getAll env store') w' = result (Home.storage_getAll env store') w.
Proof.
  intros [Hother _] Hne. destruct (Hother store' Hne) as [Hdb Hls].
  unfold result, Home.storage_getAll. destruct (hasIndexedDB env).
  - unfold Home.idbGetAll, mbind, JS_bind, bind.
    destruct (getDB_result env) as [r Hr]. rewrite !Hr.
    destruct r as [[]|e]; simpl; [|done].
    unfold store_getAll. by rewrite Hdb.
  - rewrite !readFromLocalStorage_run. simpl. unfold stored. by rewrite Hls.
Qed.

(** X4.  A put, a bulkPut or a delete on one kind never changes what getAll
    returns for another kind, nor the state of either page, in any
    environment: routed to either backend, succeeding or failing. *)
Theorem other_kinds_untouched env store store' w :
  store' ≠ store →
  (∀ value,
     result (Home.storage_getAll env store') (after (Home.storage_put env store value) w)
     = result (Home.storage_getAll env store') w
     ∧ home (after (Home.storage_put env store value) w) = home w
     ∧ dashboard (after (Home.storage_put env store value) w) = dashboard w)
  ∧ (∀ values,
     result (Home.storage_getAll env store') (after (Home.storage_bulkPut env store values) w)
     = result (Home.storage_getAll env store') w
     ∧ home (after (Home.storage_bulkPut env store values) w) = home w
     ∧ dashboard (after (Home.storage_bulkPut env store values) w) = dashboard w)
  ∧ (∀ key,
     result (Home.storage_getAll env store') (after (Home.storage_delete env store key) w)
     = result (Home.storage_getAll env store') w
     ∧ home (after (Home.storage_delete env store key) w) = home w
     ∧ dashboard (after (Home.storage_delete env store key) w) = dashboard w).
Proof.
  intros Hne. repeat split.
  - apply (getAll_framed env store); [apply storage_put_framed | done].
  - apply (storage_put_framed env store value w).
  - apply (storage_put_framed env store value w).
  - apply (getAll_framed env store); [apply storage_bulkPut_framed | done].
  - apply (storage_bulkPut_framed env store values w).
  - apply (storage_bulkPut_framed env store values w).
  - apply (getAll_framed env store); [apply storage_delete_framed | done].
  - apply (storage_delete_framed env store key w).
  - apply (storage_delete_framed env store key w).
Qed.

Lemma other_kinds_untouched_witness :
  orders ≠ clients
  ∧ (∀ value,
     result (Home.storage_getAll flatEnv orders)
       (after (Home.storage_put flatEnv clients value) shopWorld)
     = result (Home.storage_getAll flatEnv orders) shopWorld
     ∧ home (after (Home.storage_put flatEnv clients value) shopWorld) = home shopWorld
     ∧ dashboard (after (Home.storage_put flatEnv clients value) shopWorld)
       = dashboard shopWorld)
  ∧ (∀ values,
     result (Home.storage_getAll flatEnv orders)
       (after (Home.storage_bulkPut flatEnv clients values) shopWorld)
     = result (Home.storage_getAll flatEnv orders) shopWorld
     ∧ home (after (Home.storage_bulkPut flatEnv clients values) shopWorld) = home shopWorld
     ∧ dashboard (after (Home.storage_bulkPut flatEnv clients values) shopWorld)
       = dashboard shopWorld)
  ∧ (∀ key,
     result (Home.storage_getAll flatEnv orders)
       (after (Home.storage_delete flatEnv clients key) shopWorld)
     = result (Home.storage_getAll flatEnv orders) shopWorld
     ∧ home (after (Home.storage_delete flatEnv clients key) shopWorld) = home shopWorld
     ∧ dashboard (after (Home.storage_delete flatEnv clients key) shopWorld)
       = dashboard shopWorld).
Proof.
  split; [discriminate|].
  apply (other_kinds_untouched flatEnv clients orders shopWorld). discriminate.
Defined.

(** ** Saving an order and reading it back *)

Lemma elem_of_upsert_same store (v : StoreMap store) l : v ∈ upsert store v l.
Proof.
  destruct (upsert_spec store v l) as [(pre & old & post & _ & _ & _ & ->) | [_ ->]];
    rewrite elem_of_app; right; left.
Qed.

Lemma storage_put_getAll env store (R : StoreMap store) w prior :
  idbOpenFails env = false → isBrowser env = true → wfDatabase (cakeDB w) →
  Home.storage_getAll env store w = (Normal prior, w) →
  ∃ w' all, Home.storage_put env store R w = (Normal tt, w')
    ∧ (∀ t, Home.storage_getAll env store
              (mkWorld (localStorage w') (cakeDB w') t (home w') (dashboard w'))
            = (Normal all, mkWorld (localStorage w') (cakeDB w') t (home w') (dashboard w')))
    ∧ all ≡ₚ upsert store R prior.
Proof.
  intros Hopen Hb Hwf Hall. destruct (hasIndexedDB env) eqn:Hidb.
  - rewrite idb_getAll_run in Hall by done. injection Hall as <-.
    eexists _, (store_getAll store
                  (setObjectStore store
                     (store_put store R (objectStore store (cakeDB w))) (cakeDB w))).
    split; [by apply idb_put_run|]. split.
    + intros t. rewrite idb_getAll_run by done. reflexivity.
    + by apply store_put_getAll.
  - rewrite flat_getAll_run, Hb in Hall by done. injection Hall as <-.
    eexists _, _. split; [by apply flat_put_run|]. split; [|reflexivity].
    intros t. rewrite flat_getAll_run, Hb by done.
    cbn [localStorage emit withLocalStorage]. by rewrite stored_setItem_same.
Qed.

(** X5.  An order saved by [saveOrder] is there to read: without an engine
    fault, on either backend, [saveOrder] returns the order it built and
    getAll('orders') then lists it, together with every order stored before
    under another id; when no stored order had the new id, getAll is the
    prior list with the new order added. *)
Theorem saved_order_is_listed env trim form id createdAt w prior :
  idbOpenFails env = false → isBrowser env = true → wfDatabase (cakeDB w) →
  Home.storage_getAll env orders w = (Normal prior, w) →
  ∃ w' all,
    Home.saveOrder env trim form id createdAt w
      = (Normal (Home.buildOrder trim form id createdAt), w')
    ∧ Home.storage_getAll env orders w' = (Normal all, w')
    ∧ Home.buildOrder trim form id createdAt ∈ all
    ∧ (∀ o, o ∈ prior → Order_id o ≠ id → o ∈ all)
    ∧ (Forall (λ o, Order_id o ≠ id) prior →
       all ≡ₚ prior ++ [Home.buildOrder trim form id createdAt]).
Proof.
  intros Hopen Hb Hwf Hall.
  destruct (storage_put_getAll env orders (Home.buildOrder trim form id createdAt)
              w prior Hopen Hb Hwf Hall) as (w1 & all & Hput & Hget & Hperm).
  assert (∃ w', Home.saveOrder env trim form id createdAt w
                = (Normal (Home.buildOrder trim form id createdAt), w')
                ∧ Home.storage_getAll env orders w' = (Normal all, w')) as (w' & Hsave & Hget').
  { unfold Home.saveOrder. erewrite bind_run by exact Hput.
    erewrite bind_run by apply publish_run.
    eexists. split; [reflexivity|].
    destruct (isBrowser env && channelDelivers (channel env)).
    - apply (Hget (trace w1 ++ [Posted (mkMessage "orders_changed" id)])).
    - destruct w1. apply (Hget trace0). }
  exists w', all. split; [done|]. split; [done|]. split.
  { rewrite Hperm. apply elem_of_upsert_same. }
  split.
  - intros o Ho Hne. rewrite Hperm.
    assert (o ∈ filter (λ x, Home.getKeyValue orders x
                             ≠ Home.getKeyValue orders (Home.buildOrder trim form id createdAt))
              (upsert orders (Home.buildOrder trim form id createdAt) prior)) as Hin.
    { rewrite upsert_others. by apply list_elem_of_filter. }
    by apply list_elem_of_filter in Hin as [_ ?].
  - intros Hfresh. rewrite Hperm. rewrite upsert_fresh; [done|].
    intros (o & Hid & Ho)%list_elem_of_fmap.
    rewrite Forall_forall in Hfresh. by apply (Hfresh o Ho).
Qed.

Lemma saved_order_is_listed_witness :
  idbOpenFails flatEnv = false ∧ isBrowser flatEnv = true
  ∧ wfDatabase (cakeDB shopWorld)
  ∧ Home.storage_getAll flatEnv orders shopWorld = (Normal [mariasCake], shopWorld)
  ∧ ∃ w' all,
    Home.saveOrder flatEnv (λ s, s) sampleForm "o2" "2025-01-02T09:00:00.000Z" shopWorld
      = (Normal (Home.buildOrder (λ s, s) sampleForm "o2" "2025-01-02T09:00:00.000Z"), w')
    ∧ Home.storage_getAll flatEnv orders w' = (Normal all, w')
    ∧ Home.buildOrder (λ s, s) sampleForm "o2" "2025-01-02T09:00:00.000Z" ∈ all
    ∧ (∀ o, o ∈ [mariasCake] → Order_id o ≠ "o2" → o ∈ all)
    ∧ (Forall (λ o, Order_id o ≠ "o2") [mariasCake] →
       all ≡ₚ [mariasCake] ++ [Home.buildOrder (λ s, s) sampleForm "o2"
                                  "2025-01-02T09:00:00.000Z"]).
Proof.
  split; [reflexivity|]. split; [reflexivity|]. split; [apply wfDatabase_empty|].
  split; [reflexivity|].
  apply (saved_order_is_listed flatEnv (λ s, s) sampleForm "o2"
           "2025-01-02T09:00:00.000Z" shopWorld [mariasCake]);
    [reflexivity | reflexivity | apply wfDatabase_empty | reflexivity].
Defined.

(** ** Handlers catch what the storage layer throws *)

Lemma guarded_completes (body : JS unit) (handler : Error → JS unit) (fin : JS unit) :
  (∀ e w, ∃ w', handler e w = (Normal tt, w')) →
  (∀ w, ∃ w', fin w = (Normal tt, w')) →
  ∀ w, ∃ w', tryFinally (tryCatch body handler) fin w = (Normal tt, w').
Proof.
  intros Hh Hf w. unfold tryFinally, tryCatch.
  destruct (body w) as [[[]|e] w1].
  - destruct (Hf w1) as [w2 ->]. by exists w2.
  - destruct (Hh e w1) as [w2 ->]. destruct (Hf w2) as [w3 ->]. by exists w3.
Qed.

Lemma when_modify_completes b f w :
  ∃ w', when b (modify f) w = (Normal tt, w').
Proof. destruct b; by eexists. Qed.

(** X6.  No handler of the two pages lets a storage failure escape: in every
    environment and every world (IndexedDB absent, failing to open, or
    working), [init], [handleRemoveClient], [load], [updateStatus],
    [updateDate] and [removeOrder] complete normally.  [saveOrder] is the
    exception: it rethrows a failed write, here with IndexedDB failing to
    open. *)
Theorem handlers_complete env w :
  (∀ ignore, result (Home.init env ignore) w = Normal tt)
  ∧ (∀ clientId, result (Home.handleRemoveClient env clientId) w = Normal tt)
  ∧ (∀ ignore, result (Deliveries.load env ignore) w = Normal tt)
  ∧ (∀ id status, result (Deliveries.updateStatus env id status) w = Normal tt)
  ∧ (∀ id newDate, result (Deliveries.updateDate env id newDate) w = Normal tt)
  ∧ (∀ id, result (Deliveries.removeOrder env id) w = Normal tt)
  ∧ (hasIndexedDB env = true → idbOpenFails env = true →
     ∀ trim form id createdAt,
       Home.saveOrder env trim form id createdAt w = (Throw OpenFailed, w)).
Proof.
  unfold result. repeat split.
  - intros ignore. unfold Home.init.
    edestruct guarded_completes as [w' ->]; [| |done].
    + intros e w0. apply when_modify_completes.
    + intros w0. apply when_modify_completes.
  - intros clientId. unfold Home.handleRemoveClient.
    edestruct guarded_completes as [w' ->]; [| |done]; intros; by eexists.
  - intros ignore. unfold Deliveries.load.
    erewrite bind_run by reflexivity.
    edestruct guarded_completes as [w' ->]; [| |done].
    + intros e w0. apply when_modify_completes.
    + intros w0. apply when_modify_completes.
  - intros id status. unfold Deliveries.updateStatus.
    edestruct guarded_completes as [w' ->]; [| |done]; intros; by eexists.
  - intros id newDate. unfold Deliveries.updateDate.
    edestruct guarded_completes as [w' ->]; [| |done]; intros; by eexists.
  - intros id. unfold Deliveries.removeOrder.
    destruct (negb (confirmAnswer env)); [done|].
    edestruct guarded_completes as [w' ->]; [| |done]; intros; by eexists.
  - intros Hidb Hopen trim form id createdAt.
    unfold Home.saveOrder. erewrite bind_throws; [done|].
    unfold Home.storage_put, Home.idbPut, Home.getDB. by rewrite Hidb, Hopen.
Qed.

(** * Further properties of the start-up *)

Lemma framed_trans store w1 w2 w3 :
  framed store w1 w2 → framed store w2 w3 → framed store w1 w3.
Proof.
  intros (H1 & Hh1 & Hd1) (H2 & Hh2 & Hd2). repeat split; try congruence.
  - destruct (H1 store' H) as [Ha _]. destruct (H2 store' H) as [Hb _]. congruence.
  - destruct (H1 store' H) as [_ Ha]. destruct (H2 store' H) as [_ Hb]. congruence.
Qed.

Lemma framed_removeItem store w :
  framed store w (emit (RemoveItem (lsKeys store)) (withLocalStorage (removeItem store) w)).
Proof.
  repeat split. cbn [localStorage emit withLocalStorage]. unfold removeItem.
  by rewrite getItem_writeItem_other.
Qed.

(** The migration block never throws, in any environment, and touches only
    its own kind. *)
Lemma migrate_completes env store (held : list (StoreMap store)) w :
  ∃ r w', migrate env store held w = (Normal r, w') ∧ framed store w w'.
Proof.
  unfold migrate.
  destruct (hasIndexedDB env && (length held =? 0)%nat);
    [|eexists _, _; split; [done | apply framed_refl]].
  unfold localStorage_getItem, localStorage_removeItem. js_unfold. simpl.
  destruct (getItem (localStorage w) store) as [[| | |items]|]; simpl;
    try (eexists _, _; split; [done | apply framed_refl]);
    try (eexists _, _; split; [done | apply framed_removeItem]).
  destruct (0 <? length items)%nat; simpl.
  - pose proof (storage_bulkPut_framed env store items w) as Hf. unfold after in Hf.
    destruct (Home.storage_bulkPut env store items w) as [[[]|e] w1]; simpl in *.
    + eexists _, _. split; [done|].
      eapply framed_trans; [exact Hf | apply framed_removeItem].
    + by eexists _, _.
  - eexists _, _. split; [done | apply framed_removeItem].
Qed.

(** With nothing to copy, the block leaves the database alone and cleans the
    key up as [afterCleanup] says. *)
Lemma migrate_nothing env store w :
  hasIndexedDB env = true →
  stored store (localStorage w) = [] →
  ∃ w', migrate env store [] w = (Normal [], w')
    ∧ cakeDB w' = cakeDB w ∧ home w' = home w ∧ dashboard w' = dashboard w
    ∧ posted (trace w') = posted (trace w)
    ∧ getItem (localStorage w') store = afterCleanup (getItem (localStorage w) store)
    ∧ ∀ store', store' ≠ store →
        getItem (localStorage w') store' = getItem (localStorage w) store'.
Proof.
  intros Hidb Hempty. unfold migrate. rewrite Hidb. simpl.
  unfold localStorage_getItem, localStorage_removeItem. js_unfold. simpl.
  unfold stored in Hempty.
  assert (∀ w0, posted (trace w0 ++ [RemoveItem (lsKeys store)]) = posted (trace w0))
    as Hpost.
  { intros w0. unfold posted. rewrite omap_app. simpl. by rewrite app_nil_r. }
  destruct (getItem (localStorage w) store) as [[| | |items]|] eqn:Hcell; simpl;
    try (exists w; by rewrite ?Hcell).
  - eexists. split; [done|]. cbn. repeat split; try done.
    + unfold removeItem. by rewrite getItem_writeItem_same.
    + intros store' Hne. unfold removeItem. by rewrite getItem_writeItem_other.
  - subst items. simpl. eexists. split; [done|]. cbn. repeat split; try done.
    + unfold removeItem. by rewrite getItem_writeItem_same.
    + intros store' Hne. unfold removeItem. by rewrite getItem_writeItem_other.
Qed.

Lemma storage_getAll_run env store w :
  idbOpenFails env = false →
  ∃ all, Home.storage_getAll env store w = (Normal all, w).
Proof.
  intros Hopen. destruct (hasIndexedDB env) eqn:Hidb.
  - eexists. by apply idb_getAll_run.
  - eexists. by apply flat_getAll_run.
Qed.

(** The clients half of [init], on either backend without an engine fault. *)
Lemma init_clients_half env ignore w :
  idbOpenFails env = false →
  ∃ w', (storedClients ← Home.storage_getAll env clients;
         storedClients ← migrate env clients storedClients;
         when (negb ignore) (Home.setClients (λ _, storedClients))) w
        = (Normal tt, w')
    ∧ objectStore flavors (cakeDB w') = objectStore flavors (cakeDB w)
    ∧ getItem (localStorage w') flavors = getItem (localStorage w) flavors
    ∧ home_flavors (home w') = home_flavors (home w)
    ∧ home_message (home w') = home_message (home w)
    ∧ home_initializing (home w') = home_initializing (home w)
    ∧ home_saving (home w') = home_saving (home w)
    ∧ (ignore = true → home w' = home w).
Proof.
  intros Hopen.
  destruct (storage_getAll_run env clients w Hopen) as [all Hall].
  erewrite bind_run by exact Hall.
  destruct (migrate_completes env clients all w) as (r & w1 & Hm & Hother & Hh & _).
  erewrite bind_run by exact Hm.
  destruct (Hother flavors) as [Hdb Hls]; [done|].
  destruct ignore; simpl; js_unfold; eexists; (split; [reflexivity|]); simpl;
    rewrite ?Hh; by repeat split.
Qed.

Lemma storage_getAll_world env store w :
  after (Home.storage_getAll env store) w = w.
Proof.
  unfold after, Home.storage_getAll. destruct (hasIndexedDB env).
  - unfold Home.idbGetAll, mbind, JS_bind, bind.
    destruct (getDB_result env) as [r Hr]. rewrite Hr. by destruct r.
  - by rewrite readFromLocalStorage_run.
Qed.

Lemma storage_getAll_same env store w w' :
  objectStore store (cakeDB w') = objectStore store (cakeDB w) →
  getItem (localStorage w') store = getItem (localStorage w) store →
  result (Home.storage_getAll env store) w' = result (Home.storage_getAll env store) w.
Proof.
  intros Hdb Hls. unfold result, Home.storage_getAll. destruct (hasIndexedDB env).
  - unfold Home.idbGetAll, mbind, JS_bind, bind.
    destruct (getDB_result env) as [r Hr]. rewrite !Hr.
    destruct r as [[]|e]; simpl; [|done]. unfold store_getAll. by rewrite Hdb.
  - rewrite !readFromLocalStorage_run. simpl. unfold stored. by rewrite Hls.
Qed.

Lemma storage_getAll_moved env store w w' all :
  Home.storage_getAll env store w = (Normal all, w) →
  objectStore store (cakeDB w') = objectStore store (cakeDB w) →
  getItem (localStorage w') store = getItem (localStorage w) store →
  Home.storage_getAll env store w' = (Normal all, w').
Proof.
  intros Hall Hdb Hls.
  pose proof (storage_getAll_same env store w w' Hdb Hls) as Hres.
  pose proof (storage_getAll_world env store w') as Hw.
  unfold result, after in *. rewrite Hall in Hres. simpl in Hres.
  destruct (Home.storage_getAll env store w') as [r w'']. simpl in *. by subst.
Qed.

(** The flavors half of [init] when the catalog is empty and there is nothing
    to copy: the defaults are written. *)
Lemma init_flavors_seeded env w :
  isBrowser env = true → idbOpenFails env = false →
  Home.storage_getAll env flavors w = (Normal [], w) →
  stored flavors (localStorage w) = [] →
  ∃ w1 all,
    (storedFlavors ← Home.storage_getAll env flavors;
     storedFlavors ← migrate env flavors storedFlavors;
     if (length storedFlavors =? 0)%nat then
       _ ← Home.storage_bulkPut env flavors defaultFlavors; ret defaultFlavors
     else ret storedFlavors) w = (Normal defaultFlavors, w1)
    ∧ Home.storage_getAll env flavors w1 = (Normal all, w1)
    ∧ all ≡ₚ defaultFlavors
    ∧ home w1 = home w
    ∧ getItem (localStorage w1) flavors
      = (if hasIndexedDB env then afterCleanup (getItem (localStorage w) flavors)
         else Some (JSON_stringify defaultFlavors)).
Proof.
  intros Hb Hopen Hall Hempty.
  erewrite bind_run by exact Hall.
  assert (NoDup (keyPath flavors <$> defaultFlavors)) as Hnd
    by (apply (bool_decide_unpack _); vm_compute; exact I).
  destruct (hasIndexedDB env) eqn:Hidb.
  - rewrite idb_getAll_run in Hall by done. injection Hall as Hall.
    apply fmap_nil_inv, map_to_list_empty_iff in Hall.
    destruct (migrate_nothing env flavors w Hidb Hempty)
      as (w0 & Hm & Hdb & Hh & _ & _ & Hcell & _).
    erewrite bind_run by exact Hm. cbn [length Nat.eqb].
    erewrite bind_run by (by apply idb_bulkPut_run).
    eexists _, _. split; [reflexivity|].
    split; [by apply idb_getAll_run|].
    split; [|by split].
    unfold store_getAll. cbn [cakeDB emit withCakeDB].
    rewrite objectStore_set_same, Hdb, Hall.
    by apply (putAll_empty_getAll flavors).
  - assert (migrate env flavors [] w = (Normal [], w)) as Hm
      by (unfold migrate; by rewrite Hidb).
    erewrite bind_run by exact Hm. cbn [length Nat.eqb].
    erewrite bind_run by (by apply flat_bulkPut_run).
    eexists _, _. split; [reflexivity|].
    split; [rewrite flat_getAll_run, Hb by done; reflexivity|].
    by repeat split.
Qed.

Lemma init_empty_catalog_run env ignore w :
  isBrowser env = true → idbOpenFails env = false →
  Home.storage_getAll env flavors w = (Normal [], w) →
  stored flavors (localStorage w) = [] →
  ∃ w' all,
    Home.init env ignore w = (Normal tt, w')
    ∧ Home.storage_getAll env flavors w' = (Normal all, w')
    ∧ all ≡ₚ defaultFlavors
    ∧ home_message (home w') = home_message (home w)
    ∧ home_flavors (home w')
      = (if ignore then home_flavors (home w) else defaultFlavors)
    ∧ home_initializing (home w')
      = (if ignore then home_initializing (home w) else false)
    ∧ getItem (localStorage w') flavors
      = (if hasIndexedDB env then afterCleanup (getItem (localStorage w) flavors)
         else Some (JSON_stringify defaultFlavors)).
Proof.
  intros Hb Hopen Hall Hempty.
  destruct (init_flavors_seeded env w Hb Hopen Hall Hempty)
    as (w1 & all & Hrun & Hall1 & Hperm & Hh1 & Hcell).
  rewrite init_unfold. unfold tryFinally, tryCatch.
  set (w2 := if ignore then w1 else (Home.setFlavors (λ _, defaultFlavors) w1).2).
  assert (home_message (home w2) = home_message (home w)
          ∧ home_flavors (home w2)
            = (if ignore then home_flavors (home w) else defaultFlavors)
          ∧ home_initializing (home w2) = home_initializing (home w)
          ∧ objectStore flavors (cakeDB w2) = objectStore flavors (cakeDB w1)
          ∧ getItem (localStorage w2) flavors = getItem (localStorage w1) flavors)
    as (Hmsg2 & Hfl2 & Hini2 & Hdb2 & Hls2).
  { subst w2. destruct ignore; simpl; by rewrite ?Hh1. }
  destruct (init_clients_half env ignore w2 Hopen)
    as (w3 & Hc & Hdb3 & Hls3 & Hfl3 & Hmsg3 & Hini3 & _).
  assert ((storedFlavors ← Home.storage_getAll env flavors;
           storedFlavors ← migrate env flavors storedFlavors;
           storedFlavors ←
             (if (length storedFlavors =? 0)%nat then
                _ ← Home.storage_bulkPut env flavors defaultFlavors; ret defaultFlavors
              else ret storedFlavors);
           _ ← when (negb ignore) (Home.setFlavors (λ _, storedFlavors));
           storedClients ← Home.storage_getAll env clients;
           storedClients ← migrate env clients storedClients;
           when (negb ignore) (Home.setClients (λ _, storedClients))) w
          = (Normal tt, w3)) as ->.
  { revert Hrun Hc. unfold mbind, JS_bind, bind.
    destruct (Home.storage_getAll env flavors w) as [[sf|e] wa]; [|done].
    destruct (migrate env flavors sf wa) as [[sf'|e] wb]; [|done].
    intros Hrun. rewrite Hrun.
    assert (when (negb ignore) (Home.setFlavors (λ _, defaultFlavors)) w1
            = (Normal tt, w2)) as -> by (subst w2; by destruct ignore).
    done. }
  exists (if ignore then w3 else (Home.setInitializing false w3).2), all.
  split; [by destruct ignore|].
  split.
  { apply (storage_getAll_moved env flavors w1); [done| |]; destruct ignore;
      first [exact (eq_trans Hdb3 Hdb2) | exact (eq_trans Hls3 Hls2)]. }
  split; [done|].
  split; [destruct ignore; exact (eq_trans Hmsg3 Hmsg2)|].
  split; [destruct ignore; exact (eq_trans Hfl3 Hfl2)|].
  split; [destruct ignore; [exact (eq_trans Hini3 Hini2) | reflexivity]|].
  destruct ignore; exact (eq_trans (eq_trans Hls3 Hls2) Hcell).
Qed.

(** X7.  An empty catalog is seeded.  When getAll('flavors') returns nothing
    and localStorage holds no flavors to copy, [init] completes without an
    error toast (no engine fault, either backend), getAll('flavors') then
    returns the four default flavors, and the page lists them unless it was
    unmounted meanwhile. *)
Theorem init_seeds_empty_catalog env ignore w :
  isBrowser env = true → idbOpenFails env = false →
  Home.storage_getAll env flavors w = (Normal [], w) →
  stored flavors (localStorage w) = [] →
  ∃ w' all,
    Home.init env ignore w = (Normal tt, w')
    ∧ Home.storage_getAll env flavors w' = (Normal all, w')
    ∧ all ≡ₚ defaultFlavors
    ∧ home_message (home w') = home_message (home w)
    ∧ (ignore = false →
       home_flavors (home w') = defaultFlavors ∧ home_initializing (home w') = false)
    ∧ (ignore = true → home_flavors (home w') = home_flavors (home w)).
Proof.
  intros Hb Hopen Hall Hempty.
  destruct (init_empty_catalog_run env ignore w Hb Hopen Hall Hempty)
    as (w' & all & Hrun & Hall' & Hperm & Hmsg & Hfl & Hini & _).
  exists w', all. split; [done|]. split; [done|]. split; [done|]. split; [done|].
  split.
  - intros ->. by split.
  - by intros ->.
Qed.

Lemma init_seeds_empty_catalog_witness :
  isBrowser flatEnv = true ∧ idbOpenFails flatEnv = false
  ∧ Home.storage_getAll flatEnv flavors emptyWorld = (Normal [], emptyWorld)
  ∧ stored flavors (localStorage emptyWorld) = []
  ∧ ∃ w' all,
    Home.init flatEnv false emptyWorld = (Normal tt, w')
    ∧ Home.storage_getAll flatEnv flavors w' = (Normal all, w')
    ∧ all ≡ₚ defaultFlavors
    ∧ home_message (home w') = home_message (home emptyWorld)
    ∧ (false = false →
       home_flavors (home w') = defaultFlavors ∧ home_initializing (home w') = false)
    ∧ (false = true → home_flavors (home w') = home_flavors (home emptyWorld)).
Proof.
  split; [reflexivity|]. split; [reflexivity|]. split; [reflexivity|].
  split; [reflexivity|].
  apply (init_seeds_empty_catalog flatEnv false emptyWorld); reflexivity.
Defined.

(** X8.  What start-up does with a legacy payload it cannot use.  With
    IndexedDB working and holding no flavors, and localStorage holding under
    'cakeFlavors' anything but a non-empty array, [init] removes the key when
    the text parsed (to an empty array or to a non-array) and leaves it in
    place when it is absent, empty or unparsable: an unparsable payload is
    parsed again, and fails again, at every start-up. *)
Theorem init_cleans_parsed_payload env ignore w :
  hasIndexedDB env = true → idbOpenFails env = false →
  objectStore flavors (cakeDB w) = ∅ →
  stored flavors (localStorage w) = [] →
  ∃ w',
    Home.init env ignore w = (Normal tt, w')
    ∧ getItem (localStorage w') flavors = afterCleanup (getItem (localStorage w) flavors)
    ∧ (getItem (localStorage w) flavors = Some Unparsable →
       getItem (localStorage w') flavors = Some Unparsable)
    ∧ (getItem (localStorage w) flavors = Some NonArrayJson →
       getItem (localStorage w') flavors = None)
    ∧ (getItem (localStorage w) flavors = Some (JSON_stringify []) →
       getItem (localStorage w') flavors = None).
Proof.
  intros Hidb Hopen Hempty Hstored.
  assert (isBrowser env = true) as Hb.
  { unfold hasIndexedDB in Hidb. by apply andb_true_iff in Hidb as [? _]. }
  assert (Home.storage_getAll env flavors w = (Normal [], w)) as Hall.
  { rewrite idb_getAll_run by done. unfold store_getAll.
    by rewrite Hempty, map_to_list_empty. }
  destruct (init_empty_catalog_run env ignore w Hb Hopen Hall Hstored)
    as (w' & all & Hrun & _ & _ & _ & _ & _ & Hcell).
  rewrite Hidb in Hcell. exists w'. split; [done|]. split; [done|].
  split; [|split]; intros Hc; by rewrite Hcell, Hc.
Qed.

Lemma init_cleans_parsed_payload_witness :
  hasIndexedDB idbEnv = true ∧ idbOpenFails idbEnv = false
  ∧ objectStore flavors (cakeDB (seededWorld [])) = ∅
  ∧ stored flavors (localStorage (seededWorld [])) = []
  ∧ ∃ w',
    Home.init idbEnv false (seededWorld []) = (Normal tt, w')
    ∧ getItem (localStorage w') flavors
      = afterCleanup (getItem (localStorage (seededWorld [])) flavors)
    ∧ (getItem (localStorage (seededWorld [])) flavors = Some Unparsable →
       getItem (localStorage w') flavors = Some Unparsable)
    ∧ (getItem (localStorage (seededWorld [])) flavors = Some NonArrayJson →
       getItem (localStorage w') flavors = None)
    ∧ (getItem (localStorage (seededWorld [])) flavors = Some (JSON_stringify []) →
       getItem (localStorage w') flavors = None).
Proof.
  split; [reflexivity|]. split; [reflexivity|]. split; [reflexivity|].
  split; [reflexivity|].
  apply (init_cleans_parsed_payload idbEnv false (seededWorld [])); reflexivity.
Defined.

(** X9.  When IndexedDB exists but cannot be opened, [init] neither falls
    back to localStorage nor seeds anything: it completes, leaves both
    storages and the trace untouched and the lists of the page empty as they
    were, and, unless the page was unmounted, shows the toast
    'Falha ao carregar dados locais.' and ends the loading state. *)
Theorem init_reports_open_failure env ignore w :
  hasIndexedDB env = true → idbOpenFails env = true →
  ∃ w',
    Home.init env ignore w = (Normal tt, w')
    ∧ localStorage w' = localStorage w ∧ cakeDB w' = cakeDB w ∧ trace w' = trace w
    ∧ home_flavors (home w') = home_flavors (home w)
    ∧ home_clients (home w') = home_clients (home w)
    ∧ (ignore = false →
       home_message (home w') = Some (error "Falha ao carregar dados locais.")
       ∧ home_initializing (home w') = false)
    ∧ (ignore = true → home w' = home w).
Proof.
  intros Hidb Hopen. rewrite init_unfold. unfold tryFinally, tryCatch.
  assert (Home.storage_getAll env flavors w = (Throw OpenFailed, w)) as Hthrow.
  { unfold Home.storage_getAll, Home.idbGetAll, Home.getDB. by rewrite Hidb, Hopen. }
  erewrite bind_throws by exact Hthrow.
  destruct ignore; simpl; js_unfold; eexists; (split; [reflexivity|]); simpl;
    repeat split; try done; by destruct (home w).
Qed.

Lemma init_reports_open_failure_witness :
  hasIndexedDB (mkEnv true true true ChannelWorks true) = true
  ∧ idbOpenFails (mkEnv true true true ChannelWorks true) = true
  ∧ ∃ w',
    Home.init (mkEnv true true true ChannelWorks true) false
      (seededWorld defaultFlavors) = (Normal tt, w')
    ∧ localStorage w' = localStorage (seededWorld defaultFlavors)
    ∧ cakeDB w' = cakeDB (seededWorld defaultFlavors)
    ∧ trace w' = trace (seededWorld defaultFlavors)
    ∧ home_flavors (home w') = home_flavors (home (seededWorld defaultFlavors))
    ∧ home_clients (home w') = home_clients (home (seededWorld defaultFlavors))
    ∧ (false = false →
       home_message (home w') = Some (error "Falha ao carregar dados locais.")
       ∧ home_initializing (home w') = false)
    ∧ (false = true → home w' = home (seededWorld defaultFlavors)).
Proof.
  split; [reflexivity|]. split; [reflexivity|].
  apply (init_reports_open_failure (mkEnv true true true ChannelWorks true) false
           (seededWorld defaultFlavors)); reflexivity.
Defined.

(** X10.  Start-up never overwrites a catalog that has flavors: when
    getAll('flavors') returns a non-empty list, [init] migrates and seeds
    nothing for flavors (no engine fault, either backend, whatever
    localStorage holds): getAll('flavors') returns the same list afterwards,
    the 'cakeFlavors' key is as it was, no toast appears, and the page lists
    exactly those flavors unless it was unmounted meanwhile. *)
Theorem init_keeps_catalog env ignore w all :
  idbOpenFails env = false →
  Home.storage_getAll env flavors w = (Normal all, w) → all ≠ [] →
  ∃ w',
    Home.init env ignore w = (Normal tt, w')
    ∧ Home.storage_getAll env flavors w' = (Normal all, w')
    ∧ getItem (localStorage w') flavors = getItem (localStorage w) flavors
    ∧ home_message (home w') = home_message (home w)
    ∧ home_flavors (home w') = (if ignore then home_flavors (home w) else all).
Proof.
  intros Hopen Hall Hne. rewrite init_unfold. unfold tryFinally, tryCatch.
  erewrite bind_run by exact Hall.
  erewrite bind_run by (by apply (migrate_skips env flavors)).
  destruct all as [|r rest]; [done|]. cbn [length Nat.eqb].
  erewrite bind_run by reflexivity.
  set (w2 := if ignore then w else (Home.setFlavors (λ _, r :: rest) w).2).
  assert ((when (negb ignore) (Home.setFlavors (λ _, r :: rest))) w = (Normal tt, w2))
    as Hset by (subst w2; by destruct ignore).
  erewrite bind_run by exact Hset.
  assert (objectStore flavors (cakeDB w2) = objectStore flavors (cakeDB w)
          ∧ getItem (localStorage w2) flavors = getItem (localStorage w) flavors
          ∧ home_message (home w2) = home_message (home w)
          ∧ home_flavors (home w2) = (if ignore then home_flavors (home w) else r :: rest))
    as (Hdb2 & Hls2 & Hmsg2 & Hfl2).
  { subst w2. by destruct ignore. }
  destruct (init_clients_half env ignore w2 Hopen)
    as (w3 & -> & Hdb3 & Hls3 & Hfl3 & Hmsg3 & _).
  exists (if ignore then w3 else (Home.setInitializing false w3).2).
  split; [by destruct ignore|].
  split.
  { apply (storage_getAll_moved env flavors w); [done| |]; destruct ignore;
      first [exact (eq_trans Hdb3 Hdb2) | exact (eq_trans Hls3 Hls2)]. }
  split; [destruct ignore; exact (eq_trans Hls3 Hls2)|].
  split; [destruct ignore; exact (eq_trans Hmsg3 Hmsg2)|].
  destruct ignore; exact (eq_trans Hfl3 Hfl2).
Qed.

Lemma init_keeps_catalog_witness :
  idbOpenFails flatEnv = false
  ∧ Home.storage_getAll flatEnv flavors (seededWorld [chocolate99])
    = (Normal [chocolate99], seededWorld [chocolate99])
  ∧ [chocolate99] ≠ []
  ∧ ∃ w',
    Home.init flatEnv false (seededWorld [chocolate99]) = (Normal tt, w')
    ∧ Home.storage_getAll flatEnv flavors w' = (Normal [chocolate99], w')
    ∧ getItem (localStorage w') flavors
      = getItem (localStorage (seededWorld [chocolate99])) flavors
    ∧ home_message (home w') = home_message (home (seededWorld [chocolate99]))
    ∧ home_flavors (home w')
      = (if false then home_flavors (home (seededWorld [chocolate99])) else [chocolate99]).
Proof.
  split; [reflexivity|]. split; [reflexivity|]. split; [discriminate|].
  apply (init_keeps_catalog flatEnv false (seededWorld [chocolate99]) [chocolate99]);
    [reflexivity | reflexivity | discriminate].
Defined.

(** ** What a computation leaves as it was *)

Section Preserves.
Context {B : Type} (obs : World → B).

Lemma preserves_ret {A} (a : A) : preserves obs (ret a).
Proof. by intros w. Qed.

Lemma preserves_throw {A} e : preserves obs (@throw A e).
Proof. by intros w. Qed.

Lemma preserves_lift {A} (c : Completion A) : preserves obs (lift c).
Proof. by intros w. Qed.

Lemma preserves_get : preserves obs get.
Proof. by intros w. Qed.

Lemma preserves_modify f : (∀ w, obs (f w) = obs w) → preserves obs (modify f).
Proof. intros Hf w. apply Hf. Qed.

Lemma preserves_bind {A C} (m : JS A) (k : A → JS C) :
  preserves obs m → (∀ a, preserves obs (k a)) → preserves obs (x ← m; k x).
Proof.
  intros Hm Hk w. specialize (Hm w). unfold after, mbind, JS_bind, bind in *.
  destruct (m w) as [[a|e] w1]; simpl in *; [|done].
  rewrite <- Hm. apply Hk.
Qed.

Lemma preserves_tryCatch {A} (body : JS A) handler :
  preserves obs body → (∀ e, preserves obs (handler e)) →
  preserves obs (tryCatch body handler).
Proof.
  intros Hb Hh w. specialize (Hb w). unfold after, tryCatch in *.
  destruct (body w) as [[a|e] w1]; simpl in *; [done|].
  rewrite <- Hb. apply Hh.
Qed.

Lemma preserves_tryFinally {A} (body : JS A) fin :
  preserves obs body → preserves obs fin → preserves obs (tryFinally body fin).
Proof.
  intros Hb Hf w. specialize (Hb w). unfold after, tryFinally in *.
  destruct (body w) as [r w1]; simpl in *. specialize (Hf w1). unfold after in Hf.
  destruct (fin w1) as [[[]|e] w2]; simpl in *; congruence.
Qed.
End Preserves.

Ltac preserves_step :=
  first
    [ apply preserves_ret | apply preserves_throw | apply preserves_lift
    | apply preserves_get
    | apply preserves_bind; [|intros ?]
    | apply preserves_tryCatch; [|intros ?]
    | apply preserves_tryFinally
    | match goal with
      | |- preserves _ (match ?x with _ => _ end) => destruct x
      end ].

Lemma posted_emit e t :
  (∀ m, e ≠ Posted m) → posted (t ++ [e]) = posted t.
Proof.
  intros He. unfold posted. rewrite omap_app. simpl.
  destruct e; try by rewrite app_nil_r. by destruct (He m).
Qed.

(** The adapter of the order-entry page posts nothing and never touches the
    state of a page. *)
Lemma storage_getAll_preserves {B} (obs : World → B) env store :
  preserves obs (Home.storage_getAll env store).
Proof. intros w. by rewrite storage_getAll_world. Qed.

Lemma storage_write_trace env store w :
  (∀ value, posted (trace (after (Home.storage_put env store value) w)) = posted (trace w))
  ∧ (∀ values,
       posted (trace (after (Home.storage_bulkPut env store values) w)) = posted (trace w))
  ∧ (∀ key, posted (trace (after (Home.storage_delete env store key) w)) = posted (trace w)).
Proof.
  assert (∀ f, posted (trace (after (_ ← Home.getDB env; transaction store f) w))
               = posted (trace w)) as Hidb.
  { intros f. unfold after, mbind, JS_bind, bind.
    destruct (getDB_result env) as [[[]|e] Hr]; rewrite Hr; simpl; [|done].
    by apply posted_emit. }
  assert (∀ text, posted (trace (after (localStorage_setItem store text) w))
                  = posted (trace w)) as Hset.
  { intros text. simpl. by apply posted_emit. }
  destruct (hasIndexedDB env) eqn:Hflat.
  { unfold Home.storage_put, Home.storage_bulkPut, Home.storage_delete.
    rewrite Hflat. repeat split; intros; apply Hidb. }
  destruct (isBrowser env) eqn:Hb.
  - split; [|split].
    + intros value. unfold after. rewrite flat_put_run by done. apply Hset.
    + intros values. unfold after. rewrite flat_bulkPut_run by done. apply Hset.
    + intros key. unfold after. rewrite flat_delete_run by done. apply Hset.
  - split; [|split].
    + intros value. unfold after. by rewrite flat_put_ssr.
    + intros values. unfold after, Home.storage_bulkPut. by rewrite Hflat, Hb.
    + intros key. unfold after. by rewrite flat_delete_ssr.
Qed.

Lemma storage_bulkPut_posts_nothing env store (values : list (StoreMap store)) :
  preserves (λ w, posted (trace w)) (Home.storage_bulkPut env store values).
Proof. intros w. apply (storage_write_trace env store w). Qed.

Lemma storage_bulkPut_keeps_home env store (values : list (StoreMap store)) :
  preserves home (Home.storage_bulkPut env store values).
Proof. intros w. apply (storage_bulkPut_framed env store values w). Qed.

(** X11.  Start-up is silent, and after an unmount it leaves the page alone.
    In every environment and world [init] posts no message on the channel,
    even when it copies or seeds records; and when the effect's cleanup has
    set [ignore], it changes nothing of the page's state: no list, no toast,
    no loading flag. *)
Theorem init_is_silent env w :
  (∀ ignore, posted (trace (after (Home.init env ignore) w)) = posted (trace w))
  ∧ home (after (Home.init env true) w) = home w
  ∧ dashboard (after (Home.init env true) w) = dashboard w.
Proof.
  assert (∀ store, preserves (λ w, posted (trace w)) (localStorage_removeItem store))
    as Hrm1.
  { intros store w0. simpl. by apply posted_emit. }
  split; [|split].
  - intros ignore. revert w.
    change (preserves (λ w, posted (trace w)) (Home.init env ignore)).
    unfold Home.init, localStorage_getItem, when.
    repeat first
      [ apply storage_getAll_preserves | apply storage_bulkPut_posts_nothing
      | apply Hrm1
      | preserves_step
      | match goal with
        | |- preserves _ (if ?b then _ else _) => destruct b
        end
      | by intros ? ].
  - revert w. change (preserves home (Home.init env true)).
    unfold Home.init, localStorage_getItem, when. simpl negb. cbv iota.
    repeat first
      [ apply storage_getAll_preserves | apply storage_bulkPut_keeps_home
      | preserves_step
      | match goal with
        | |- preserves _ (if ?b then _ else _) => destruct b
        end
      | by intros ? ].
  - revert w. change (preserves dashboard (Home.init env true)).
    unfold Home.init, localStorage_getItem, when. simpl negb. cbv iota.
    repeat first
      [ apply storage_getAll_preserves
      | preserves_step
      | match goal with
        | |- preserves _ (if ?b then _ else _) => destruct b
        end
      | intros ?; apply (storage_bulkPut_framed env _ _ _)
      | by intros ? ].
Qed.

(** * Further properties of the delivery dashboard *)

(** ** The dashboard's copy of the adapter *)

Lemma dashboard_read_run env w :
  Deliveries.readFromLocalStorage env Deliveries.orders w
  = (Normal (if isBrowser env then stored orders (localStorage w) else []), w).
Proof. apply (readFromLocalStorage_run env orders w). Qed.

Lemma dashboard_put_flat env (value : Order) w :
  hasIndexedDB env = false → isBrowser env = true →
  Deliveries.storagePut env Deliveries.orders value w
  = (Normal tt,
     let w1 := emit (SetItem "cakeOrders")
                 (withLocalStorage
                    (setItem orders
                       (JSON_stringify (upsert orders value (stored orders (localStorage w)))))
                    w) in
     if channelDelivers (channel env)
     then emit (Posted (mkMessage "orders_changed" (Order_id value))) w1 else w1).
Proof.
  intros Hflat Hb. unfold Deliveries.storagePut. rewrite Hflat, Hb. cbn [negb].
  erewrite bind_run; last first.
  { rewrite dashboard_read_run, Hb. reflexivity. }
  cbv zeta. erewrite bind_run by reflexivity.
  apply notify_run.
Qed.

Lemma dashboard_delete_flat env key w :
  hasIndexedDB env = false → isBrowser env = true →
  Deliveries.storageDelete env Deliveries.orders key w
  = (Normal tt,
     let w1 := emit (SetItem "cakeOrders")
                 (withLocalStorage
                    (setItem orders
                       (JSON_stringify
                          (filter (λ x, Order_id x ≠ key) (stored orders (localStorage w)))))
                    w) in
     if channelDelivers (channel env)
     then emit (Posted (mkMessage "orders_changed" key)) w1 else w1).
Proof.
  intros Hflat Hb. unfold Deliveries.storageDelete. rewrite Hflat, Hb. cbn [negb].
  erewrite bind_run; last first.
  { rewrite dashboard_read_run, Hb. reflexivity. }
  cbv zeta. erewrite bind_run by reflexivity.
  apply notify_run.
Qed.

(** X12.  The dashboard's own copy of the adapter reads and writes what the
    order-entry page's [storage] does for orders: in every environment and
    world [storageGetAll] is [storage.getAll('orders')], and [storagePut] and
    [storageDelete] end with the same result, the same localStorage and the
    same database as [storage.put] and [storage.delete]. *)
Theorem dashboard_adapter_agrees env w :
  Deliveries.storageGetAll env Deliveries.orders w = Home.storage_getAll env orders w
  ∧ (∀ value : Order,
       result (Deliveries.storagePut env Deliveries.orders value) w
       = result (Home.storage_put env orders value) w
       ∧ localStorage (after (Deliveries.storagePut env Deliveries.orders value) w)
         = localStorage (after (Home.storage_put env orders value) w)
       ∧ cakeDB (after (Deliveries.storagePut env Deliveries.orders value) w)
         = cakeDB (after (Home.storage_put env orders value) w))
  ∧ (∀ key,
       result (Deliveries.storageDelete env Deliveries.orders key) w
       = result (Home.storage_delete env orders key) w
       ∧ localStorage (after (Deliveries.storageDelete env Deliveries.orders key) w)
         = localStorage (after (Home.storage_delete env orders key) w)
       ∧ cakeDB (after (Deliveries.storageDelete env Deliveries.orders key) w)
         = cakeDB (after (Home.storage_delete env orders key) w)).
Proof.
  split; [reflexivity|].
  destruct (hasIndexedDB env) eqn:Hidb.
  { split; intros; unfold result, after, Deliveries.storagePut, Deliveries.storageDelete,
      Home.storage_put, Home.storage_delete; rewrite Hidb; by repeat split. }
  destruct (isBrowser env) eqn:Hb.
  - split.
    + intros value. unfold result, after.
      rewrite dashboard_put_flat, flat_put_run by done.
      by destruct (channelDelivers (channel env)).
    + intros key. unfold result, after.
      rewrite dashboard_delete_flat, flat_delete_run by done.
      by destruct (channelDelivers (channel env)).
  - split; intros; unfold result, after, Deliveries.storagePut, Deliveries.storageDelete;
      rewrite Hidb, Hb; simpl; by rewrite ?flat_put_ssr, ?flat_delete_ssr.
Qed.

(** ** Notifications from the dashboard *)

Lemma dashboard_idb_write_silent env f :
  preserves (λ w, posted (trace w)) (_ ← Deliveries.getDB env; transaction orders f).
Proof.
  intros w. unfold after, mbind, JS_bind, bind.
  destruct (getDB_result env) as [[[]|e] Hr].
  - change (Deliveries.getDB env w) with (Home.getDB env w). rewrite Hr. simpl.
    by apply posted_emit.
  - change (Deliveries.getDB env w) with (Home.getDB env w). by rewrite Hr.
Qed.

Lemma dashboard_setter_silent f :
  preserves (λ w, posted (trace w)) (modify (withDashboard f)).
Proof. by intros w. Qed.

(** X13.  With IndexedDB in use the dashboard never tells other contexts
    about its writes: whatever the channel, [storagePut], [storageDelete],
    [updateStatus], [updateDate] and [removeOrder] post no message.  (On the
    fallback [storagePut] and [storageDelete] post one after each write.) *)
Theorem dashboard_silent_on_indexedDB env w :
  hasIndexedDB env = true →
  (∀ value, posted (trace (after (Deliveries.storagePut env Deliveries.orders value) w))
            = posted (trace w))
  ∧ (∀ key, posted (trace (after (Deliveries.storageDelete env Deliveries.orders key) w))
            = posted (trace w))
  ∧ (∀ id status, posted (trace (after (Deliveries.updateStatus env id status) w))
                  = posted (trace w))
  ∧ (∀ id newDate, posted (trace (after (Deliveries.updateDate env id newDate) w))
                   = posted (trace w))
  ∧ (∀ id, posted (trace (after (Deliveries.removeOrder env id) w)) = posted (trace w)).
Proof.
  intros Hidb.
  assert (∀ value, preserves (λ w, posted (trace w))
                     (Deliveries.storagePut env Deliveries.orders value)) as Hput.
  { intros value. unfold Deliveries.storagePut. rewrite Hidb.
    apply dashboard_idb_write_silent. }
  assert (∀ key, preserves (λ w, posted (trace w))
                   (Deliveries.storageDelete env Deliveries.orders key)) as Hdel.
  { intros key. unfold Deliveries.storageDelete. rewrite Hidb.
    apply dashboard_idb_write_silent. }
  split; [intros; apply Hput|]. split; [intros; apply Hdel|].
  split; [|split].
  - intros id status. revert w.
    change (preserves (λ w, posted (trace w)) (Deliveries.updateStatus env id status)).
    unfold Deliveries.updateStatus, Deliveries.setSaving, Deliveries.setOrders,
      Deliveries.setMessage.
    repeat first [ apply Hput | apply dashboard_setter_silent | preserves_step ].
  - intros id newDate. revert w.
    change (preserves (λ w, posted (trace w)) (Deliveries.updateDate env id newDate)).
    unfold Deliveries.updateDate, Deliveries.setSaving, Deliveries.setOrders,
      Deliveries.setMessage.
    repeat first [ apply Hput | apply dashboard_setter_silent | preserves_step ].
  - intros id. revert w.
    change (preserves (λ w, posted (trace w)) (Deliveries.removeOrder env id)).
    unfold Deliveries.removeOrder, Deliveries.setSaving, Deliveries.setOrders,
      Deliveries.setMessage, Deliveries.idbDelete.
    destruct (negb (confirmAnswer env)); [apply preserves_ret|].
    repeat first
      [ apply dashboard_idb_write_silent | apply dashboard_setter_silent | preserves_step ].
Qed.

Lemma dashboard_silent_on_indexedDB_witness :
  hasIndexedDB idbEnv = true
  ∧ (∀ value, posted (trace (after (Deliveries.storagePut idbEnv Deliveries.orders value)
                               emptyWorld))
              = posted (trace emptyWorld))
  ∧ (∀ key, posted (trace (after (Deliveries.storageDelete idbEnv Deliveries.orders key)
                             emptyWorld))
            = posted (trace emptyWorld))
  ∧ (∀ id status, posted (trace (after (Deliveries.updateStatus idbEnv id status) emptyWorld))
                  = posted (trace emptyWorld))
  ∧ (∀ id newDate, posted (trace (after (Deliveries.updateDate idbEnv id newDate) emptyWorld))
                   = posted (trace emptyWorld))
  ∧ (∀ id, posted (trace (after (Deliveries.removeOrder idbEnv id) emptyWorld))
           = posted (trace emptyWorld)).
Proof.
  split; [reflexivity|].
  apply (dashboard_silent_on_indexedDB idbEnv emptyWorld). reflexivity.
Defined.

(** ** The dashboard's list and the stored orders *)

Lemma updateStatus_updateWith env id status :
  Deliveries.updateStatus env id status
  = updateWith env (λ o, Deliveries.withStatus o status)
      "Status atualizado." "Falha ao atualizar status." id.
Proof. reflexivity. Qed.

Lemma updateDate_updateWith env id newDate :
  Deliveries.updateDate env id newDate
  = updateWith env (λ o, Deliveries.withDeliveryDate o (orUndefined newDate))
      "Data atualizada." "Falha ao atualizar data." id.
Proof. reflexivity. Qed.

Lemma find_by_id_Some id (l : list Order) o :
  List.find (λ x, bool_decide (Order_id x = id)) l = Some o → o ∈ l ∧ Order_id o = id.
Proof.
  induction l as [|x l IH]; simpl; [done|]. case_bool_decide as Hx.
  - intros [= <-]. split; [by left | done].
  - intros Hf. destruct (IH Hf) as [Ho Hid]. split; [by right | done].
Qed.

Lemma find_by_id_None id (l : list Order) :
  List.find (λ x, bool_decide (Order_id x = id)) l = None →
  Forall (λ x, Order_id x ≠ id) l.
Proof.
  induction l as [|x l IH]; simpl; [constructor|]. case_bool_decide as Hx; [done|].
  intros Hf. constructor; [done | by apply IH].
Qed.

Lemma map_fresh id (u : Order) (l : list Order) :
  Forall (λ x, Order_id x ≠ id) l →
  map (λ x, if bool_decide (Order_id x = id) then u else x) l = l.
Proof.
  induction 1 as [|x l Hx Hl IH]; simpl; [done|].
  by rewrite bool_decide_eq_false_2, IH.
Qed.

(** With one order per id, replacing by id in the page's list is the write of
    the fallback. *)
Lemma map_replace_upsert id (u o : Order) (l : list Order) :
  NoDup (Order_id <$> l) →
  List.find (λ x, bool_decide (Order_id x = id)) l = Some o →
  Order_id u = id →
  map (λ x, if bool_decide (Order_id x = id) then u else x) l = upsert orders u l.
Proof.
  intros Hnd Hf Hu. revert Hnd Hf. induction l as [|x l IH]; [done|].
  rewrite fmap_cons, NoDup_cons. intros [Hx Hnd]. simpl.
  rewrite upsert_cons. simpl. rewrite Hu. case_bool_decide as Hid.
  - intros _. f_equal. apply map_fresh. apply Forall_forall. intros y Hy Heq.
    apply Hx. rewrite Hid, <- Heq. apply list_elem_of_fmap. by exists y.
  - intros Hf. f_equal. by apply IH.
Qed.

(** The three ways [updateWith] ends. *)
Lemma updateWith_unknown env change done failed id w :
  List.find (λ x, bool_decide (Order_id x = id)) (dash_orders (dashboard w)) = None →
  updateWith env change done failed id w
  = (Normal tt, after (Deliveries.setSaving false) w).
Proof.
  intros Hf. unfold updateWith, tryFinally, tryCatch.
  erewrite bind_run by reflexivity. erewrite bind_run by reflexivity.
  cbn [dashboard withDashboard dash_orders]. rewrite Hf.
  cbn. by destruct w as [? ? ? ? []].
Qed.

Lemma updateWith_stored env change done failed id w o w1 :
  List.find (λ x, bool_decide (Order_id x = id)) (dash_orders (dashboard w)) = Some o →
  Deliveries.storagePut env Deliveries.orders (change o)
    (after (Deliveries.setSaving true) w) = (Normal tt, w1) →
  updateWith env change done failed id w
  = (Normal tt,
     after (Deliveries.setSaving false)
       (after (Deliveries.setMessage (Some (success done)))
          (after (Deliveries.setOrders
                    (map (λ x, if bool_decide (Order_id x = id) then change o else x)))
             w1))).
Proof.
  intros Hf Hput. unfold updateWith, tryFinally, tryCatch.
  erewrite bind_run by reflexivity. erewrite bind_run by reflexivity.
  cbn [dashboard withDashboard dash_orders after snd Deliveries.setSaving modify].
  rewrite Hf. cbv zeta.
  unfold after in Hput. simpl in Hput. erewrite bind_run by exact Hput.
  reflexivity.
Qed.

Lemma updateWith_failed env change done failed id w o e w1 :
  List.find (λ x, bool_decide (Order_id x = id)) (dash_orders (dashboard w)) = Some o →
  Deliveries.storagePut env Deliveries.orders (change o)
    (after (Deliveries.setSaving true) w) = (Throw e, w1) →
  updateWith env change done failed id w
  = (Normal tt,
     after (Deliveries.setSaving false)
       (after (Deliveries.setMessage (Some (error failed))) w1)).
Proof.
  intros Hf Hput. unfold updateWith, tryFinally, tryCatch.
  erewrite bind_run by reflexivity. erewrite bind_run by reflexivity.
  cbn [dashboard withDashboard dash_orders after snd Deliveries.setSaving modify].
  rewrite Hf. cbv zeta.
  unfold after in Hput. simpl in Hput. erewrite bind_throws by exact Hput.
  reflexivity.
Qed.

Lemma inSync_frame env w w' :
  dash_orders (dashboard w') = dash_orders (dashboard w) →
  localStorage w' = localStorage w → cakeDB w' = cakeDB w →
  inSync env w → inSync env w'.
Proof. unfold inSync. by intros -> -> ->. Qed.

Lemma updateWith_keeps_sync env change done failed id w :
  isBrowser env = true →
  (∀ o, Order_id (change o) = Order_id o) →
  inSync env w → inSync env (after (updateWith env change done failed id) w).
Proof.
  intros Hb Hid Hsync. unfold after at 1.
  destruct (List.find (λ x, bool_decide (Order_id x = id)) (dash_orders (dashboard w)))
    as [o|] eqn:Hf.
  2:{ rewrite updateWith_unknown by done. by apply (inSync_frame env w). }
  destruct (find_by_id_Some _ _ _ Hf) as [Ho Hoid].
  destruct (hasIndexedDB env) eqn:Hidb.
  - destruct (idbOpenFails env) eqn:Hopen.
    + erewrite updateWith_failed; [|done|].
      2:{ unfold Deliveries.storagePut, Deliveries.idbPut, Deliveries.getDB.
          rewrite Hidb, Hopen. reflexivity. }
      by apply (inSync_frame env w).
    + erewrite updateWith_stored; [|done|].
      2:{ unfold Deliveries.storagePut, Deliveries.idbPut, Deliveries.getDB.
          rewrite Hidb, Hopen. reflexivity. }
      unfold inSync in *. rewrite Hidb in *. cbn.
      rewrite (map_replace_upsert id (change o) o); [|apply Hsync|done|by rewrite Hid].
      by apply (corresponds_put orders).
  - erewrite updateWith_stored; [|done|by apply dashboard_put_flat].
    unfold inSync in *. rewrite Hidb in *. destruct Hsync as [Hnd Heq].
    assert (map (λ x, if bool_decide (Order_id x = id) then change o else x)
              (dash_orders (dashboard w))
            = upsert orders (change o) (dash_orders (dashboard w))) as Hmap.
    { apply (map_replace_upsert id (change o) o); [done|done|by rewrite Hid]. }
    pose proof (upsert_NoDup orders (change o) _ Hnd) as Hnd'. rewrite <- Hmap in Hnd'.
    destruct (channelDelivers (channel env)); unfold after; cbn;
      (split; [exact Hnd' | rewrite <- Heq; exact Hmap]).
Qed.

Lemma removeOrder_keeps_sync env id w :
  inSync env w → inSync env (after (Deliveries.removeOrder env id) w).
Proof.
  intros Hsync. unfold after, Deliveries.removeOrder.
  destruct (negb (confirmAnswer env)); [done|].
  unfold tryFinally, tryCatch. erewrite bind_run by reflexivity.
  destruct (hasIndexedDB env) eqn:Hidb; [destruct (idbOpenFails env) eqn:Hopen|].
  - erewrite bind_throws; last first.
    { unfold Deliveries.idbDelete, Deliveries.getDB. rewrite Hidb, Hopen. reflexivity. }
    by apply (inSync_frame env w).
  - erewrite bind_run; last first.
    { unfold Deliveries.idbDelete, Deliveries.getDB. rewrite Hidb, Hopen. reflexivity. }
    unfold inSync in *. rewrite Hidb in *. cbn.
    by apply (corresponds_delete orders).
  - erewrite bind_throws; last first.
    { unfold Deliveries.idbDelete, Deliveries.getDB. rewrite Hidb. reflexivity. }
    by apply (inSync_frame env w).
Qed.

(** X14.  The dashboard's list keeps mirroring the stored orders.  If the
    list and the store hold the same orders, one per id, they still do after
    [updateStatus], [updateDate] and [removeOrder], on either backend, also
    when the write fails or the order is unknown (then neither changes). *)
Theorem dashboard_stays_in_sync env w :
  isBrowser env = true → inSync env w →
  (∀ id status, inSync env (after (Deliveries.updateStatus env id status) w))
  ∧ (∀ id newDate, inSync env (after (Deliveries.updateDate env id newDate) w))
  ∧ (∀ id, inSync env (after (Deliveries.removeOrder env id) w)).
Proof.
  intros Hb Hsync. split; [|split].
  - intros id status. rewrite updateStatus_updateWith.
    by apply updateWith_keeps_sync.
  - intros id newDate. rewrite updateDate_updateWith.
    by apply updateWith_keeps_sync.
  - intros id. by apply removeOrder_keeps_sync.
Qed.

Lemma dashboard_stays_in_sync_witness :
  isBrowser flatEnv = true ∧ inSync flatEnv dashboardWorld
  ∧ (∀ id status,
       inSync flatEnv (after (Deliveries.updateStatus flatEnv id status) dashboardWorld))
  ∧ (∀ id newDate,
       inSync flatEnv (after (Deliveries.updateDate flatEnv id newDate) dashboardWorld))
  ∧ (∀ id, inSync flatEnv (after (Deliveries.removeOrder flatEnv id) dashboardWorld)).
Proof.
  assert (inSync flatEnv dashboardWorld) as Hsync.
  { split; [|reflexivity]. apply (bool_decide_unpack _). vm_compute. exact I. }
  split; [reflexivity|]. split; [exact Hsync|].
  apply (dashboard_stays_in_sync flatEnv dashboardWorld); [reflexivity | exact Hsync].
Defined.

(** X15.  A load that is not cancelled and whose store opens ends with the
    list mirroring the store, the loading flag down and the message, the
    storage and the trace as they were. *)
Theorem load_mirrors_store env w :
  isBrowser env = true → idbOpenFails env = false → wfDatabase (cakeDB w) →
  NoDup (Order_id <$> stored orders (localStorage w)) →
  let w' := after (Deliveries.load env false) w in
  result (Deliveries.load env false) w = Normal tt
  ∧ inSync env w'
  ∧ dash_loading (dashboard w') = false
  ∧ dash_message (dashboard w') = dash_message (dashboard w)
  ∧ localStorage w' = localStorage w ∧ cakeDB w' = cakeDB w ∧ trace w' = trace w.
Proof.
  intros Hb Hopen Hwf Hnd. unfold result, after, Deliveries.load.
  erewrite bind_run by reflexivity. unfold tryFinally, tryCatch.
  destruct (hasIndexedDB env) eqn:Hidb.
  - erewrite bind_run; last first.
    { unfold Deliveries.storageGetAll, Deliveries.idbGetAll, Deliveries.getDB.
      rewrite Hidb, Hopen. reflexivity. }
    unfold inSync. rewrite Hidb. cbn. split; [done|]. split; [|done].
    apply (wfDatabase_corresponds orders _ Hwf).
  - erewrite bind_run; last first.
    { unfold Deliveries.storageGetAll. rewrite Hidb, dashboard_read_run, Hb.
      reflexivity. }
    unfold inSync. rewrite Hidb. by cbn.
Qed.

Lemma load_mirrors_store_witness :
  (isBrowser idbEnv = true ∧ idbOpenFails idbEnv = false
   ∧ wfDatabase (cakeDB stockedWorld)
   ∧ NoDup (Order_id <$> stored orders (localStorage stockedWorld))
   ∧ dash_orders (dashboard stockedWorld) = []
   ∧ dash_orders (dashboard (after (Deliveries.load idbEnv false) stockedWorld))
     = [mariasCake]
   ∧ let w' := after (Deliveries.load idbEnv false) stockedWorld in
     result (Deliveries.load idbEnv false) stockedWorld = Normal tt
     ∧ inSync idbEnv w'
     ∧ dash_loading (dashboard w') = false
     ∧ dash_message (dashboard w') = dash_message (dashboard stockedWorld)
     ∧ localStorage w' = localStorage stockedWorld ∧ cakeDB w' = cakeDB stockedWorld
     ∧ trace w' = trace stockedWorld)
  ∧ (isBrowser flatEnv = true ∧ idbOpenFails flatEnv = false
     ∧ wfDatabase (cakeDB shopWorld)
     ∧ NoDup (Order_id <$> stored orders (localStorage shopWorld))
     ∧ dash_orders (dashboard shopWorld) = []
     ∧ dash_orders (dashboard (after (Deliveries.load flatEnv false) shopWorld))
       = [mariasCake]
     ∧ let w' := after (Deliveries.load flatEnv false) shopWorld in
       result (Deliveries.load flatEnv false) shopWorld = Normal tt
       ∧ inSync flatEnv w'
       ∧ dash_loading (dashboard w') = false
       ∧ dash_message (dashboard w') = dash_message (dashboard shopWorld)
       ∧ localStorage w' = localStorage shopWorld ∧ cakeDB w' = cakeDB shopWorld
       ∧ trace w' = trace shopWorld).
Proof.
  assert (NoDup (Order_id <$> stored orders (localStorage shopWorld))) as Hnd.
  { apply (bool_decide_unpack _). vm_compute. exact I. }
  split.
  - split; [reflexivity|]. split; [reflexivity|]. split; [exact stockedDB_wf|].
    split; [exact Hnd|]. split; [reflexivity|]. split; [vm_compute; reflexivity|].
    apply (load_mirrors_store idbEnv stockedWorld);
      [reflexivity | reflexivity | exact stockedDB_wf | exact Hnd].
  - split; [reflexivity|]. split; [reflexivity|]. split; [apply wfDatabase_empty|].
    split; [exact Hnd|]. split; [reflexivity|]. split; [vm_compute; reflexivity|].
    apply (load_mirrors_store flatEnv shopWorld);
      [reflexivity | reflexivity | apply wfDatabase_empty | exact Hnd].
Defined.

(** X16.  A load whose store cannot be opened leaves the list as it was,
    puts up the error message and lowers the loading flag; a cancelled load
    (the page was left meanwhile) changes nothing but the loading flag, which
    it leaves raised, whatever the backend does. *)
Theorem load_failed_or_cancelled env w :
  (hasIndexedDB env = true → idbOpenFails env = true →
   Deliveries.load env false w
   = (Normal tt,
      after (Deliveries.setLoading false)
        (after (Deliveries.setMessage (Some (error "Falha ao carregar pedidos."))) w)))
  ∧ Deliveries.load env true w = (Normal tt, after (Deliveries.setLoading true) w).
Proof.
  split.
  - intros Hidb Hopen. unfold Deliveries.load.
    erewrite bind_run by reflexivity. unfold tryFinally, tryCatch.
    erewrite bind_throws; last first.
    { unfold Deliveries.storageGetAll, Deliveries.idbGetAll, Deliveries.getDB.
      rewrite Hidb, Hopen. reflexivity. }
    cbn. by destruct w as [? ? ? ? []].
  - unfold Deliveries.load.
    erewrite bind_run by reflexivity. unfold tryFinally, tryCatch.
    destruct (hasIndexedDB env) eqn:Hidb; [destruct (idbOpenFails env) eqn:Hopen|].
    + erewrite bind_throws; last first.
      { unfold Deliveries.storageGetAll, Deliveries.idbGetAll, Deliveries.getDB.
        rewrite Hidb, Hopen. reflexivity. }
      reflexivity.
    + erewrite bind_run; last first.
      { unfold Deliveries.storageGetAll, Deliveries.idbGetAll, Deliveries.getDB.
        rewrite Hidb, Hopen. reflexivity. }
      reflexivity.
    + erewrite bind_run; last first.
      { unfold Deliveries.storageGetAll. rewrite Hidb, dashboard_read_run.
        reflexivity. }
      reflexivity.
Qed.

Lemma find_by_id_fresh id (l : list Order) :
  Forall (λ x, Order_id x ≠ id) l →
  List.find (λ x, bool_decide (Order_id x = id)) l = None.
Proof.
  induction 1 as [|x l Hx Hl IH]; simpl; [done|]. by rewrite bool_decide_eq_false_2.
Qed.

(** X17.  Changing the status or the date of an order the list does not
    hold does nothing: no write, no message, no notification; only the
    saving flag is lowered at the end. *)
Theorem update_of_unknown_order env w id :
  Forall (λ x, Order_id x ≠ id) (dash_orders (dashboard w)) →
  (∀ status,
     Deliveries.updateStatus env id status w
     = (Normal tt, after (Deliveries.setSaving false) w))
  ∧ (∀ newDate,
     Deliveries.updateDate env id newDate w
     = (Normal tt, after (Deliveries.setSaving false) w)).
Proof.
  intros Hfresh%find_by_id_fresh. split.
  - intros status. rewrite updateStatus_updateWith. by apply updateWith_unknown.
  - intros newDate. rewrite updateDate_updateWith. by apply updateWith_unknown.
Qed.

Lemma update_of_unknown_order_witness :
  Forall (λ x, Order_id x ≠ "o-404") (dash_orders (dashboard dashboardWorld))
  ∧ (∀ status,
       Deliveries.updateStatus idbEnv "o-404" status dashboardWorld
       = (Normal tt, after (Deliveries.setSaving false) dashboardWorld))
  ∧ (∀ newDate,
       Deliveries.updateDate idbEnv "o-404" newDate dashboardWorld
       = (Normal tt, after (Deliveries.setSaving false) dashboardWorld)).
Proof.
  assert (Forall (λ x, Order_id x ≠ "o-404") (dash_orders (dashboard dashboardWorld)))
    as Hfresh.
  { apply (bool_decide_unpack _). vm_compute. exact I. }
  split; [exact Hfresh|].
  apply (update_of_unknown_order idbEnv dashboardWorld "o-404"). exact Hfresh.
Defined.

(** ** From the order-entry page to the dashboard *)

Lemma posted_app t1 t2 : posted (t1 ++ t2) = posted t1 ++ posted t2.
Proof. apply omap_app. Qed.

Lemma posted_writes evs :
  Forall (λ e, ∃ store, e = TxComplete store ∨ e = SetItem (lsKeys store)) evs →
  posted evs = [].
Proof.
  induction 1 as [|e evs (store & [-> | ->]) _ IH]; [done| |]; exact IH.
Qed.

Lemma load_run env w all :
  Deliveries.storageGetAll env Deliveries.orders (after (Deliveries.setLoading true) w)
  = (Normal all, after (Deliveries.setLoading true) w) →
  Deliveries.load env false w
  = (Normal tt,
     after (Deliveries.setLoading false)
       (after (Deliveries.setOrders (λ _, all)) (after (Deliveries.setLoading true) w))).
Proof.
  intros Hall. unfold Deliveries.load.
  erewrite bind_run by reflexivity. unfold tryFinally, tryCatch.
  unfold after in Hall. simpl in Hall. erewrite bind_run by exact Hall.
  reflexivity.
Qed.

Lemma dashboard_getAll_run env w :
  isBrowser env = true → idbOpenFails env = false →
  Deliveries.storageGetAll env Deliveries.orders w
  = (Normal (if hasIndexedDB env then store_getAll orders (cakeDB w)
             else stored orders (localStorage w)), w).
Proof.
  intros Hb Hopen. unfold Deliveries.storageGetAll.
  destruct (hasIndexedDB env) eqn:Hidb.
  - unfold Deliveries.idbGetAll, Deliveries.getDB. by rewrite Hidb, Hopen.
  - by rewrite dashboard_read_run, Hb.
Qed.

(** X18.  An order saved on the order-entry page shows up on the dashboard.
    In a browser whose channel delivers and whose store opens, [saveOrder]
    posts exactly one message, [orders_changed] with the order's id; when the
    dashboard's channel listener receives it, the dashboard reloads and its
    list then holds the saved order and mirrors the store, on either
    backend. *)
Theorem saved_order_reaches_dashboard env trim form id createdAt w :
  isBrowser env = true → idbOpenFails env = false →
  channelDelivers (channel env) = true →
  wfDatabase (cakeDB w) → NoDup (Order_id <$> stored orders (localStorage w)) →
  ∃ w1,
    Home.saveOrder env trim form id createdAt w
    = (Normal (Home.buildOrder trim form id createdAt), w1)
    ∧ posted (news w w1) = [mkMessage "orders_changed" id]
    ∧ let w2 := after (Listeners.onmessage env false (mkMessage "orders_changed" id)) w1 in
      Home.buildOrder trim form id createdAt ∈ dash_orders (dashboard w2)
      ∧ inSync env w2
      ∧ localStorage w2 = localStorage w1 ∧ cakeDB w2 = cakeDB w1
      ∧ trace w2 = trace w1.
Proof.
  intros Hb Hopen Hch Hwf Hnd.
  set (order := Home.buildOrder trim form id createdAt).
  assert (∃ wp evs,
            Home.storage_put env orders order w = (Normal tt, wp)
            ∧ trace wp = trace w ++ evs ∧ posted evs = []
            ∧ wfDatabase (cakeDB wp)
            ∧ NoDup (Order_id <$> stored orders (localStorage wp))
            ∧ order ∈ (if hasIndexedDB env then store_getAll orders (cakeDB wp)
                       else stored orders (localStorage wp)))
    as (wp & evs & Hput & Htrace & Hevs & Hwfp & Hndp & Hin).
  { destruct (hasIndexedDB env) eqn:Hidb.
    - eexists _, [TxComplete orders]. split; [by apply idb_put_run|].
      split; [reflexivity|]. split; [reflexivity|].
      split; [by apply wfDatabase_put|]. split; [done|].
      cbn [cakeDB emit withCakeDB]. rewrite (store_put_getAll orders order) by done.
      apply elem_of_upsert_same.
    - eexists _, [SetItem "cakeOrders"]. split; [by apply flat_put_run|].
      split; [reflexivity|]. split; [reflexivity|].
      split; [done|]. cbn [localStorage emit withLocalStorage].
      rewrite (stored_setItem_same orders).
      split; [by apply (upsert_NoDup orders) | apply elem_of_upsert_same]. }
  exists (emit (Posted (mkMessage "orders_changed" id)) wp).
  split.
  { unfold Home.saveOrder. fold order. erewrite bind_run by exact Hput.
    erewrite bind_run by apply publish_run. by rewrite Hb, Hch. }
  split.
  { unfold news. cbn [trace emit]. rewrite Htrace, <- app_assoc, drop_app_length.
    by rewrite posted_app, Hevs. }
  cbv zeta. unfold Listeners.onmessage. cbn [msg_type].
  rewrite bool_decide_eq_true_2 by done.
  unfold after at 1 2 3 4 5.
  erewrite load_run by (by apply dashboard_getAll_run).
  unfold after. cbn. unfold inSync. cbn.
  destruct (hasIndexedDB env) eqn:Hidb.
  - split; [exact Hin|]. split; [|done].
    apply (wfDatabase_corresponds orders _ Hwfp).
  - split; [exact Hin|]. by split.
Qed.

Lemma saved_order_reaches_dashboard_witness :
  isBrowser idbEnv = true ∧ idbOpenFails idbEnv = false
  ∧ channelDelivers (channel idbEnv) = true
  ∧ wfDatabase (cakeDB emptyWorld)
  ∧ NoDup (Order_id <$> stored orders (localStorage emptyWorld))
  ∧ ∃ w1,
    Home.saveOrder idbEnv (λ s, s) sampleForm "o2" "2025-02-01T09:00:00.000Z" emptyWorld
    = (Normal (Home.buildOrder (λ s, s) sampleForm "o2" "2025-02-01T09:00:00.000Z"), w1)
    ∧ posted (news emptyWorld w1) = [mkMessage "orders_changed" "o2"]
    ∧ let w2 := after (Listeners.onmessage idbEnv false (mkMessage "orders_changed" "o2")) w1 in
      Home.buildOrder (λ s, s) sampleForm "o2" "2025-02-01T09:00:00.000Z"
        ∈ dash_orders (dashboard w2)
      ∧ inSync idbEnv w2
      ∧ localStorage w2 = localStorage w1 ∧ cakeDB w2 = cakeDB w1
      ∧ trace w2 = trace w1.
Proof.
  split; [reflexivity|]. split; [reflexivity|]. split; [reflexivity|].
  split; [apply wfDatabase_empty|]. split; [apply NoDup_nil_2|].
  apply (saved_order_reaches_dashboard idbEnv (λ s, s) sampleForm "o2"
           "2025-02-01T09:00:00.000Z" emptyWorld);
    [reflexivity | reflexivity | reflexivity | apply wfDatabase_empty | apply NoDup_nil_2].
Defined.

(** ** The telephone mask *)

Lemma allDigits_replace s : allDigits (replace_nonDigits s).
Proof.
  induction s as [|c s IH]; simpl; [done|].
  destruct (isDigit c) eqn:Hc; simpl; auto.
Qed.

Lemma allDigits_prefix n s : allDigits s → allDigits (String.substring 0 n s).
Proof.
  revert s. induction n as [|n IH]; intros [|c s]; simpl; try done.
  intros [Hc Hs]. auto.
Qed.

Lemma length_prefix n s : (String.length (String.substring 0 n s) ≤ n)%nat.
Proof.
  revert s. induction n as [|n IH]; intros [|c s]; simpl; try lia.
  specialize (IH s). lia.
Qed.

Lemma prefix_short n s : (String.length s ≤ n)%nat → String.substring 0 n s = s.
Proof.
  revert s. induction n as [|n IH]; intros [|c s]; simpl; try done; try lia.
  intros Hs. f_equal. apply IH. lia.
Qed.

Lemma replace_allDigits s : allDigits s → replace_nonDigits s = s.
Proof.
  induction s as [|c s IH]; simpl; [done|]. intros [-> Hs]. by rewrite IH.
Qed.

Lemma replace_digit c s :
  isDigit c = true → replace_nonDigits (String c s) = String c (replace_nonDigits s).
Proof. intros Hc. simpl. by rewrite Hc. Qed.

Lemma replace_other c s :
  isDigit c = false → replace_nonDigits (String c s) = replace_nonDigits s.
Proof. intros Hc. simpl. by rewrite Hc. Qed.

(** On at most eleven digits the mask only adds punctuation. *)
Lemma formatPhone_digits d :
  allDigits d → (String.length d ≤ 11)%nat →
  replace_nonDigits (formatPhone d) = d ∧ (String.length (formatPhone d) ≤ 15)%nat.
Proof.
  intros Hd Hlen. unfold formatPhone.
  rewrite (replace_allDigits d Hd). unfold slice at 1. rewrite Nat.sub_0_r.
  rewrite (prefix_short 11 d Hlen).
  do 12 (destruct d as [|? d];
    [ simpl in Hd; cbn -[isDigit replace_nonDigits]; cbv [String.append];
      cbn [String.length];
      repeat match goal with H : _ ∧ _ |- _ => destruct H as [? H] end;
      split; [|lia];
      repeat first [ rewrite replace_digit by assumption
                   | rewrite replace_other by reflexivity ];
      reflexivity |]).
  simpl in Hlen. lia.
Qed.

Lemma formatPhone_of_digits input :
  formatPhone input = formatPhone (slice 0 (Some 11%nat) (replace_nonDigits input)).
Proof.
  unfold formatPhone. set (d := slice 0 (Some 11%nat) (replace_nonDigits input)).
  assert (slice 0 (Some 11%nat) (replace_nonDigits d) = d) as ->; [|done].
  rewrite replace_allDigits by apply allDigits_prefix, allDigits_replace.
  unfold slice at 1. rewrite Nat.sub_0_r. apply prefix_short, length_prefix.
Qed.

(** X19.  The telephone mask keeps the digits and nothing else of what was
    typed: the digits of [formatPhone input] are the first eleven digits of
    the input, in order; the result is at most 15 characters long; and
    masking a masked number changes nothing, which is what lets the page
    apply it to the field's whole value on every keystroke. *)
Theorem formatPhone_keeps_digits input :
  replace_nonDigits (formatPhone input) = slice 0 (Some 11%nat) (replace_nonDigits input)
  ∧ (String.length (formatPhone input) ≤ 15)%nat
  ∧ formatPhone (formatPhone input) = formatPhone input.
Proof.
  assert (allDigits (slice 0 (Some 11%nat) (replace_nonDigits input))) as Hd
    by apply allDigits_prefix, allDigits_replace.
  assert (String.length (slice 0 (Some 11%nat) (replace_nonDigits input)) ≤ 11)%nat as Hlen
    by apply length_prefix.
  destruct (formatPhone_digits _ Hd Hlen) as [Hdigits Hshort].
  rewrite <- formatPhone_of_digits in Hdigits, Hshort.
  split; [done|]. split; [done|].
  rewrite (formatPhone_of_digits (formatPhone input)), Hdigits.
  unfold slice at 1. rewrite Nat.sub_0_r, (prefix_short 11 _ Hlen).
  symmetry. apply formatPhone_of_digits.
Qed.

(** ** Month navigation *)

(** X20.  [prevMonth] and [nextMonth] step the calendar by exactly one month
    and undo each other: counted from year 0 the month goes down, resp. up,
    by one; a month within 0..11 stays within 0..11; and from such a month
    each of the two is the inverse of the other. *)
Theorem month_navigation v :
  (0 ≤ Calendar.month v ≤ 11)%Z →
  monthIndex (Calendar.prevMonth v) = (monthIndex v - 1)%Z
  ∧ monthIndex (Calendar.nextMonth v) = (monthIndex v + 1)%Z
  ∧ (0 ≤ Calendar.month (Calendar.prevMonth v) ≤ 11)%Z
  ∧ (0 ≤ Calendar.month (Calendar.nextMonth v) ≤ 11)%Z
  ∧ Calendar.nextMonth (Calendar.prevMonth v) = v
  ∧ Calendar.prevMonth (Calendar.nextMonth v) = v.
Proof.
  destruct v as [y m]. cbn [Calendar.month]. intros Hm.
  unfold monthIndex, Calendar.prevMonth, Calendar.nextMonth,
    Calendar.setMonth, Calendar.setYear.
  assert (m = 0 ∨ m = 11 ∨ 0 < m < 11)%Z as [-> | [-> | Hmid]] by lia;
    repeat (cbn [Calendar.month Calendar.year];
            first [ rewrite Z.eqb_refl
                  | rewrite (proj2 (Z.eqb_neq _ _)) by lia ]);
    cbn [Calendar.month Calendar.year];
    repeat split; try lia; f_equal; lia.
Qed.

Lemma month_navigation_witness :
  (0 ≤ Calendar.month (Calendar.mkMonthView 2025 0) ≤ 11)%Z
  ∧ monthIndex (Calendar.prevMonth (Calendar.mkMonthView 2025 0))
    = (monthIndex (Calendar.mkMonthView 2025 0) - 1)%Z
  ∧ monthIndex (Calendar.nextMonth (Calendar.mkMonthView 2025 0))
    = (monthIndex (Calendar.mkMonthView 2025 0) + 1)%Z
  ∧ (0 ≤ Calendar.month (Calendar.prevMonth (Calendar.mkMonthView 2025 0)) ≤ 11)%Z
  ∧ (0 ≤ Calendar.month (Calendar.nextMonth (Calendar.mkMonthView 2025 0)) ≤ 11)%Z
  ∧ Calendar.nextMonth (Calendar.prevMonth (Calendar.mkMonthView 2025 0))
    = Calendar.mkMonthView 2025 0
  ∧ Calendar.prevMonth (Calendar.nextMonth (Calendar.mkMonthView 2025 0))
    = Calendar.mkMonthView 2025 0.
Proof.
  split; [simpl; lia|].
  apply (month_navigation (Calendar.mkMonthView 2025 0)). simpl. lia.
Defined.

(** ** The month grid *)

Lemma omap_fmap_compose {A B C} (f : B → option C) (g : A → B) (l : list A) :
  omap f (g <$> l) = omap (f ∘ g) l.
Proof. induction l as [|x l IH]; csimpl; [done|]. by rewrite IH. Qed.

Lemma omap_all_None {A B} (f : A → option B) (l : list A) :
  Forall (λ x, f x = None) l → omap f l = [].
Proof. induction 1 as [|x l Hx _ IH]; csimpl; [done|]. by rewrite Hx. Qed.

Lemma omap_all_Some {A B} (f : A → option B) (g : A → B) (l : list A) :
  Forall (λ x, f x = Some (g x)) l → omap f l = g <$> l.
Proof. induction 1 as [|x l Hx _ IH]; csimpl; [done|]. by rewrite Hx, IH. Qed.

Lemma append_inj_r (s t1 t2 : string) : s +:+ t1 = s +:+ t2 → t1 = t2.
Proof.
  induction s as [|c s IH]; cbv [String.append]; [done|].
  intros [= H]. by apply IH.
Qed.

(** X21.  The grid shows every day of the month exactly once, in order.
    For a month starting on weekday [leading] with [daysInMonth] days that
    fit the grid (as any weekday 0..6 and any length up to 31 do), [cells]
    has 42 cells under pairwise distinct keys; the cell at index
    [leading + d - 1] is day [d], carrying the [ymd] text of that date; a
    cell is in the month exactly when its index lies in
    [leading .. leading + daysInMonth - 1]; and the day numbers read in grid
    order are 1, 2, .., [daysInMonth]. *)
Theorem cells_grid new_Date year month leading daysInMonth :
  (0 ≤ leading)%Z → (0 ≤ daysInMonth)%Z → (leading + daysInMonth ≤ 42)%Z →
  length (Calendar.cells new_Date year month leading daysInMonth) = 42%nat
  ∧ NoDup (Calendar.key <$> Calendar.cells new_Date year month leading daysInMonth)
  ∧ omap Calendar.dayNumber (Calendar.cells new_Date year month leading daysInMonth)
    = seqZ 1 daysInMonth
  ∧ (∀ (i : nat) c,
       Calendar.cells new_Date year month leading daysInMonth !! i = Some c →
       Calendar.inMonth c = true ↔ (leading ≤ Z.of_nat i < leading + daysInMonth)%Z)
  ∧ (∀ d, (1 ≤ d ≤ daysInMonth)%Z →
       ∃ c, Calendar.cells new_Date year month leading daysInMonth
              !! Z.to_nat (leading + d - 1) = Some c
            ∧ Calendar.dayNumber c = Some d
            ∧ Calendar.dateStr c = Some (Calendar.ymd (new_Date year month d))).
Proof.
  intros Hlead Hdays Hfit. unfold Calendar.cells, Calendar.totalCells.
  split; [by rewrite length_fmap, length_seqZ|]. split; [|split; [|split]].
  - rewrite <- list_fmap_compose.
    assert (NoDup (Calendar.String_ <$> seqZ 0 42)) as Hnd.
    { apply (bool_decide_unpack _). vm_compute. exact I. }
    rewrite (list_fmap_compose Calendar.String_
               (λ s, Calendar.String_ year +:+ "-" +:+ Calendar.String_ month +:+ "-" +:+ s)).
    apply NoDup_fmap_2; [|exact Hnd].
    intros s1 s2 Heq. by do 4 apply append_inj_r in Heq.
  - rewrite omap_fmap_compose.
    replace 42%Z with (leading + (daysInMonth + (42 - leading - daysInMonth)))%Z by lia.
    rewrite !seqZ_app by lia. rewrite !omap_app.
    rewrite (omap_all_None _ (seqZ 0 leading)), (omap_all_None _ (seqZ _ (42 - _ - _))).
    + rewrite app_nil_r. cbn [app].
      rewrite (omap_all_Some _ (Z.add (1 - leading))).
      * rewrite fmap_add_seqZ. f_equal. lia.
      * apply Forall_seqZ. intros i Hi. cbn.
        rewrite (proj2 (Z.leb_le _ _)), (proj2 (Z.leb_le _ _)) by lia.
        cbn. f_equal. lia.
    + apply Forall_seqZ. intros i Hi. cbn.
      rewrite (proj2 (Z.leb_le 1 _)), (proj2 (Z.leb_gt _ _)) by lia. done.
    + apply Forall_seqZ. intros i Hi. cbn.
      rewrite (proj2 (Z.leb_gt _ _)) by lia. done.
  - intros i c. rewrite list_lookup_fmap, fmap_Some.
    intros (j & [-> Hj]%lookup_seqZ & ->). cbn [Calendar.inMonth].
    rewrite andb_true_iff, !Z.leb_le. lia.
  - intros d Hd. eexists. split.
    + rewrite list_lookup_fmap.
      rewrite (proj2 (lookup_seqZ 0 42 (Z.to_nat (leading + d - 1)) (leading + d - 1)%Z))
        by lia.
      reflexivity.
    + cbn [Calendar.dayNumber Calendar.dateStr].
      replace (leading + d - 1 - leading + 1)%Z with d by lia.
      rewrite (proj2 (Z.leb_le 1 d)), (proj2 (Z.leb_le d daysInMonth)) by lia.
      done.
Qed.

Lemma cells_grid_witness :
  (0 ≤ 3)%Z ∧ (0 ≤ 31)%Z ∧ (3 + 31 ≤ 42)%Z
  ∧ length (Calendar.cells Calendar.mkDate 2025 0 3 31) = 42%nat
  ∧ NoDup (Calendar.key <$> Calendar.cells Calendar.mkDate 2025 0 3 31)
  ∧ omap Calendar.dayNumber (Calendar.cells Calendar.mkDate 2025 0 3 31) = seqZ 1 31
  ∧ (∀ (i : nat) c,
       Calendar.cells Calendar.mkDate 2025 0 3 31 !! i = Some c →
       Calendar.inMonth c = true ↔ (3 ≤ Z.of_nat i < 3 + 31)%Z)
  ∧ (∀ d, (1 ≤ d ≤ 31)%Z →
       ∃ c, Calendar.cells Calendar.mkDate 2025 0 3 31 !! Z.to_nat (3 + d - 1) = Some c
            ∧ Calendar.dayNumber c = Some d
            ∧ Calendar.dateStr c = Some (Calendar.ymd (Calendar.mkDate 2025 0 d))).
Proof.
  split; [lia|]. split; [lia|]. split; [lia|].
  apply (cells_grid Calendar.mkDate 2025 0 3 31); lia.
Defined.

(** ** The date text *)

Lemma append_length (s t : string) :
  String.length (s +:+ t) = (String.length s + String.length t)%nat.
Proof.
  induction s as [|c s IH]; cbv [String.append]; [done|].
  fold String.append. cbn [String.length]. by rewrite IH.
Qed.

Lemma string_append_assoc (a b c : string) : (a +:+ b) +:+ c = a +:+ b +:+ c.
Proof.
  induction a as [|x a IH]; cbv [String.append]; [done|].
  fold String.append. by rewrite IH.
Qed.

Lemma substring_append_l n (s t : string) :
  String.length s = n → String.substring 0 n (s +:+ t) = s.
Proof.
  revert n. induction s as [|c s IH]; intros n <-; cbv [String.append].
  - by destruct t.
  - fold String.append. cbn [String.length String.substring]. by rewrite IH.
Qed.

Lemma substring_append_r n m (s t : string) :
  String.length s = n → String.substring n m (s +:+ t) = String.substring 0 m t.
Proof.
  revert n. induction s as [|c s IH]; intros n <-; cbv [String.append]; [done|].
  fold String.append. cbn [String.length String.substring]. by apply IH.
Qed.

Lemma year_text y :
  (1000 ≤ y ≤ 9999)%Z →
  String.length (Calendar.String_ y) = 4%nat ∧ readDecimal (Calendar.String_ y) = y.
Proof.
  intros Hy.
  assert (Forall (λ y, String.length (Calendar.String_ y) = 4%nat
                       ∧ readDecimal (Calendar.String_ y) = y) (seqZ 1000 9000)) as Hall.
  { apply (bool_decide_unpack _). vm_compute. exact I. }
  rewrite Forall_seqZ in Hall. apply Hall. lia.
Qed.

Lemma padded_text n :
  (1 ≤ n ≤ 31)%Z →
  String.length (Calendar.padStart 2 "0" (Calendar.String_ n)) = 2%nat
  ∧ readDecimal (Calendar.padStart 2 "0" (Calendar.String_ n)) = n.
Proof.
  intros Hn.
  assert (Forall (λ n, String.length (Calendar.padStart 2 "0" (Calendar.String_ n)) = 2%nat
                       ∧ readDecimal (Calendar.padStart 2 "0" (Calendar.String_ n)) = n)
            (seqZ 1 31)) as Hall.
  { apply (bool_decide_unpack _). vm_compute. exact I. }
  rewrite Forall_seqZ in Hall. apply Hall. lia.
Qed.

(** X22.  [ymd] writes a date of a four-digit year as ten characters,
    YYYY-MM-DD with the month counted from 1, from which the three fields
    read back; so two such dates with the same text are the same date. *)
Theorem ymd_reads_back d :
  civil d →
  String.length (Calendar.ymd d) = 10%nat
  ∧ readDecimal (slice 0 (Some 4%nat) (Calendar.ymd d)) = Calendar.getFullYear d
  ∧ slice 4 (Some 5%nat) (Calendar.ymd d) = "-"
  ∧ readDecimal (slice 5 (Some 7%nat) (Calendar.ymd d)) = (Calendar.getMonth d + 1)%Z
  ∧ slice 7 (Some 8%nat) (Calendar.ymd d) = "-"
  ∧ readDecimal (slice 8 (Some 10%nat) (Calendar.ymd d)) = Calendar.getDate d
  ∧ (∀ d', civil d' → Calendar.ymd d' = Calendar.ymd d → d' = d).
Proof.
  assert (∀ d, civil d →
            String.length (Calendar.ymd d) = 10%nat
            ∧ readDecimal (slice 0 (Some 4%nat) (Calendar.ymd d)) = Calendar.getFullYear d
            ∧ slice 4 (Some 5%nat) (Calendar.ymd d) = "-"
            ∧ readDecimal (slice 5 (Some 7%nat) (Calendar.ymd d)) = (Calendar.getMonth d + 1)%Z
            ∧ slice 7 (Some 8%nat) (Calendar.ymd d) = "-"
            ∧ readDecimal (slice 8 (Some 10%nat) (Calendar.ymd d)) = Calendar.getDate d)
    as Hread.
  { clear d. intros [y m dd] (Hy & Hm & Hd). cbn [Calendar.getFullYear Calendar.getMonth
      Calendar.getDate] in *. unfold Calendar.ymd, slice.
    cbn [Calendar.getFullYear Calendar.getMonth Calendar.getDate Nat.sub].
    destruct (year_text y Hy) as [Hy4 Hyr].
    destruct (padded_text (m + 1) ltac:(lia)) as [Hm2 Hmr].
    destruct (padded_text dd ltac:(lia)) as [Hd2 Hdr].
    set (Y := Calendar.String_ y) in *.
    set (M := Calendar.padStart 2 "0" (Calendar.String_ (m + 1))) in *.
    set (D := Calendar.padStart 2 "0" (Calendar.String_ dd)) in *.
    split. { rewrite !append_length, Hy4, Hm2, Hd2. reflexivity. }
    split. { by rewrite substring_append_l. }
    split. { rewrite (substring_append_r 4) by done. by apply substring_append_l. }
    rewrite <- (string_append_assoc Y "-").
    split.
    { rewrite (substring_append_r 5) by (rewrite append_length, Hy4; reflexivity).
      by rewrite substring_append_l. }
    rewrite <- (string_append_assoc (Y +:+ "-") M).
    split.
    { rewrite (substring_append_r 7)
        by (rewrite !append_length, Hy4, Hm2; reflexivity).
      by apply substring_append_l. }
    rewrite <- (string_append_assoc ((Y +:+ "-") +:+ M) "-").
    rewrite (substring_append_r 8)
      by (rewrite !append_length, Hy4, Hm2; reflexivity).
    rewrite (prefix_short 2 D) by lia. exact Hdr. }
  intros Hd. destruct (Hread d Hd) as (H1 & H2 & H3 & H4 & H5 & H6).
  repeat (split; [assumption|]).
  intros d' Hd' Heq. destruct (Hread d' Hd') as (_ & H2' & _ & H4' & _ & H6').
  rewrite Heq in H2', H4', H6'.
  destruct d as [y m dd], d' as [y' m' dd'].
  cbn [Calendar.getFullYear Calendar.getMonth Calendar.getDate] in *.
  f_equal; lia.
Qed.

Lemma ymd_reads_back_witness :
  civil (Calendar.mkDate 2025 0 31)
  ∧ String.length (Calendar.ymd (Calendar.mkDate 2025 0 31)) = 10%nat
  ∧ readDecimal (slice 0 (Some 4%nat) (Calendar.ymd (Calendar.mkDate 2025 0 31))) = 2025%Z
  ∧ slice 4 (Some 5%nat) (Calendar.ymd (Calendar.mkDate 2025 0 31)) = "-"
  ∧ readDecimal (slice 5 (Some 7%nat) (Calendar.ymd (Calendar.mkDate 2025 0 31)))
    = (0 + 1)%Z
  ∧ slice 7 (Some 8%nat) (Calendar.ymd (Calendar.mkDate 2025 0 31)) = "-"
  ∧ readDecimal (slice 8 (Some 10%nat) (Calendar.ymd (Calendar.mkDate 2025 0 31))) = 31%Z
  ∧ (∀ d', civil d' →
       Calendar.ymd d' = Calendar.ymd (Calendar.mkDate 2025 0 31) →
       d' = Calendar.mkDate 2025 0 31).
Proof.
  assert (civil (Calendar.mkDate 2025 0 31)) as Hd by (unfold civil; simpl; lia).
  split; [exact Hd|]. apply (ymd_reads_back (Calendar.mkDate 2025 0 31) Hd).
Defined.

(** ** The handlers of the order-entry page *)

Lemma bindP_run {A B} (m : HomePage.Handler A) (k : A → HomePage.Handler B) p a p1 :
  m p = (Normal a, p1) → (x ← m; k x) p = k a p1.
Proof. intros H. unfold mbind, HomePage.Handler_bind, HomePage.bindP. by rewrite H. Qed.

Lemma bindP_throws {A B} (m : HomePage.Handler A) (k : A → HomePage.Handler B) p e p1 :
  m p = (Throw e, p1) → (x ← m; k x) p = (Throw e, p1).
Proof. intros H. unfold mbind, HomePage.Handler_bind, HomePage.bindP. by rewrite H. Qed.

Lemma run_run {A} (m : JS A) p r w :
  m (HomePage.world p) = (r, w) → HomePage.run m p = (r, HomePage.mkPage w (HomePage.form p)).
Proof. intros H. unfold HomePage.run. by rewrite H. Qed.

(** The shape the handlers share: raise the saving flag, write, update the
    page; on a failed write show the error instead; lower the flag. *)
Lemma guarded_write_ok {A} (write : JS A) (rest : A → HomePage.Handler unit) failed
    p a w1 p2 :
  write (after (Home.setSaving true) (HomePage.world p)) = (Normal a, w1) →
  rest a (HomePage.mkPage w1 (HomePage.form p)) = (Normal tt, p2) →
  HomePage.tryFinallyP
    (HomePage.tryCatchP
       (_ ← HomePage.run (Home.setSaving true); x ← HomePage.run write; rest x)
       (λ _, HomePage.run (Home.setMessage failed)))
    (HomePage.run (Home.setSaving false)) p
  = (Normal tt,
     HomePage.mkPage (after (Home.setSaving false) (HomePage.world p2)) (HomePage.form p2)).
Proof.
  intros Hwrite Hrest. unfold HomePage.tryFinallyP, HomePage.tryCatchP.
  erewrite bindP_run by (apply run_run; reflexivity).
  erewrite bindP_run by (apply run_run; exact Hwrite).
  cbn [HomePage.form HomePage.world]. rewrite Hrest. reflexivity.
Qed.

Lemma guarded_write_failed {A} (write : JS A) (rest : A → HomePage.Handler unit) failed
    p e w1 :
  write (after (Home.setSaving true) (HomePage.world p)) = (Throw e, w1) →
  HomePage.tryFinallyP
    (HomePage.tryCatchP
       (_ ← HomePage.run (Home.setSaving true); x ← HomePage.run write; rest x)
       (λ _, HomePage.run (Home.setMessage failed)))
    (HomePage.run (Home.setSaving false)) p
  = (Normal tt,
     HomePage.mkPage
       (after (Home.setSaving false) (after (Home.setMessage failed) w1))
       (HomePage.form p)).
Proof.
  intros Hwrite. unfold HomePage.tryFinallyP, HomePage.tryCatchP.
  erewrite bindP_run by (apply run_run; reflexivity).
  erewrite bindP_throws by (apply run_run; exact Hwrite).
  reflexivity.
Qed.

(** What a write of the adapter does in a browser, by backend. *)
Lemma storage_put_cases env store (v : StoreMap store) w :
  isBrowser env = true →
  (hasIndexedDB env = true ∧ idbOpenFails env = true
   ∧ Home.storage_put env store v w = (Throw OpenFailed, w))
  ∨ ((hasIndexedDB env = false ∨ idbOpenFails env = false)
     ∧ ∃ w1, Home.storage_put env store v w = (Normal tt, w1)
       ∧ home w1 = home w ∧ framed store w w1
       ∧ ∀ l, mirrors env store l w → mirrors env store (upsert store v l) w1).
Proof.
  intros Hb. destruct (hasIndexedDB env) eqn:Hidb; [destruct (idbOpenFails env) eqn:Hopen|].
  - left. split; [done|]. split; [done|].
    unfold Home.storage_put, Home.idbPut, Home.getDB. by rewrite Hidb, Hopen.
  - right. split; [by right|]. eexists. split; [by apply idb_put_run|].
    split; [done|]. split.
    { pose proof (storage_put_framed env store v w) as Hf. unfold after in Hf.
      by rewrite idb_put_run in Hf. }
    intros l. unfold mirrors. rewrite Hidb. cbn [cakeDB emit withCakeDB].
    rewrite objectStore_set_same. apply corresponds_put.
  - right. split; [by left|]. eexists. split; [by apply flat_put_run|].
    split; [done|]. split; [apply framed_setItem|].
    intros l. unfold mirrors. rewrite Hidb. cbn [localStorage emit withLocalStorage].
    rewrite stored_setItem_same. intros [Hnd <-].
    split; [by apply upsert_NoDup | done].
Qed.

Lemma storage_delete_cases env store key w :
  isBrowser env = true →
  (hasIndexedDB env = true ∧ idbOpenFails env = true
   ∧ Home.storage_delete env store key w = (Throw OpenFailed, w))
  ∨ ((hasIndexedDB env = false ∨ idbOpenFails env = false)
     ∧ ∃ w1, Home.storage_delete env store key w = (Normal tt, w1)
       ∧ home w1 = home w ∧ framed store w w1
       ∧ ∀ l, mirrors env store l w →
              mirrors env store (filter (λ x, Home.getKeyValue store x ≠ key) l) w1).
Proof.
  intros Hb. destruct (hasIndexedDB env) eqn:Hidb; [destruct (idbOpenFails env) eqn:Hopen|].
  - left. split; [done|]. split; [done|].
    unfold Home.storage_delete, Home.idbDelete, Home.getDB. by rewrite Hidb, Hopen.
  - right. split; [by right|]. eexists. split; [by apply idb_delete_run|].
    split; [done|]. split.
    { pose proof (storage_delete_framed env store key w) as Hf. unfold after in Hf.
      by rewrite idb_delete_run in Hf. }
    intros l. unfold mirrors. rewrite Hidb. cbn [cakeDB emit withCakeDB].
    rewrite objectStore_set_same. apply corresponds_delete.
  - right. split; [by left|]. eexists. split; [by apply flat_delete_run|].
    split; [done|]. split; [apply framed_setItem|].
    intros l. unfold mirrors. rewrite Hidb. cbn [localStorage emit withLocalStorage].
    rewrite stored_setItem_same. intros [Hnd <-].
    split; [by apply filter_NoDup_keys | done].
Qed.

Lemma mirrors_storage env store l w w' :
  localStorage w' = localStorage w → cakeDB w' = cakeDB w →
  mirrors env store l w → mirrors env store l w'.
Proof. unfold mirrors. by intros -> ->. Qed.

Lemma mirrors_framed env store store' l w w' :
  framed store w w' → store' ≠ store →
  mirrors env store' l w → mirrors env store' l w'.
Proof.
  intros [Hother _] Hne. destruct (Hother store' Hne) as [Hdb Hls].
  unfold mirrors, stored. by rewrite Hdb, Hls.
Qed.

(** After a write on [store] that went through, with the lists on screen
    set to [fl] and [cl]. *)
Ltac sync_after Hhome Hm Hframed Hfl Hcl :=
  split; cbn; rewrite Hhome;
  [ eapply mirrors_storage; [| |apply Hm]; [reflexivity|reflexivity|];
    eapply mirrors_storage; [| |first [exact Hfl | exact Hcl]]; reflexivity
  | eapply mirrors_storage;
      [| |eapply mirrors_framed; [exact Hframed|done|]];
      [reflexivity|reflexivity|];
    eapply mirrors_storage; [| |first [exact Hcl | exact Hfl]]; reflexivity ].

Lemma handleRemoveFlavor_keeps_sync env flavorName p :
  isBrowser env = true → catalogInSync env (HomePage.world p) →
  catalogInSync env (HomePage.world (pageAfter (HomePage.handleRemoveFlavor env flavorName) p)).
Proof.
  intros Hb [Hfl Hcl]. unfold pageAfter, HomePage.handleRemoveFlavor.
  erewrite bindP_run by reflexivity.
  destruct (storage_delete_cases env flavors flavorName
              (after (Home.setSaving true) (HomePage.world p)) Hb)
    as [(_ & _ & Hdel) | (_ & w1 & Hdel & Hhome & Hframed & Hm)].
  - erewrite guarded_write_failed by exact Hdel.
    split; (eapply mirrors_storage; [| |eassumption]; reflexivity).
  - destruct (bool_decide (HomePage.flavor (HomePage.form p) = flavorName));
      (erewrite guarded_write_ok; [|exact Hdel|reflexivity]);
      sync_after Hhome Hm Hframed Hfl Hcl.
Qed.

Lemma handleRemoveClient_keeps_sync env clientId w :
  isBrowser env = true → catalogInSync env w →
  catalogInSync env (after (Home.handleRemoveClient env clientId) w).
Proof.
  intros Hb [Hfl Hcl]. unfold after, Home.handleRemoveClient, tryFinally, tryCatch.
  erewrite bind_run by reflexivity.
  destruct (storage_delete_cases env clients clientId
              (after (Home.setSaving true) w) Hb)
    as [(_ & _ & Hdel) | (_ & w1 & Hdel & Hhome & Hframed & Hm)].
  - unfold after in Hdel. simpl in Hdel. erewrite bind_throws by exact Hdel.
    split; (eapply mirrors_storage; [| |eassumption]; reflexivity).
  - unfold after in Hdel, Hhome, Hframed, Hm. simpl in Hdel, Hhome, Hframed, Hm.
    erewrite bind_run by exact Hdel.
    split; cbn; rewrite Hhome.
    + eapply mirrors_storage;
        [| |eapply (mirrors_framed env clients flavors); [exact Hframed|done|]];
        [reflexivity|reflexivity|].
      eapply mirrors_storage; [| |exact Hfl]; reflexivity.
    + eapply mirrors_storage; [| |apply Hm]; [reflexivity|reflexivity|].
      eapply mirrors_storage; [| |exact Hcl]; reflexivity.
Qed.

Lemma upsert_all_fresh store (v : StoreMap store) l :
  Forall (λ x, Home.getKeyValue store x ≠ Home.getKeyValue store v) l →
  upsert store v l = l ++ [v].
Proof.
  induction 1 as [|x l Hx _ IH]; [done|].
  rewrite upsert_cons, bool_decide_eq_false_2 by done. by rewrite IH.
Qed.

Lemma upsert_replace store (v : StoreMap store) l :
  NoDup (Home.getKeyValue store <$> l) →
  Exists (λ x, Home.getKeyValue store x = Home.getKeyValue store v) l →
  upsert store v l
  = map (λ x, if bool_decide (Home.getKeyValue store x = Home.getKeyValue store v)
              then v else x) l.
Proof.
  intros Hnd Hex. induction l as [|x l IH]; [by apply Exists_nil in Hex|].
  rewrite fmap_cons, NoDup_cons in Hnd. destruct Hnd as [Hx Hnd].
  rewrite upsert_cons. cbn [map]. case_bool_decide as Hk.
  - f_equal. symmetry. transitivity (map id l); [|apply map_id].
    apply map_ext_in. intros y Hy%list_elem_of_In.
    rewrite bool_decide_eq_false_2; [done|].
    intros Heq. apply Hx. rewrite Hk, <- Heq. apply list_elem_of_fmap. by exists y.
  - f_equal. apply IH; [done|]. by apply Exists_cons in Hex as [?|?].
Qed.

(** The list update of [handleAddFlavor] is the adapter's write when names
    that agree up to case agree. *)
Lemma addFlavor_view_upsert (toLowerCase : string → string) name price prev :
  NoDup (Flavor_name <$> prev) →
  (∀ f, f ∈ prev → toLowerCase (Flavor_name f) = toLowerCase name → Flavor_name f = name) →
  (let exists_ :=
     existsb (λ f, bool_decide (toLowerCase (Flavor_name f) = toLowerCase name)) prev in
   if exists_ then
     map (λ f, if bool_decide (toLowerCase (Flavor_name f) = toLowerCase name)
               then mkFlavor (Flavor_name f) price else f) prev
   else prev ++ [mkFlavor name price])
  = upsert flavors (mkFlavor name price) prev.
Proof.
  intros Hnd Hcase. cbv zeta.
  assert (∀ f, f ∈ prev →
            bool_decide (toLowerCase (Flavor_name f) = toLowerCase name)
            = bool_decide (Flavor_name f = name)) as Hsame.
  { intros f Hf. apply bool_decide_ext. split; [by apply Hcase | by intros ->]. }
  destruct (existsb _ prev) eqn:Hex.
  - apply existsb_exists in Hex as (f0 & Hf0%list_elem_of_In & Hlow%bool_decide_eq_true_1).
    rewrite (upsert_replace flavors);
      [|done|apply Exists_exists; exists f0; split; [done|]; by apply Hcase].
    apply map_ext_in. intros f Hf%list_elem_of_In. rewrite (Hsame f Hf).
    cbn. case_bool_decide as Hn; [by rewrite Hn|done].
  - symmetry. apply (upsert_all_fresh flavors). apply Forall_forall. intros f Hf Heq.
    assert (existsb (λ f, bool_decide (toLowerCase (Flavor_name f) = toLowerCase name)) prev
            = true) as Htrue; [|congruence].
    apply existsb_exists. exists f. split; [by apply list_elem_of_In|].
    apply bool_decide_eq_true_2. cbn in Heq. by rewrite Heq.
Qed.

Lemma mirrors_NoDup env store l w :
  mirrors env store l w → NoDup (Home.getKeyValue store <$> l).
Proof. unfold mirrors, corresponds. destruct (hasIndexedDB env); by intros [? _]. Qed.

Lemma handleAddClient_keeps_sync env trim now p :
  isBrowser env = true → catalogInSync env (HomePage.world p) →
  Forall (λ c, Client_id c ≠ now) (home_clients (home (HomePage.world p))) →
  catalogInSync env (HomePage.world (pageAfter (HomePage.handleAddClient env trim now) p)).
Proof.
  intros Hb [Hfl Hcl] Hfresh. unfold pageAfter, HomePage.handleAddClient.
  erewrite bindP_run by reflexivity. cbv zeta.
  destruct (bool_decide _ || bool_decide _); [by split|].
  set (newClient := mkClient now _ _).
  destruct (storage_put_cases env clients newClient
              (after (Home.setSaving true) (HomePage.world p)) Hb)
    as [(_ & _ & Hput) | (_ & w1 & Hput & Hhome & Hframed & Hm)].
  - erewrite guarded_write_failed by exact Hput.
    split; (eapply mirrors_storage; [| |eassumption]; reflexivity).
  - erewrite guarded_write_ok; [|exact Hput|reflexivity].
    split; cbn; rewrite Hhome.
    + eapply mirrors_storage;
        [| |eapply (mirrors_framed env clients flavors); [exact Hframed|done|]];
        [reflexivity|reflexivity|].
      eapply mirrors_storage; [| |exact Hfl]; reflexivity.
    + cbn. rewrite <- (upsert_all_fresh clients newClient) by done.
      eapply mirrors_storage; [| |apply Hm]; [reflexivity|reflexivity|].
      eapply mirrors_storage; [| |exact Hcl]; reflexivity.
Qed.

Lemma handleAddFlavor_keeps_sync env trim toLowerCase toNumber p :
  isBrowser env = true → catalogInSync env (HomePage.world p) →
  (∀ f, f ∈ home_flavors (home (HomePage.world p)) →
        toLowerCase (Flavor_name f)
        = toLowerCase (trim (HomePage.newFlavorName (HomePage.form p))) →
        Flavor_name f = trim (HomePage.newFlavorName (HomePage.form p))) →
  catalogInSync env
    (HomePage.world (pageAfter (HomePage.handleAddFlavor env trim toLowerCase toNumber) p)).
Proof.
  intros Hb [Hfl Hcl] Hcase. unfold pageAfter, HomePage.handleAddFlavor.
  erewrite bindP_run by reflexivity. cbv zeta.
  destruct (toNumber _) as [parsedPrice|]; [|by split].
  destruct (bool_decide _ || _); [by split|].
  set (name := trim _) in *.
  destruct (storage_put_cases env flavors (mkFlavor name parsedPrice)
              (after (Home.setSaving true) (HomePage.world p)) Hb)
    as [(_ & _ & Hput) | (_ & w1 & Hput & Hhome & Hframed & Hm)].
  - erewrite guarded_write_failed by exact Hput.
    split; (eapply mirrors_storage; [| |eassumption]; reflexivity).
  - erewrite guarded_write_ok; [|exact Hput|reflexivity].
    split; cbn; rewrite Hhome.
    + cbn.
      pose proof (addFlavor_view_upsert toLowerCase name parsedPrice _
                    (mirrors_NoDup _ _ _ _ Hfl) Hcase) as Hview.
      cbv zeta in Hview. rewrite Hview.
      eapply mirrors_storage; [| |apply Hm]; [reflexivity|reflexivity|].
      eapply mirrors_storage; [| |exact Hfl]; reflexivity.
    + eapply mirrors_storage;
        [| |eapply (mirrors_framed env flavors clients); [exact Hframed|done|]];
        [reflexivity|reflexivity|].
      eapply mirrors_storage; [| |exact Hcl]; reflexivity.
Qed.

(** X23.  The lists on screen keep mirroring the store.  In a browser, if
    the flavors and the customers on screen are the stored ones, one per key,
    they still are after [handleRemoveFlavor] and [handleRemoveClient], after
    [handleAddClient] when the new id is not on screen, and after
    [handleAddFlavor] when no flavor on screen differs from the typed name
    only by case; on either backend, also when the write fails or the input
    is rejected. *)
Theorem catalog_stays_in_sync env trim toLowerCase toNumber p :
  isBrowser env = true → catalogInSync env (HomePage.world p) →
  (∀ flavorName,
     catalogInSync env
       (HomePage.world (pageAfter (HomePage.handleRemoveFlavor env flavorName) p)))
  ∧ (∀ clientId,
       catalogInSync env (after (Home.handleRemoveClient env clientId) (HomePage.world p)))
  ∧ (∀ now,
       Forall (λ c, Client_id c ≠ now) (home_clients (home (HomePage.world p))) →
       catalogInSync env
         (HomePage.world (pageAfter (HomePage.handleAddClient env trim now) p)))
  ∧ ((∀ f, f ∈ home_flavors (home (HomePage.world p)) →
           toLowerCase (Flavor_name f)
           = toLowerCase (trim (HomePage.newFlavorName (HomePage.form p))) →
           Flavor_name f = trim (HomePage.newFlavorName (HomePage.form p))) →
     catalogInSync env
       (HomePage.world
          (pageAfter (HomePage.handleAddFlavor env trim toLowerCase toNumber) p))).
Proof.
  intros Hb Hsync. split; [|split; [|split]].
  - intros flavorName. by apply handleRemoveFlavor_keeps_sync.
  - intros clientId. by apply handleRemoveClient_keeps_sync.
  - intros now Hfresh. by apply handleAddClient_keeps_sync.
  - intros Hcase. by apply handleAddFlavor_keeps_sync.
Qed.

Lemma catalogPage_inSync : catalogInSync flatEnv (HomePage.world catalogPage).
Proof.
  split; (split; [apply (bool_decide_unpack _); vm_compute; exact I | reflexivity]).
Qed.

Lemma catalog_stays_in_sync_witness :
  isBrowser flatEnv = true ∧ catalogInSync flatEnv (HomePage.world catalogPage)
  ∧ (∀ flavorName,
       catalogInSync flatEnv
         (HomePage.world (pageAfter (HomePage.handleRemoveFlavor flatEnv flavorName)
                            catalogPage)))
  ∧ (∀ clientId,
       catalogInSync flatEnv
         (after (Home.handleRemoveClient flatEnv clientId) (HomePage.world catalogPage)))
  ∧ (∀ now,
       Forall (λ c, Client_id c ≠ now) (home_clients (home (HomePage.world catalogPage))) →
       catalogInSync flatEnv
         (HomePage.world (pageAfter (HomePage.handleAddClient flatEnv (λ s, s) now)
                            catalogPage)))
  ∧ ((∀ f, f ∈ home_flavors (home (HomePage.world catalogPage)) →
           Flavor_name f = HomePage.newFlavorName (HomePage.form catalogPage) →
           Flavor_name f = HomePage.newFlavorName (HomePage.form catalogPage)) →
     catalogInSync flatEnv
       (HomePage.world
          (pageAfter (HomePage.handleAddFlavor flatEnv (λ s, s) (λ s, s) (λ _, Some 99%Z))
             catalogPage))).
Proof.
  split; [reflexivity|]. split; [exact catalogPage_inSync|].
  apply (catalog_stays_in_sync flatEnv (λ s, s) (λ s, s) (λ _, Some 99%Z) catalogPage);
    [reflexivity | exact catalogPage_inSync].
Defined.

Lemma mirrors_elem env store l l' w :
  mirrors env store l w → mirrors env store l' w → ∀ x, x ∈ l → x ∈ l'.
Proof.
  unfold mirrors. destruct (hasIndexedDB env).
  - intros [_ Hl] [_ Hl'] x Hx. apply (Hl' (Home.getKeyValue store x) x).
    by apply Hl.
  - by intros [_ ->] [_ ->].
Qed.

(** X24.  A flavor typed in another case splits the catalog.  When the
    typed name equals the name of a flavor on screen up to case but not
    exactly, and the write goes through, [handleAddFlavor] changes the price
    of the flavor on screen and keeps its name, while the store receives a
    new record under the typed name next to the old one: the list on screen
    no longer mirrors the store. *)
Theorem handleAddFlavor_splits_on_case env trim toLowerCase toNumber p price f0 :
  isBrowser env = true → hasIndexedDB env = false ∨ idbOpenFails env = false →
  catalogInSync env (HomePage.world p) →
  trim (HomePage.newFlavorName (HomePage.form p)) ≠ "" →
  toNumber (HomePage.newFlavorPrice (HomePage.form p)) = Some price → (0 < price)%Z →
  f0 ∈ home_flavors (home (HomePage.world p)) →
  toLowerCase (Flavor_name f0)
  = toLowerCase (trim (HomePage.newFlavorName (HomePage.form p))) →
  Forall (λ f, Flavor_name f ≠ trim (HomePage.newFlavorName (HomePage.form p)))
    (home_flavors (home (HomePage.world p))) →
  let name := trim (HomePage.newFlavorName (HomePage.form p)) in
  let p' := pageAfter (HomePage.handleAddFlavor env trim toLowerCase toNumber) p in
  Forall (λ f, Flavor_name f ≠ name) (home_flavors (home (HomePage.world p')))
  ∧ Flavor_name <$> home_flavors (home (HomePage.world p'))
    = Flavor_name <$> home_flavors (home (HomePage.world p))
  ∧ mkFlavor (Flavor_name f0) price ∈ home_flavors (home (HomePage.world p'))
  ∧ mirrors env flavors
      (home_flavors (home (HomePage.world p)) ++ [mkFlavor name price])
      (HomePage.world p')
  ∧ ¬ catalogInSync env (HomePage.world p').
Proof.
  intros Hb Hok [Hfl Hcl] Hname Hprice Hpos Hf0 Hlow Hnone name p'.
  set (prev := home_flavors (home (HomePage.world p))) in *.
  set (view := map (λ f, if bool_decide (toLowerCase (Flavor_name f) = toLowerCase name)
                         then mkFlavor (Flavor_name f) price else f) prev).
  assert (∃ w1, HomePage.world p' = w1
                ∧ home_flavors (home w1) = view
                ∧ mirrors env flavors (prev ++ [mkFlavor name price]) w1)
    as (w' & Hw' & Hview & Hstore).
  { subst p'. unfold pageAfter, HomePage.handleAddFlavor.
    erewrite bindP_run by reflexivity. cbv zeta. rewrite Hprice. fold name.
    rewrite bool_decide_eq_false_2 by done.
    rewrite (proj2 (Z.leb_gt _ _)) by done. cbn [orb].
    destruct (storage_put_cases env flavors (mkFlavor name price)
                (after (Home.setSaving true) (HomePage.world p)) Hb)
      as [(Hidb & Hopen & _) | (_ & w1 & Hput & Hhome & Hframed & Hm)].
    { destruct Hok; congruence. }
    erewrite guarded_write_ok; [|exact Hput|reflexivity].
    eexists. split; [reflexivity|]. split.
    - cbn. rewrite Hhome. cbn. fold prev.
      assert (existsb (λ f, bool_decide (toLowerCase (Flavor_name f) = toLowerCase name))
                prev = true) as ->; [|done].
      apply existsb_exists. exists f0. split; [by apply list_elem_of_In|].
      by apply bool_decide_eq_true_2.
    - rewrite <- (upsert_all_fresh flavors (mkFlavor name price)) by done.
      eapply mirrors_storage; [| |apply Hm]; [reflexivity|reflexivity|].
      eapply mirrors_storage; [| |exact Hfl]; reflexivity. }
  rewrite Hw', Hview.
  assert (Flavor_name <$> view = Flavor_name <$> prev) as Hnames.
  { unfold view. rewrite <- list_fmap_compose. apply list_fmap_ext.
    intros i f _. cbn. by destruct (bool_decide _). }
  assert (Forall (λ f, Flavor_name f ≠ name) view) as Hnone'.
  { apply Forall_forall. intros f Hf Heq.
    assert (name ∈ Flavor_name <$> prev) as (g & Hg & Hin)%list_elem_of_fmap.
    { rewrite <- Hnames, <- Heq. apply list_elem_of_fmap. by exists f. }
    rewrite Forall_forall in Hnone. by apply (Hnone g). }
  split; [done|]. split; [done|]. split.
  { unfold view. apply list_elem_of_fmap. exists f0. split; [|done].
    by rewrite bool_decide_eq_true_2. }
  split; [done|].
  intros [Hfl' _]. rewrite Hview in Hfl'.
  assert (mkFlavor name price ∈ view) as Hin.
  { apply (mirrors_elem env flavors _ _ w' Hstore Hfl').
    rewrite elem_of_app. right. by left. }
  rewrite Forall_forall in Hnone'. by apply (Hnone' _ Hin).
Qed.

Lemma handleAddFlavor_splits_on_case_witness :
  Forall (λ f, Flavor_name f ≠ "chocolate")
    (home_flavors (home (HomePage.world
       (pageAfter (HomePage.handleAddFlavor flatEnv (λ s, s) lowerChocolate
                     (λ _, Some 99%Z)) catalogPage))))
  ∧ Flavor_name <$> home_flavors (home (HomePage.world
       (pageAfter (HomePage.handleAddFlavor flatEnv (λ s, s) lowerChocolate
                     (λ _, Some 99%Z)) catalogPage)))
    = Flavor_name <$> home_flavors (home (HomePage.world catalogPage))
  ∧ mkFlavor "Chocolate" 99%Z
    ∈ home_flavors (home (HomePage.world
       (pageAfter (HomePage.handleAddFlavor flatEnv (λ s, s) lowerChocolate
                     (λ _, Some 99%Z)) catalogPage)))
  ∧ mirrors flatEnv flavors
      (home_flavors (home (HomePage.world catalogPage)) ++ [mkFlavor "chocolate" 99%Z])
      (HomePage.world
         (pageAfter (HomePage.handleAddFlavor flatEnv (λ s, s) lowerChocolate
                       (λ _, Some 99%Z)) catalogPage))
  ∧ ¬ catalogInSync flatEnv
        (HomePage.world
           (pageAfter (HomePage.handleAddFlavor flatEnv (λ s, s) lowerChocolate
                         (λ _, Some 99%Z)) catalogPage)).
Proof.
  apply (handleAddFlavor_splits_on_case flatEnv (λ s, s) lowerChocolate (λ _, Some 99%Z)
           catalogPage 99%Z chocolate50).
  - reflexivity.
  - by left.
  - exact catalogPage_inSync.
  - discriminate.
  - reflexivity.
  - reflexivity.
  - by left.
  - reflexivity.
  - apply (bool_decide_unpack _). vm_compute. exact I.
Defined.

Lemma getAll_run_ok env store w :
  isBrowser env = true → hasIndexedDB env = false ∨ idbOpenFails env = false →
  Home.storage_getAll env store w
  = (Normal (if hasIndexedDB env then store_getAll store (cakeDB w)
             else stored store (localStorage w)), w).
Proof.
  intros Hb Hok. destruct (hasIndexedDB env) eqn:Hidb.
  - destruct Hok as [?|Hopen]; [done|]. by apply idb_getAll_run.
  - by rewrite flat_getAll_run, Hb.
Qed.

Lemma mirrors_getAll env store l w :
  isBrowser env = true → hasIndexedDB env = false ∨ idbOpenFails env = false →
  mirrors env store l w →
  ∃ all, Home.storage_getAll env store w = (Normal all, w) ∧ all ≡ₚ l.
Proof.
  intros Hb Hok Hm. eexists. split; [by apply getAll_run_ok|].
  unfold mirrors in Hm. destruct (hasIndexedDB env).
  - by apply corresponds_getAll.
  - by destruct Hm as [_ ->].
Qed.

Lemma store_put_listed store (v : StoreMap store) db :
  v ∈ store_getAll store
        (setObjectStore store (store_put store v (objectStore store db)) db).
Proof.
  unfold store_getAll, store_put. rewrite objectStore_set_same.
  apply list_elem_of_fmap. exists (keyPath store v, v). split; [done|].
  apply elem_of_map_to_list. apply lookup_insert_eq.
Qed.

(** [saveOrder] in a browser: the open fails and nothing happens, or the
    order is stored. *)
Lemma saveOrder_cases env trim form id createdAt w :
  isBrowser env = true →
  (hasIndexedDB env = true ∧ idbOpenFails env = true
   ∧ Home.saveOrder env trim form id createdAt w = (Throw OpenFailed, w))
  ∨ ((hasIndexedDB env = false ∨ idbOpenFails env = false)
     ∧ ∃ w1, Home.saveOrder env trim form id createdAt w
             = (Normal (Home.buildOrder trim form id createdAt), w1)
       ∧ home w1 = home w
       ∧ Home.buildOrder trim form id createdAt
         ∈ (if hasIndexedDB env then store_getAll orders (cakeDB w1)
            else stored orders (localStorage w1))).
Proof.
  intros Hb. unfold Home.saveOrder.
  destruct (hasIndexedDB env) eqn:Hidb; [destruct (idbOpenFails env) eqn:Hopen|].
  - left. split; [done|]. split; [done|].
    erewrite bind_throws; [reflexivity|].
    unfold Home.storage_put, Home.idbPut, Home.getDB. by rewrite Hidb, Hopen.
  - right. split; [by right|]. eexists.
    erewrite bind_run by (by apply idb_put_run).
    erewrite bind_run by apply publish_run.
    split; [reflexivity|]. split.
    + by destruct (isBrowser env && channelDelivers (channel env)).
    + destruct (isBrowser env && channelDelivers (channel env));
        cbn [cakeDB emit withCakeDB]; apply (store_put_listed orders).
  - right. split; [by left|]. eexists.
    erewrite bind_run by (by apply flat_put_run).
    erewrite bind_run by apply publish_run.
    split; [reflexivity|]. split.
    + by destruct (isBrowser env && channelDelivers (channel env)).
    + destruct (isBrowser env && channelDelivers (channel env));
        cbn [localStorage emit withLocalStorage];
        rewrite (stored_setItem_same orders); apply elem_of_upsert_same.
Qed.

(** X25.  The note is shown exactly when the order was stored.  In a
    browser, [handleGenerateNote] does nothing on an invalid form; on a valid
    one it shows the note for the new order's id with the success message
    once [saveOrder] stored the order, which [storage.getAll] then lists; and
    when the store cannot be opened it leaves the form and the storage as
    they were and shows the error instead.  The saving flag is lowered
    either way. *)
Theorem handleGenerateNote_outcome env trim p isFormValid kg price id createdAt :
  isBrowser env = true →
  let order :=
    Home.buildOrder trim (HomePage.orderForm (HomePage.form p) kg price) id createdAt in
  let p' :=
    pageAfter (HomePage.handleGenerateNote env trim isFormValid kg price id createdAt) p in
  (isFormValid = false → p' = p)
  ∧ (isFormValid = true → hasIndexedDB env = false ∨ idbOpenFails env = false →
     HomePage.showNote (HomePage.form p') = true
     ∧ HomePage.currentOrderId (HomePage.form p') = Some id
     ∧ home_message (home (HomePage.world p'))
       = Some (success "Pedido salvo e nota gerada.")
     ∧ home_saving (home (HomePage.world p')) = false
     ∧ ∃ all, Home.storage_getAll env orders (HomePage.world p')
              = (Normal all, HomePage.world p')
              ∧ order ∈ all)
  ∧ (isFormValid = true → hasIndexedDB env = true → idbOpenFails env = true →
     HomePage.form p' = HomePage.form p
     ∧ home_message (home (HomePage.world p'))
       = Some (error "Não foi possível salvar o pedido.")
     ∧ home_saving (home (HomePage.world p')) = false
     ∧ localStorage (HomePage.world p') = localStorage (HomePage.world p)
     ∧ cakeDB (HomePage.world p') = cakeDB (HomePage.world p)
     ∧ trace (HomePage.world p') = trace (HomePage.world p)).
Proof.
  intros Hb order p'. subst p'. unfold pageAfter, HomePage.handleGenerateNote.
  split; [|split].
  - intros ->. reflexivity.
  - intros -> Hok. cbn [negb]. erewrite bindP_run by reflexivity.
    destruct (saveOrder_cases env trim (HomePage.orderForm (HomePage.form p) kg price)
                id createdAt (after (Home.setSaving true) (HomePage.world p)) Hb)
      as [(Hidb & Hopen & _) | (_ & w1 & Hsave & Hhome & Hin)].
    { destruct Hok; congruence. }
    erewrite guarded_write_ok; [|exact Hsave|reflexivity].
    cbn. repeat (split; [reflexivity|]).
    exists (if hasIndexedDB env then store_getAll orders (cakeDB w1)
            else stored orders (localStorage w1)).
    split; [exact (getAll_run_ok env orders _ Hb Hok) | exact Hin].
  - intros -> Hidb Hopen. cbn [negb]. erewrite bindP_run by reflexivity.
    destruct (saveOrder_cases env trim (HomePage.orderForm (HomePage.form p) kg price)
                id createdAt (after (Home.setSaving true) (HomePage.world p)) Hb)
      as [(_ & _ & Hsave) | ([?|?] & _)]; [|congruence..].
    erewrite guarded_write_failed by exact Hsave.
    by repeat split.
Qed.

Lemma handleGenerateNote_outcome_witness :
  isBrowser idbEnv = true
  ∧ HomePage.showNote (HomePage.form
      (pageAfter (HomePage.handleGenerateNote idbEnv (λ s, s) true 2%Z 100%Z "o2"
                    "2025-02-01T09:00:00.000Z") catalogPage)) = true
  ∧ HomePage.currentOrderId (HomePage.form
      (pageAfter (HomePage.handleGenerateNote idbEnv (λ s, s) true 2%Z 100%Z "o2"
                    "2025-02-01T09:00:00.000Z") catalogPage)) = Some "o2"
  ∧ pageAfter (HomePage.handleGenerateNote idbEnv (λ s, s) false 2%Z 100%Z "o2"
                 "2025-02-01T09:00:00.000Z") catalogPage = catalogPage.
Proof.
  split; [reflexivity|].
  destruct (handleGenerateNote_outcome idbEnv (λ s, s) catalogPage true 2%Z 100%Z "o2"
              "2025-02-01T09:00:00.000Z" eq_refl) as (_ & Hvalid & _).
  destruct (Hvalid eq_refl (or_intror eq_refl)) as (Hshow & Hid & _).
  destruct (handleGenerateNote_outcome idbEnv (λ s, s) catalogPage false 2%Z 100%Z "o2"
              "2025-02-01T09:00:00.000Z" eq_refl) as (Hinvalid & _).
  split; [exact Hshow|]. split; [exact Hid | exact (Hinvalid eq_refl)].
Defined.

(** X26.  A removed flavor is gone everywhere.  In a browser whose store
    opens, with the lists on screen mirroring the store, after
    [handleRemoveFlavor] of a non-empty name no flavor on screen and no
    stored flavor carries the removed name, the form does not select it any
    more, and the success message is shown. *)
Theorem removed_flavor_is_gone env flavorName p :
  isBrowser env = true → hasIndexedDB env = false ∨ idbOpenFails env = false →
  catalogInSync env (HomePage.world p) → flavorName ≠ "" →
  let p' := pageAfter (HomePage.handleRemoveFlavor env flavorName) p in
  Forall (λ f, Flavor_name f ≠ flavorName) (home_flavors (home (HomePage.world p')))
  ∧ HomePage.flavor (HomePage.form p') ≠ flavorName
  ∧ home_message (home (HomePage.world p')) = Some (success "Sabor removido.")
  ∧ ∃ all, Home.storage_getAll env flavors (HomePage.world p')
           = (Normal all, HomePage.world p')
           ∧ Forall (λ f, Flavor_name f ≠ flavorName) all.
Proof.
  intros Hb Hok Hsync Hne p'.
  pose proof (handleRemoveFlavor_keeps_sync env flavorName p Hb Hsync) as [Hfl' _].
  fold p' in Hfl'.
  assert (home_flavors (home (HomePage.world p'))
          = filter (λ x, Flavor_name x ≠ flavorName)
              (home_flavors (home (HomePage.world p)))
          ∧ HomePage.flavor (HomePage.form p') ≠ flavorName
          ∧ home_message (home (HomePage.world p')) = Some (success "Sabor removido."))
    as (Hview & Hsel & Hmsg).
  { subst p'. unfold pageAfter, HomePage.handleRemoveFlavor.
    erewrite bindP_run by reflexivity.
    destruct (storage_delete_cases env flavors flavorName
                (after (Home.setSaving true) (HomePage.world p)) Hb)
      as [(Hidb & Hopen & _) | (_ & w1 & Hdel & Hhome & _)].
    { destruct Hok; congruence. }
    case_bool_decide as Hsel;
      (erewrite guarded_write_ok; [|exact Hdel|reflexivity]);
      cbn; rewrite Hhome; cbn; (split; [reflexivity|]); (split; [|reflexivity]).
    - by intros <-.
    - done. }
  assert (Forall (λ f, Flavor_name f ≠ flavorName)
            (home_flavors (home (HomePage.world p')))) as Hgone.
  { rewrite Hview. apply Forall_forall. by intros f [Hf _]%list_elem_of_filter. }
  split; [done|]. split; [done|]. split; [done|].
  destruct (mirrors_getAll env flavors _ _ Hb Hok Hfl') as (all & Hall & Hperm).
  exists all. split; [done|]. by rewrite Hperm.
Qed.

Lemma removed_flavor_is_gone_witness :
  isBrowser flatEnv = true
  ∧ (hasIndexedDB flatEnv = false ∨ idbOpenFails flatEnv = false)
  ∧ catalogInSync flatEnv (HomePage.world catalogPage) ∧ "Chocolate" ≠ ""
  ∧ Forall (λ f, Flavor_name f ≠ "Chocolate")
      (home_flavors (home (HomePage.world
         (pageAfter (HomePage.handleRemoveFlavor flatEnv "Chocolate") catalogPage))))
  ∧ HomePage.flavor (HomePage.form
      (pageAfter (HomePage.handleRemoveFlavor flatEnv "Chocolate") catalogPage))
    ≠ "Chocolate"
  ∧ home_message (home (HomePage.world
      (pageAfter (HomePage.handleRemoveFlavor flatEnv "Chocolate") catalogPage)))
    = Some (success "Sabor removido.")
  ∧ ∃ all,
      Home.storage_getAll flatEnv flavors (HomePage.world
        (pageAfter (HomePage.handleRemoveFlavor flatEnv "Chocolate") catalogPage))
      = (Normal all, HomePage.world
           (pageAfter (HomePage.handleRemoveFlavor flatEnv "Chocolate") catalogPage))
      ∧ Forall (λ f, Flavor_name f ≠ "Chocolate") all.
Proof.
  split; [reflexivity|]. split; [by left|]. split; [exact catalogPage_inSync|].
  split; [discriminate|].
  apply (removed_flavor_is_gone flatEnv "Chocolate" catalogPage);
    [reflexivity | by left | exact catalogPage_inSync | discriminate].
Defined.

Lemma guarded_write_completes {A} (write : JS A) (rest : A → HomePage.Handler unit)
    failed p :
  (∀ a q, (rest a q).1 = Normal tt) →
  (HomePage.tryFinallyP
     (HomePage.tryCatchP
        (_ ← HomePage.run (Home.setSaving true); x ← HomePage.run write; rest x)
        (λ _, HomePage.run (Home.setMessage failed)))
     (HomePage.run (Home.setSaving false)) p).1 = Normal tt
  ∧ home_saving (home (HomePage.world
      (pageAfter
         (HomePage.tryFinallyP
            (HomePage.tryCatchP
               (_ ← HomePage.run (Home.setSaving true); x ← HomePage.run write; rest x)
               (λ _, HomePage.run (Home.setMessage failed)))
            (HomePage.run (Home.setSaving false))) p))) = false.
Proof.
  intros Hrest. unfold pageAfter.
  destruct (write (after (Home.setSaving true) (HomePage.world p))) as [[a|e] w1] eqn:Hw.
  - specialize (Hrest a (HomePage.mkPage w1 (HomePage.form p))).
    destruct (rest a (HomePage.mkPage w1 (HomePage.form p))) as [r p2] eqn:Hr.
    simpl in Hrest. subst r.
    erewrite guarded_write_ok by eassumption. by split.
  - erewrite guarded_write_failed by eassumption. by split.
Qed.

(** X27.  The buttons never throw.  In every environment, whatever the
    storage does, [handleGenerateNote], [handleAddFlavor],
    [handleRemoveFlavor] and [handleAddClient] complete normally; each either
    returns at once, leaving the page as it was (invalid or empty input), or
    ends with the saving flag lowered. *)
Theorem page_handlers_complete env trim toLowerCase toNumber p :
  completes (HomePage.handleAddFlavor env trim toLowerCase toNumber) p
  ∧ (∀ flavorName, completes (HomePage.handleRemoveFlavor env flavorName) p)
  ∧ (∀ now, completes (HomePage.handleAddClient env trim now) p)
  ∧ (∀ isFormValid kg price id createdAt,
       completes (HomePage.handleGenerateNote env trim isFormValid kg price id createdAt) p).
Proof.
  unfold completes. split; [|split; [|split]].
  - unfold pageAfter, HomePage.handleAddFlavor.
    erewrite !bindP_run by reflexivity. cbv zeta.
    destruct (toNumber _) as [parsedPrice|]; [|by split; [|left]].
    destruct (bool_decide _ || _); [by split; [|left]|].
    edestruct (guarded_write_completes (A:=unit)) as [Hr Hs];
      [|split; [exact Hr|right; exact Hs]].
    by intros [] q.
  - intros flavorName. unfold pageAfter, HomePage.handleRemoveFlavor.
    erewrite !bindP_run by reflexivity.
    edestruct (guarded_write_completes (A:=unit)) as [Hr Hs];
      [|split; [exact Hr|right; exact Hs]].
    intros [] q. by destruct (bool_decide _).
  - intros now. unfold pageAfter, HomePage.handleAddClient.
    erewrite !bindP_run by reflexivity. cbv zeta.
    destruct (bool_decide _ || bool_decide _); [by split; [|left]|].
    edestruct (guarded_write_completes (A:=unit)) as [Hr Hs];
      [|split; [exact Hr|right; exact Hs]].
    by intros [] q.
  - intros valid kg price id createdAt. unfold pageAfter, HomePage.handleGenerateNote.
    destruct valid; cbn [negb]; [|by split; [|left]].
    erewrite !bindP_run by reflexivity.
    edestruct (guarded_write_completes (A:=Order)) as [Hr Hs];
      [|split; [exact Hr|right; exact Hs]].
    by intros o q.
Qed.

(** ** Start-up and the lists on screen *)

Lemma corresponds_putAll store (records : list (StoreMap store)) :
  NoDup (Home.getKeyValue store <$> records) →
  corresponds store records (foldl (λ m v, store_put store v m) ∅ records).
Proof.
  induction records as [|v l IH] using rev_ind; intros Hnd.
  - apply corresponds_empty.
  - rewrite fmap_app, NoDup_app in Hnd. destruct Hnd as (Hl & Hfresh & _).
    rewrite foldl_app. cbn [foldl].
    rewrite <- (upsert_all_fresh store v l).
    + apply corresponds_put. by apply IH.
    + apply Forall_forall. intros x Hx Heq. apply (Hfresh (Home.getKeyValue store x)).
      * apply list_elem_of_fmap. by exists x.
      * rewrite Heq. cbn. by left.
Qed.

Lemma corresponds_wf store l m db :
  wfDatabase db → corresponds store l m → wfDatabase (setObjectStore store m db).
Proof.
  intros Hwf [_ Hm]. apply wfDatabase_set; [done|].
  intros i x Hx. by apply Hm in Hx as [_ Hk].
Qed.

(** Reading a kind at start-up, with the migration from localStorage: what
    comes back mirrors the store. *)
Lemma fetch_mirrors env store w :
  isBrowser env = true → hasIndexedDB env = false ∨ idbOpenFails env = false →
  wfDatabase (cakeDB w) →
  NoDup (Home.getKeyValue store <$> stored store (localStorage w)) →
  ∃ l w1,
    (held ← Home.storage_getAll env store; migrate env store held) w = (Normal l, w1)
    ∧ mirrors env store l w1 ∧ framed store w w1 ∧ wfDatabase (cakeDB w1)
    ∧ (hasIndexedDB env = true → l = [] → objectStore store (cakeDB w1) = ∅).
Proof.
  intros Hb Hok Hwf Hnd.
  erewrite bind_run by (by apply getAll_run_ok).
  destruct (hasIndexedDB env) eqn:Hidb.
  - destruct Hok as [?|Hopen]; [done|].
    destruct (store_getAll store (cakeDB w)) as [|r rest] eqn:Hheld.
    + assert (objectStore store (cakeDB w) = ∅) as Hempty.
      { unfold store_getAll in Hheld.
        by apply fmap_nil_inv, map_to_list_empty_iff in Hheld. }
      unfold migrate. rewrite Hidb. cbn [length Nat.eqb andb].
      unfold localStorage_getItem, localStorage_removeItem. js_unfold. cbn.
      unfold stored in Hnd.
      destruct (getItem (localStorage w) store) as [[| | |items]|] eqn:Hcell; cbn.
      * eexists _, _. split; [reflexivity|]. unfold mirrors. rewrite Hidb, Hempty.
        split; [apply corresponds_empty|]. split; [apply framed_refl|]. by split.
      * eexists _, _. split; [reflexivity|]. unfold mirrors. rewrite Hidb, Hempty.
        split; [apply corresponds_empty|]. split; [apply framed_refl|]. by split.
      * eexists _, _. split; [reflexivity|]. unfold mirrors. rewrite Hidb. cbn.
        rewrite Hempty.
        split; [apply corresponds_empty|]. split; [apply framed_removeItem|]. by split.
      * destruct items as [|r rest]; cbn.
        -- eexists _, _. split; [reflexivity|]. unfold mirrors. rewrite Hidb. cbn.
           rewrite Hempty.
           split; [apply corresponds_empty|]. split; [apply framed_removeItem|]. by split.
        -- rewrite idb_bulkPut_run by done. cbn.
           eexists _, _. split; [reflexivity|]. unfold mirrors. rewrite Hidb. cbn.
           rewrite objectStore_set_same, Hempty.
           pose proof (corresponds_putAll store (r :: rest) Hnd) as Hc.
           split; [exact Hc|]. split.
           { eapply framed_trans; [|apply framed_removeItem].
             repeat split. cbn. by rewrite objectStore_set_other. }
           split; [by apply (corresponds_wf store (r :: rest))|]. done.
      * eexists _, _. split; [reflexivity|]. unfold mirrors. rewrite Hidb, Hempty.
        split; [apply corresponds_empty|]. split; [apply framed_refl|]. by split.
    + rewrite (migrate_skips env store (r :: rest)) by done.
      eexists _, _. split; [reflexivity|]. unfold mirrors. rewrite Hidb, <- Hheld.
      split; [by apply wfDatabase_corresponds|]. split; [apply framed_refl|].
      split; [done|]. rewrite Hheld. done.
  - unfold migrate. rewrite Hidb. cbn [andb].
    eexists _, _. split; [reflexivity|]. unfold mirrors. rewrite Hidb.
    split; [by split|]. split; [apply framed_refl|]. by split.
Qed.

Lemma bind_assoc_run {A B C} (m : JS A) (k : A → JS B) (f : B → JS C) w b w1 :
  (x ← m; k x) w = (Normal b, w1) → (x ← m; y ← k x; f y) w = f b w1.
Proof.
  unfold mbind, JS_bind, bind. destruct (m w) as [[a|e] w0]; [|done].
  by intros ->.
Qed.

(** The flavors [init] continues with: the ones fetched, or the defaults
    when there are none. *)
Lemma seed_mirrors env (l : list Flavor) w :
  isBrowser env = true → hasIndexedDB env = false ∨ idbOpenFails env = false →
  wfDatabase (cakeDB w) → mirrors env flavors l w →
  (hasIndexedDB env = true → l = [] → objectStore flavors (cakeDB w) = ∅) →
  ∃ l2 w2,
    (if (length l =? 0)%nat then
       _ ← Home.storage_bulkPut env flavors defaultFlavors; ret defaultFlavors
     else ret l) w = (Normal l2, w2)
    ∧ l2 ≠ [] ∧ mirrors env flavors l2 w2 ∧ framed flavors w w2
    ∧ wfDatabase (cakeDB w2).
Proof.
  intros Hb Hok Hwf Hm Hempty.
  assert (NoDup (Home.getKeyValue flavors <$> defaultFlavors)) as Hnd.
  { apply (bool_decide_unpack _). vm_compute. exact I. }
  destruct l as [|r rest]; cbn [length Nat.eqb].
  - destruct (hasIndexedDB env) eqn:Hidb.
    + destruct Hok as [?|Hopen]; [done|].
      erewrite bind_run by (by apply idb_bulkPut_run).
      eexists _, _. split; [reflexivity|]. split; [done|].
      unfold mirrors. rewrite Hidb. cbn [cakeDB emit withCakeDB].
      rewrite objectStore_set_same, Hempty by done.
      pose proof (corresponds_putAll flavors defaultFlavors Hnd) as Hc.
      split; [exact Hc|]. split.
      { repeat split. cbn [cakeDB emit withCakeDB]. by rewrite objectStore_set_other. }
      by apply (corresponds_wf flavors defaultFlavors).
    + erewrite bind_run by (by apply flat_bulkPut_run).
      eexists _, _. split; [reflexivity|]. split; [done|].
      unfold mirrors. rewrite Hidb. cbn [localStorage emit withLocalStorage].
      rewrite stored_setItem_same.
      split; [by split|]. split; [apply framed_setItem|done].
  - eexists _, _. split; [reflexivity|]. split; [done|]. split; [done|].
    split; [apply framed_refl|done].
Qed.

Lemma framed_stored store store' w w' :
  framed store w w' → store' ≠ store →
  stored store' (localStorage w') = stored store' (localStorage w).
Proof.
  intros [Hother _] Hne. destruct (Hother store' Hne) as [_ Hls].
  unfold stored. by rewrite Hls.
Qed.

(** X28.  After start-up the lists on screen mirror the store.  In a
    browser whose store opens, with every stored record under its own key,
    [init] completes and leaves the flavors and the customers on screen
    mirroring the store, whatever had to be migrated or seeded on the way;
    the flavor list is never empty; the loading flag is lowered and the
    message is left as it was. *)
Theorem init_establishes_sync env w :
  isBrowser env = true → hasIndexedDB env = false ∨ idbOpenFails env = false →
  wfDatabase (cakeDB w) →
  NoDup (Flavor_name <$> stored flavors (localStorage w)) →
  NoDup (Client_id <$> stored clients (localStorage w)) →
  result (Home.init env false) w = Normal tt
  ∧ catalogInSync env (after (Home.init env false) w)
  ∧ home_flavors (home (after (Home.init env false) w)) ≠ []
  ∧ home_initializing (home (after (Home.init env false) w)) = false
  ∧ home_message (home (after (Home.init env false) w)) = home_message (home w).
Proof.
  intros Hb Hok Hwf Hndf Hndc. unfold result, after.
  rewrite init_unfold. unfold tryFinally, tryCatch.
  destruct (fetch_mirrors env flavors w Hb Hok Hwf Hndf)
    as (l & w1 & Hfetch & Hm1 & Hf1 & Hwf1 & Hempty).
  erewrite bind_assoc_run by exact Hfetch.
  destruct (seed_mirrors env l w1 Hb Hok Hwf1 Hm1 Hempty)
    as (l2 & w2 & Hseed & Hne & Hm2 & Hf2 & Hwf2).
  erewrite bind_run by exact Hseed.
  cbn [negb when]. erewrite bind_run by reflexivity.
  set (w3 := withHome _ w2).
  assert (framed flavors w w2) as Hf12 by (by eapply framed_trans).
  destruct (fetch_mirrors env clients w3 Hb Hok Hwf2) as (lc & w4 & Hfetchc & Hm4 & Hf4 & Hwf4 & _).
  { subst w3. cbn [localStorage withHome]. by rewrite (framed_stored flavors clients w w2). }
  erewrite bind_assoc_run by exact Hfetchc.
  pose proof Hf4 as (Hother4 & Hhome4 & Hdash4).
  cbn. rewrite Hhome4. subst w3. cbn.
  destruct Hf12 as (_ & Hhome2 & _). rewrite Hhome2.
  split; [done|]. split; [|by repeat split].
  split; cbn; rewrite ?Hhome4; cbn.
  - eapply mirrors_storage;
      [| |eapply (mirrors_framed env clients flavors); [exact Hf4|done|]];
      [reflexivity|reflexivity|].
    eapply mirrors_storage; [| |exact Hm2]; reflexivity.
  - eapply mirrors_storage; [| |exact Hm4]; reflexivity.
Qed.

Lemma init_establishes_sync_witness :
  isBrowser idbEnv = true
  ∧ (hasIndexedDB idbEnv = false ∨ idbOpenFails idbEnv = false)
  ∧ wfDatabase (cakeDB shopWorld)
  ∧ NoDup (Flavor_name <$> stored flavors (localStorage shopWorld))
  ∧ NoDup (Client_id <$> stored clients (localStorage shopWorld))
  ∧ result (Home.init idbEnv false) shopWorld = Normal tt
  ∧ catalogInSync idbEnv (after (Home.init idbEnv false) shopWorld)
  ∧ home_flavors (home (after (Home.init idbEnv false) shopWorld)) ≠ []
  ∧ home_initializing (home (after (Home.init idbEnv false) shopWorld)) = false
  ∧ home_message (home (after (Home.init idbEnv false) shopWorld))
    = home_message (home shopWorld).
Proof.
  assert (NoDup (Flavor_name <$> stored flavors (localStorage shopWorld))) as Hf
    by apply NoDup_nil_2.
  assert (NoDup (Client_id <$> stored clients (localStorage shopWorld))) as Hc.
  { apply (bool_decide_unpack _). vm_compute. exact I. }
  split; [reflexivity|]. split; [by right|]. split; [apply wfDatabase_empty|].
  split; [exact Hf|]. split; [exact Hc|].
  apply (init_establishes_sync idbEnv shopWorld);
    [reflexivity | by right | apply wfDatabase_empty | exact Hf | exact Hc].
Defined.
